(** * manga_translator: the staged pipeline engine and its task adapters

    A shallow embedding of [manga_translator/manga_translator.py]:
    the [MangaTranslator] engine ([translate], [_translate], the [_run_*]
    stage methods and the progress hooks), the websocket worker
    [MangaTranslatorWS.listen], the REST facade
    [MangaTranslatorAPI.err_handling] / [get_file] / [PostSchema], the
    colour legend of [save_text_to_file] and the progress hook of the
    polling worker [MangaTranslatorWeb]; and of
    [manga_translator/translators/ocrtext.py], the text collector
    [OCRTextTranslator._translate].

    Python objects that may be [None] are [option] values.  Calls into model
    services, codecs and the network are fields of a [Services] record acting
    on an abstract world [W]; each may return a value or raise.  The
    [Context], a mutable attribute bag shared by every stage of a run, lives
    in the state of the monad, so that what a stage wrote before an exception
    is still there when the exception is handled.  Log lines, progress
    reports and external calls are kept as the events of a run.

    The engine starts from the option table: the completion of the params
    at the head of [translate] (lines 189-201) is not modelled, nor are the
    directory walk of [translate_path], the text layout of
    [save_text_to_file], the task loop of [MangaTranslatorWeb] and
    [format_translate].

    A [str] is Unicode text, held in its UTF-8 encoding: equality,
    concatenation, prefix and substring tests are those of the bytes.  The
    methods that consult the Unicode character database ([upper], [lower],
    [isnumeric], [strip]) are not computed here: they are given with the
    other collaborators, and every statement holds whatever they answer. *)

From Stdlib Require Import ZArith List String Ascii Bool Lia DecimalString.
Import ListNotations.

Open Scope string_scope.
Open Scope list_scope.
Open Scope Z_scope.

(** ** Python strings *)

Module PyStr.

(** The methods of [str] that CPython answers from the Unicode character
    database, on text of any script. *)
Record Unicode : Type := mkUnicode {
  upper : string -> string;        (* [s.upper()] *)
  lower : string -> string;        (* [s.lower()] *)
  isnumeric : string -> bool;      (* [s.isnumeric()] *)
  strip : string -> string         (* [s.strip()] *)
}.

(** truth value of [s.strip()]: something is left of [s] *)
Definition strip_nonempty (u : Unicode) (s : string) : bool :=
  negb (String.eqb (strip u s) "").

(** The four methods on ASCII text, where they are computed from the
    characters: on a string of ASCII characters [ASCII] answers as CPython
    does.  The sample runs, whose texts are ASCII, use it; no statement
    about the code depends on it. *)

Definition is_lower (c : ascii) : bool :=
  let n := nat_of_ascii c in (97 <=? n)%nat && (n <=? 122)%nat.

Definition is_upper (c : ascii) : bool :=
  let n := nat_of_ascii c in (65 <=? n)%nat && (n <=? 90)%nat.

Definition is_digit (c : ascii) : bool :=
  let n := nat_of_ascii c in (48 <=? n)%nat && (n <=? 57)%nat.

(* str.isspace on ASCII: space, \t \n \v \f \r and the separators 28..31 *)
Definition is_space (c : ascii) : bool :=
  let n := nat_of_ascii c in
  (n =? 32)%nat || ((9 <=? n)%nat && (n <=? 13)%nat)
  || ((28 <=? n)%nat && (n <=? 31)%nat).

Definition upper_char (c : ascii) : ascii :=
  if is_lower c then ascii_of_nat (nat_of_ascii c - 32) else c.

Definition lower_char (c : ascii) : ascii :=
  if is_upper c then ascii_of_nat (nat_of_ascii c + 32) else c.

Fixpoint map_chars (f : ascii -> ascii) (s : string) : string :=
  match s with
  | EmptyString => EmptyString
  | String c r => String (f c) (map_chars f r)
  end.

Definition ascii_upper : string -> string := map_chars upper_char.
Definition ascii_lower : string -> string := map_chars lower_char.

Fixpoint all_chars (p : ascii -> bool) (s : string) : bool :=
  match s with
  | EmptyString => true
  | String c r => p c && all_chars p r
  end.

(** at least one character, all of them digits *)
Definition ascii_isnumeric (s : string) : bool :=
  match s with
  | EmptyString => false
  | _ => all_chars is_digit s
  end.

Fixpoint lstrip (s : string) : string :=
  match s with
  | EmptyString => EmptyString
  | String c r => if is_space c then lstrip r else s
  end.

Fixpoint rstrip (s : string) : string :=
  match s with
  | EmptyString => EmptyString
  | String c r =>
      match rstrip r with
      | EmptyString => if is_space c then EmptyString else String c EmptyString
      | r' => String c r'
      end
  end.

Definition ascii_strip (s : string) : string := rstrip (lstrip s).

(** Not [str] on other text: a letter outside ASCII is left as it is. *)
Definition ASCII : Unicode :=
  {| upper := ascii_upper;
     lower := ascii_lower;
     isnumeric := ascii_isnumeric;
     strip := ascii_strip |}.

(** [s.startswith(p)] *)
Definition startswith (p s : string) : bool := String.prefix p s.

(** [x in xs] for a list (or the keys of a dict) of strings *)
Definition mem (x : string) (xs : list string) : bool :=
  existsb (String.eqb x) xs.

(** The part of [s] after the first occurrence of [sep], when there is one. *)
Fixpoint after_first (sep s : string) : option string :=
  if String.prefix sep s then
    Some (substring (String.length sep) (String.length s - String.length sep) s)
  else match s with
       | EmptyString => None
       | String _ r => after_first sep r
       end.

(** The part of [s] before the first occurrence of [sep] (all of [s] when
    there is none). *)
Fixpoint before_first (sep s : string) : string :=
  if String.prefix sep s then EmptyString
  else match s with
       | EmptyString => EmptyString
       | String c r => String c (before_first sep r)
       end.

(** [sep in s] for a non-empty [sep] *)
Definition contains (sep s : string) : bool :=
  match after_first sep s with Some _ => true | None => false end.

(** [s.split(sep)[1]] for a non-empty [sep]: [None] is the IndexError of a
    string without [sep]. *)
Definition split_second (sep s : string) : option string :=
  match after_first sep s with
  | Some r => Some (before_first sep r)
  | None => None
  end.

End PyStr.

(** ** Exceptions and results *)

Inductive exn : Type :=
| TranslationInterrupt
| LanguageUnsupportedException
| ValidationError (msg : string)
| ValueError (cls : string)          (* ValueError and its subclasses *)
| PyException (cls : string)         (* any other subclass of Exception *)
| PyBaseException (cls : string).    (* outside Exception: CancelledError, ... *)

(** [isinstance(e, Exception)] *)
Definition is_Exception (e : exn) : bool :=
  match e with
  | PyBaseException _ => false
  | _ => true
  end.

Definition is_TranslationInterrupt (e : exn) : bool :=
  match e with
  | TranslationInterrupt => true
  | _ => false
  end.

Definition is_LanguageUnsupported (e : exn) : bool :=
  match e with
  | LanguageUnsupportedException => true
  | _ => false
  end.

Inductive Res (A : Type) : Type :=
| Ok (a : A)
| Raise (e : exn).
Arguments Ok {A} a.
Arguments Raise {A} e.

(** A call into the outside world: a value or an exception, and the world
    after the call. *)
Definition Act (W A : Type) : Type := W -> Res A * W.

(** ** The state-and-exception monad of the engine *)

Section StateExn.
Context {S : Type}.

Definition M (A : Type) : Type := S -> Res A * S.

Definition ret {A} (a : A) : M A := fun s => (Ok a, s).

Definition bind {A B} (m : M A) (k : A -> M B) : M B :=
  fun s =>
    match m s with
    | (Ok a, s') => k a s'
    | (Raise e, s') => (Raise e, s')
    end.

Definition raise {A} (e : exn) : M A := fun s => (Raise e, s).

Definition when (b : bool) (m : M unit) : M unit :=
  if b then m else ret tt.
End StateExn.
Arguments M S A : clear implicits.

Declare Scope monad_scope.
Delimit Scope monad_scope with monad.
Notation "x <- m ;; k" := (bind m (fun x => k))
  (at level 100, m at next level, right associativity) : monad_scope.
Notation "' p <- m ;; k" := (bind m (fun x => match x with p => k end))
  (at level 100, p pattern, m at next level, right associativity) : monad_scope.
Notation "m ;; k" := (bind m (fun _ => k))
  (at level 100, right associativity) : monad_scope.
Open Scope monad_scope.

(** ** Data model *)

(** A PIL image: its size and its channel bytes. *)
Record Image : Type := mkImage {
  width : Z;
  height : Z;
  pixels : list Z
}.

(** A numpy array (decoded image planes and masks), passed between services. *)
Definition ndarray : Type := list Z.

(** Modelled from the spec: [TextBlock] ([utils]) is not in the sources.  One
    detected text block: bounding box, recognised text ([get_text()]),
    translated text and target language (unset until the translation stage
    runs), alignment and direction hints, colour estimates. *)
Record TextBlock : Type := mkTextBlock {
  xyxy : Z * Z * Z * Z;
  get_text : string;
  translation : option string;
  target_lang : option string;
  _alignment : option string;
  _direction : option string;
  fg_colors : Z * Z * Z;
  bg_colors : Z * Z * Z
}.

(** The configuration table of a run, as [_preprocess_params] leaves it on
    the Context: selectors, thresholds, rendering options, retry count. *)
Record Options : Type := mkOptions {
  upscale_ratio : option Z;
  upscaler : string;
  detector : string;
  ocr : string;
  inpainter : string;
  translator : string;            (* the TranslatorChain, [name:lang;...] *)
  opt_target_lang : string;
  retries : Z;
  uppercase : bool;
  lowercase : bool;
  alignment : string;
  direction : string;
  renderer : string;
  revert_upscaling : bool;
  filter_text : option (string -> bool);   (* compiled pattern: re.search *)
  filter_trans : option (string -> bool);
  use_mtpe : bool;
  detection_size : Z;
  text_threshold : Z * Z;         (* thresholds: a ratio, only passed on *)
  box_threshold : Z * Z;
  unclip_ratio : Z * Z;
  det_invert : bool;
  det_gamma_correct : bool;
  det_rotate : bool;
  det_auto_rotate : bool;
  inpainting_size : Z;
  font_path : string;
  font_size : option Z;
  font_size_offset : Z;
  font_size_minimum : Z
}.

(** The Context: the option table and the attributes the stages write.  An
    attribute that was never written reads as [None]. *)
Record Context : Type := mkContext {
  opts : Options;
  input : option Image;
  result : option Image;
  upscaled : option Image;
  img_rgb : option ndarray;
  img_alpha : option ndarray;
  text_regions : option (list TextBlock);
  mask_raw : option ndarray;
  mask : option ndarray;
  img_inpainted : option ndarray;
  img_rendered : option ndarray;
  render_mask : option ndarray
}.

Definition set_input v c :=
  mkContext (opts c) v (result c) (upscaled c) (img_rgb c) (img_alpha c)
    (text_regions c) (mask_raw c) (mask c) (img_inpainted c) (img_rendered c)
    (render_mask c).
Definition set_result v c :=
  mkContext (opts c) (input c) v (upscaled c) (img_rgb c) (img_alpha c)
    (text_regions c) (mask_raw c) (mask c) (img_inpainted c) (img_rendered c)
    (render_mask c).
Definition set_upscaled v c :=
  mkContext (opts c) (input c) (result c) v (img_rgb c) (img_alpha c)
    (text_regions c) (mask_raw c) (mask c) (img_inpainted c) (img_rendered c)
    (render_mask c).
Definition set_img_rgb v c :=
  mkContext (opts c) (input c) (result c) (upscaled c) v (img_alpha c)
    (text_regions c) (mask_raw c) (mask c) (img_inpainted c) (img_rendered c)
    (render_mask c).
Definition set_img_alpha v c :=
  mkContext (opts c) (input c) (result c) (upscaled c) (img_rgb c) v
    (text_regions c) (mask_raw c) (mask c) (img_inpainted c) (img_rendered c)
    (render_mask c).
Definition set_text_regions v c :=
  mkContext (opts c) (input c) (result c) (upscaled c) (img_rgb c) (img_alpha c)
    v (mask_raw c) (mask c) (img_inpainted c) (img_rendered c) (render_mask c).
Definition set_mask_raw v c :=
  mkContext (opts c) (input c) (result c) (upscaled c) (img_rgb c) (img_alpha c)
    (text_regions c) v (mask c) (img_inpainted c) (img_rendered c)
    (render_mask c).
Definition set_mask v c :=
  mkContext (opts c) (input c) (result c) (upscaled c) (img_rgb c) (img_alpha c)
    (text_regions c) (mask_raw c) v (img_inpainted c) (img_rendered c)
    (render_mask c).
Definition set_img_inpainted v c :=
  mkContext (opts c) (input c) (result c) (upscaled c) (img_rgb c) (img_alpha c)
    (text_regions c) (mask_raw c) (mask c) v (img_rendered c) (render_mask c).
Definition set_img_rendered v c :=
  mkContext (opts c) (input c) (result c) (upscaled c) (img_rgb c) (img_alpha c)
    (text_regions c) (mask_raw c) (mask c) (img_inpainted c) v (render_mask c).
Definition set_render_mask v c :=
  mkContext (opts c) (input c) (result c) (upscaled c) (img_rgb c) (img_alpha c)
    (text_regions c) (mask_raw c) (mask c) (img_inpainted c) (img_rendered c) v.

(** The Context built from the params, after [_preprocess_params]: only the options are set. *)
Definition new_context (o : Options) : Context :=
  mkContext o None None None None None None None None None None None.

(** Truth value of a number that may be [None] ([if ctx.upscale_ratio:]). *)
Definition truthy_num (v : option Z) : bool :=
  match v with
  | Some z => negb (z =? 0)
  | None => false
  end.

(** Truth value of a list that may be [None] ([if not ctx.text_regions:]). *)
Definition truthy_list {A} (v : option (list A)) : bool :=
  match v with
  | Some (_ :: _) => true
  | _ => false
  end.

(** ** What a run does that an observer can see *)

Inductive ServiceCall : Type :=
| PrepareUpscaling (name : string)
| PrepareDetection (name : string)
| PrepareOcr (name : string)
| PrepareInpainting (name : string)
| PrepareTranslation (chain : string)
| DispatchUpscaling
| LoadImage
| DispatchDetection
| VisualizeTextblocks
| DispatchOcr (regions : option (list TextBlock))
| DispatchTranslation (chain : string) (queries : list string)
| DispatchMaskRefinement
| DispatchInpainting (name : string)
| DispatchRendering
| DispatchEngRender
| DumpImage
| Resize
| Imwrite (path : string)
| NumpyOp (what : string).

Inductive Event : Type :=
| LogInfo (msg : string)
| LogWarn (msg : string)
| LogErrorMsg (msg : string)
| LogRetry (attempts : Z) (of_retries : option Z)
| LogError (e : exn)
| LogFiltered (text : string)
| Progress (state : string) (finished : bool)
| Call (c : ServiceCall).

(** An attempt of the retry loop opens with [logger.info('Loading models')]. *)
Definition is_attempt_start (ev : Event) : bool :=
  match ev with
  | LogInfo msg => String.eqb msg "Loading models"
  | _ => false
  end.

Definition attempts_in (l : list Event) : nat :=
  List.length (filter is_attempt_start l).

Definition is_translation_call (ev : Event) : bool :=
  match ev with
  | Call (DispatchTranslation _ _) => true
  | _ => false
  end.

Definition is_stage_call (ev : Event) : bool :=
  match ev with
  | Call (DispatchOcr _) | Call (DispatchTranslation _ _)
  | Call DispatchMaskRefinement | Call (DispatchInpainting _)
  | Call DispatchRendering | Call DispatchEngRender => true
  | _ => false
  end.

(** ** The engine: [MangaTranslator] *)

Module Engine.

(** External collaborators of the engine ([detection], [ocr], [translators],
    [inpainting], [upscaling], [mask_refinement], [text_rendering], [utils],
    [cv2], PIL and numpy): each call may raise. *)
Record Services (W : Type) : Type := mkServices {
  prepare_upscaling : string -> Act W unit;
  prepare_detection : string -> Act W unit;
  prepare_ocr : string -> string -> Act W unit;
  prepare_inpainting : string -> string -> Act W unit;
  prepare_translation : string -> Act W unit;
  dispatch_upscaling :
    string -> list (option Image) -> option Z -> string -> Act W (list Image);
  load_image : option Image -> Act W (ndarray * option ndarray);
  dispatch_detection :
    string -> option ndarray -> Options -> string -> bool ->
    Act W (list TextBlock * ndarray * option ndarray);
  visualize_textblocks :
    option ndarray -> option (list TextBlock) -> Act W ndarray;
  dispatch_ocr :
    string -> option ndarray -> option (list TextBlock) -> string -> bool ->
    Act W (list TextBlock);
  dispatch_translation :
    string -> list string -> bool -> string -> Act W (list string);
  dispatch_mask_refinement :
    option (list TextBlock) -> option ndarray -> option ndarray -> string ->
    bool -> Act W ndarray;
  dispatch_inpainting :
    string -> option ndarray -> option ndarray -> Z -> bool -> bool ->
    Act W ndarray;
  dispatch_rendering :
    option ndarray -> option (list TextBlock) -> Options -> option ndarray ->
    Act W ndarray;
  dispatch_eng_render :
    option ndarray -> option ndarray -> option (list TextBlock) -> string ->
    Act W ndarray;
  dump_image : option ndarray -> option ndarray -> Act W Image;
  image_resize : Image -> Z * Z -> Act W Image;
  cv2_imwrite : string -> option ndarray -> Act W unit;
  numpy_op : string -> list (option ndarray) -> Act W ndarray;
  count_valuable_text : string -> Z;
  is_url : string -> bool;
  LANGAUGE_ORIENTATION_PRESETS : string -> option string;
  unicode : PyStr.Unicode          (* the methods of [str] *)
}.
Arguments prepare_upscaling {W}.
Arguments prepare_detection {W}.
Arguments prepare_ocr {W}.
Arguments prepare_inpainting {W}.
Arguments prepare_translation {W}.
Arguments dispatch_upscaling {W}.
Arguments load_image {W}.
Arguments dispatch_detection {W}.
Arguments visualize_textblocks {W}.
Arguments dispatch_ocr {W}.
Arguments dispatch_translation {W}.
Arguments dispatch_mask_refinement {W}.
Arguments dispatch_inpainting {W}.
Arguments dispatch_rendering {W}.
Arguments dispatch_eng_render {W}.
Arguments dump_image {W}.
Arguments image_resize {W}.
Arguments cv2_imwrite {W}.
Arguments numpy_op {W}.
Arguments count_valuable_text {W}.
Arguments is_url {W}.
Arguments LANGAUGE_ORIENTATION_PRESETS {W}.
Arguments unicode {W}.

(** The classes whose [translate] is modelled: the base engine, the
    websocket worker (it overrides [_run_text_rendering]) and the REST
    facade. *)
Inductive TranslatorClass : Type :=
| MangaTranslator
| MangaTranslatorWS
| MangaTranslatorAPI.

(** A progress hook registered with [add_progress_hook]. *)
Definition Hook (W : Type) : Type := string -> bool -> Act W unit.

(** The attributes of [self]. *)
Record Self (W : Type) : Type := mkSelf {
  cls : TranslatorClass;
  verbose : bool;
  ignore_errors : bool;
  device : string;
  _cuda_limited_memory : bool;
  _progress_hooks : list (Hook W)   (* those registered after the logger hook *)
}.
Arguments cls {W}.
Arguments verbose {W}.
Arguments ignore_errors {W}.
Arguments device {W}.
Arguments _cuda_limited_memory {W}.
Arguments _progress_hooks {W}.

Definition using_cuda {W} (self : Self W) : bool :=
  PyStr.startswith "cuda" (device self).

(** The state a run threads: the outside world, the Context object and what
    has been logged, reported and called so far (oldest first). *)
Record St (W : Type) : Type := mkSt {
  world : W;
  ctx : Context;
  log : list Event
}.
Arguments mkSt {W}.
Arguments world {W}.
Arguments ctx {W}.
Arguments log {W}.

Section Pipeline.
Variable W : Type.
Variable svc : Services W.
Variable self : Self W.

Local Abbreviation Eng := (M (St W)).

Definition emit (ev : Event) : Eng unit :=
  fun st => (Ok tt, mkSt (world st) (ctx st) (log st ++ [ev])).

(** Run an external call on the world, without a record in the log. *)
Definition lift {A} (act : Act W A) : Eng A :=
  fun st =>
    let (r, w') := act (world st) in
    (r, mkSt w' (ctx st) (log st)).

(** An external call, recorded when it is made. *)
Definition call {A} (c : ServiceCall) (act : Act W A) : Eng A :=
  emit (Call c) ;; lift act.

Definition get_ctx : Eng Context := fun st => (Ok (ctx st), st).

Definition update_ctx (f : Context -> Context) : Eng unit :=
  fun st => (Ok tt, mkSt (world st) (f (ctx st)) (log st)).

(** *** Progress hooks *)

(** The hook [_add_logger_hook] installs first: it only logs. *)
Definition LOG_MESSAGES (state : string) : option string :=
  if String.eqb state "upscaling" then Some "Running upscaling"
  else if String.eqb state "detection" then Some "Running text detection"
  else if String.eqb state "ocr" then Some "Running ocr"
  else if String.eqb state "mask-generation" then Some "Running mask refinement"
  else if String.eqb state "translating" then Some "Running text translation"
  else if String.eqb state "rendering" then Some "Running rendering"
  else if String.eqb state "downscaling" then Some "Running downscaling"
  else if String.eqb state "saved" then Some "Saving results"
  else None.

Definition LOG_MESSAGES_SKIP (state : string) : option string :=
  if String.eqb state "skip-no-regions" then Some "No text regions! - Skipping"
  else if String.eqb state "skip-no-text"
       then Some "No text regions with text! - Skipping"
  else None.

Definition LOG_MESSAGES_ERROR (state : string) : option string :=
  if String.eqb state "error-translating"
  then Some "Text translator returned empty queries"
  else None.

Definition logger_hook (state : string) (finished : bool) : Eng unit :=
  match LOG_MESSAGES state with
  | Some msg => emit (LogInfo msg)
  | None =>
      match LOG_MESSAGES_SKIP state with
      | Some msg => emit (LogWarn msg)
      | None =>
          match LOG_MESSAGES_ERROR state with
          | Some msg => emit (LogErrorMsg msg)
          | None => ret tt
          end
      end
  end.

Fixpoint run_hooks (hs : list (Hook W)) (state : string) (finished : bool)
  : Eng unit :=
  match hs with
  | [] => ret tt
  | ph :: rest => lift (ph state finished) ;; run_hooks rest state finished
  end.

(** [_report_progress]: every hook, in registration order; the first one
    that raises ends the broadcast. *)
Definition _report_progress (state : string) (finished : bool) : Eng unit :=
  emit (Progress state finished) ;;
  logger_hook state finished ;;
  run_hooks (_progress_hooks self) state finished.

Definition _result_path (path : string) : string :=
  ("result/" ++ path)%string.

(** *** Stage methods *)

Definition _run_upscaling : Eng Image :=
  c <- get_ctx ;;
  out <- call DispatchUpscaling
           (dispatch_upscaling svc (upscaler (opts c)) [input c]
              (upscale_ratio (opts c)) (device self)) ;;
  match out with
  | first :: _ => ret first
  | [] => raise (PyException "IndexError")
  end.

Definition _run_detection
  : Eng (list TextBlock * ndarray * option ndarray) :=
  c <- get_ctx ;;
  call DispatchDetection
    (dispatch_detection svc (detector (opts c)) (img_rgb c) (opts c)
       (device self) (verbose self)).

(** The post-OCR predicate: [true] when the region is dropped. *)
Definition ocr_dropped (o : Options) (text : string) : bool :=
  PyStr.isnumeric (unicode svc) text
  || match filter_text o with Some search => search text | None => false end
  || (count_valuable_text svc text <=? 1)
  || is_url svc text.

Fixpoint filter_by_text (o : Options) (regions : list TextBlock)
  : Eng (list TextBlock) :=
  match regions with
  | [] => ret []
  | region :: rest =>
      let text := get_text region in
      if ocr_dropped o text then
        when (PyStr.strip_nonempty (unicode svc) text) (emit (LogFiltered text)) ;;
        filter_by_text o rest
      else
        kept <- filter_by_text o rest ;;
        ret (region :: kept)
  end.

Definition _run_ocr : Eng (list TextBlock) :=
  c <- get_ctx ;;
  regions <- call (DispatchOcr (text_regions c))
               (dispatch_ocr svc (ocr (opts c)) (img_rgb c) (text_regions c)
                  (device self) (verbose self)) ;;
  filter_by_text (opts c) regions.

(** The case conversion of the assignment loop: both branches call
    [translation.upper()]. *)
Definition convert_case (o : Options) (t : string) : string :=
  if uppercase o then PyStr.upper (unicode svc) t
  else if lowercase o then PyStr.upper (unicode svc) t
  else t.

Definition assign_translation (o : Options) (region : TextBlock)
  (t : string) : TextBlock :=
  mkTextBlock (xyxy region) (get_text region)
    (Some (convert_case o t)) (Some (opt_target_lang o))
    (Some (alignment o)) (Some (direction o))
    (fg_colors region) (bg_colors region).

(** [for region, translation in zip(regions, translated_sentences)]: the
    region objects are updated in place, as far as the shorter list goes. *)
Fixpoint assign_translations (o : Options) (regions : list TextBlock)
  (translated : list string) : list TextBlock :=
  match regions, translated with
  | region :: rest, t :: ts =>
      assign_translation o region t :: assign_translations o rest ts
  | _, _ => regions
  end.

(** The post-translation predicate: [true] when the region is dropped. *)
Definition translation_dropped (o : Options) (t : string) : bool :=
  PyStr.isnumeric (unicode svc) t
  || match filter_trans o with Some search => search t | None => false end
  || (count_valuable_text svc t <=? 1).

(** A region the post-translation filter keeps. *)
Definition kept_after_translation (o : Options) (region : TextBlock) : bool :=
  match translation region with
  | Some t => negb (translation_dropped o t)
  | None => false
  end.

Fixpoint filter_by_translation (o : Options) (regions : list TextBlock)
  : Eng (list TextBlock) :=
  match regions with
  | [] => ret []
  | region :: rest =>
      match translation region with
      | None => raise (PyException "AttributeError")
      | Some t =>
          if translation_dropped o t then
            when (PyStr.strip_nonempty (unicode svc) t) (emit (LogFiltered t)) ;;
            filter_by_translation o rest
          else
            kept <- filter_by_translation o rest ;;
            ret (region :: kept)
      end
  end.

Definition regions_of (v : option (list TextBlock)) : Eng (list TextBlock) :=
  match v with
  | Some regions => ret regions
  | None => raise (PyException "TypeError")
  end.

Definition _run_text_translation : Eng (list TextBlock) :=
  c <- get_ctx ;;
  regions <- regions_of (text_regions c) ;;
  translated_sentences <-
    call (DispatchTranslation (translator (opts c)) (map get_text regions))
      (dispatch_translation svc (translator (opts c)) (map get_text regions)
         (use_mtpe (opts c))
         (if _cuda_limited_memory self then "cpu" else device self)) ;;
  let assigned := assign_translations (opts c) regions translated_sentences in
  update_ctx (set_text_regions (Some assigned)) ;;
  filter_by_translation (opts c) assigned.

Definition _run_mask_refinement : Eng ndarray :=
  c <- get_ctx ;;
  call DispatchMaskRefinement
    (dispatch_mask_refinement svc (text_regions c) (img_rgb c) (mask_raw c)
       "fit_text" (verbose self)).

Definition _run_inpainting : Eng ndarray :=
  c <- get_ctx ;;
  call (DispatchInpainting (inpainter (opts c)))
    (dispatch_inpainting svc (inpainter (opts c)) (img_rgb c) (mask c)
       (inpainting_size (opts c)) (using_cuda self) (verbose self)).

Definition first_target_lang (v : option (list TextBlock)) : option string :=
  match v with
  | Some (region :: _) => target_lang region
  | _ => None
  end.

Definition horizontal_preset (lang : option string) : bool :=
  match lang with
  | Some l =>
      match LANGAUGE_ORIENTATION_PRESETS svc l with
      | Some o => String.eqb o "h"
      | None => false
      end
  | None => false
  end.

(** [MangaTranslator._run_text_rendering] *)
Definition base_run_text_rendering : Eng (option ndarray) :=
  c <- get_ctx ;;
  if String.eqb (renderer (opts c)) "none" then ret (img_inpainted c)
  else if String.eqb (renderer (opts c)) "manga2eng"
          && truthy_list (text_regions c)
          && horizontal_preset (first_target_lang (text_regions c))
  then
    out <- call DispatchEngRender
             (dispatch_eng_render svc (img_inpainted c) (img_rgb c)
                (text_regions c) (font_path (opts c))) ;;
    ret (Some out)
  else
    out <- call DispatchRendering
             (dispatch_rendering svc (img_inpainted c) (text_regions c)
                (opts c) (render_mask c)) ;;
    ret (Some out).

(** [MangaTranslatorWS._run_text_rendering]: the numpy arithmetic on the
    masks is external. *)
Definition ws_run_text_rendering : Eng (option ndarray) :=
  c <- get_ctx ;;
  render_mask0 <- call (NumpyOp "binarize") (numpy_op svc "binarize" [mask c]) ;;
  output <- base_run_text_rendering ;;
  render_mask1 <- call (NumpyOp "mark_changed")
                    (numpy_op svc "mark_changed"
                       [Some render_mask0; img_rgb c; output]) ;;
  update_ctx (set_render_mask (Some render_mask1)) ;;
  when (verbose self)
    (call (Imwrite (_result_path "ws_render_in.png"))
       (cv2_imwrite svc (_result_path "ws_render_in.png") (img_rgb c)) ;;
     call (Imwrite (_result_path "ws_render_out.png"))
       (cv2_imwrite svc (_result_path "ws_render_out.png") output) ;;
     call (Imwrite (_result_path "ws_mask.png"))
       (cv2_imwrite svc (_result_path "ws_mask.png") (Some render_mask1))) ;;
  when (verbose self)
    (call (Imwrite (_result_path "ws_inmask.png"))
       (cv2_imwrite svc (_result_path "ws_inmask.png") (img_rgb c))) ;;
  masked <- call (NumpyOp "apply_mask")
              (numpy_op svc "apply_mask" [output; Some render_mask1]) ;;
  when (verbose self)
    (call (Imwrite (_result_path "ws_output.png"))
       (cv2_imwrite svc (_result_path "ws_output.png") (Some masked))) ;;
  ret (Some masked).

Definition _run_text_rendering : Eng (option ndarray) :=
  match cls self with
  | MangaTranslatorWS => ws_run_text_rendering
  | _ => base_run_text_rendering
  end.

(** *** [_translate]: the stage sequence *)

(** Lines 281-294: upscaling, decoding and detection. *)
Definition _translate_detect : Eng unit :=
  c <- get_ctx ;;
  (if truthy_num (upscale_ratio (opts c)) then
     _report_progress "upscaling" false ;;
     up <- _run_upscaling ;;
     update_ctx (set_upscaled (Some up))
   else
     update_ctx (set_upscaled (input c))) ;;
  c <- get_ctx ;;
  '(rgb, alpha) <- call LoadImage (load_image svc (upscaled c)) ;;
  update_ctx (set_img_rgb (Some rgb)) ;;
  update_ctx (set_img_alpha alpha) ;;
  _report_progress "detection" false ;;
  '(regions, raw, refined) <- _run_detection ;;
  update_ctx (set_text_regions (Some regions)) ;;
  update_ctx (set_mask_raw (Some raw)) ;;
  update_ctx (set_mask refined) ;;
  when (verbose self)
    (c <- get_ctx ;;
     call (Imwrite (_result_path "mask_raw.png"))
       (cv2_imwrite svc (_result_path "mask_raw.png") (mask_raw c)) ;;
     bboxes <- call VisualizeTextblocks
                 (visualize_textblocks svc (img_rgb c) (text_regions c)) ;;
     call (Imwrite (_result_path "bboxes.png"))
       (cv2_imwrite svc (_result_path "bboxes.png") (Some bboxes))).

(** Lines 313-339: mask refinement, inpainting, rendering, finalisation. *)
Definition _translate_render : Eng unit :=
  c <- get_ctx ;;
  when (match mask c with None => true | Some _ => false end)
    (_report_progress "mask-generation" false ;;
     refined <- _run_mask_refinement ;;
     update_ctx (set_mask (Some refined))) ;;
  when (verbose self)
    (c <- get_ctx ;;
     inpaint_input_img <-
       call (DispatchInpainting "none")
         (dispatch_inpainting svc "none" (img_rgb c) (mask c)
            (inpainting_size (opts c)) (using_cuda self) (verbose self)) ;;
     call (Imwrite (_result_path "inpaint_input.png"))
       (cv2_imwrite svc (_result_path "inpaint_input.png")
          (Some inpaint_input_img)) ;;
     call (Imwrite (_result_path "mask_final.png"))
       (cv2_imwrite svc (_result_path "mask_final.png") (mask c))) ;;
  _report_progress "inpainting" false ;;
  inpainted <- _run_inpainting ;;
  update_ctx (set_img_inpainted (Some inpainted)) ;;
  when (verbose self)
    (call (Imwrite (_result_path "inpainted.png"))
       (cv2_imwrite svc (_result_path "inpainted.png") (Some inpainted))) ;;
  _report_progress "rendering" false ;;
  rendered <- _run_text_rendering ;;
  update_ctx (set_img_rendered rendered) ;;
  _report_progress "finished" true ;;
  c <- get_ctx ;;
  dumped <- call DumpImage (dump_image svc (img_rendered c) (img_alpha c)) ;;
  update_ctx (set_result (Some dumped)) ;;
  when (revert_upscaling (opts c))
    (_report_progress "downscaling" false ;;
     c <- get_ctx ;;
     match result c, input c with
     | Some r, Some i =>
         resized <- call Resize (image_resize svc r (width i, height i)) ;;
         update_ctx (set_result (Some resized))
     | _, _ => raise (PyException "AttributeError")
     end).

(** Lines 296-339: what follows detection. *)
Definition _translate_regions : Eng unit :=
  c <- get_ctx ;;
  if negb (truthy_list (text_regions c)) then
    _report_progress "skip-no-regions" true
  else
    _report_progress "ocr" false ;;
    regions <- _run_ocr ;;
    update_ctx (set_text_regions (Some regions)) ;;
    if negb (truthy_list (Some regions)) then
      _report_progress "skip-no-text" true
    else
      _report_progress "translating" false ;;
      regions <- _run_text_translation ;;
      update_ctx (set_text_regions (Some regions)) ;;
      if negb (truthy_list (Some regions)) then
        _report_progress "error-translating" true
      else
        _translate_render.

(** [_translate(ctx)]; the Context it returns is the one it was given. *)
Definition _translate : Eng unit :=
  _translate_detect ;; _translate_regions.

(** *** [translate]: the retry loop *)

(** Lines 214-219: the preparation calls. *)
Definition prepare_calls : Eng unit :=
  c <- get_ctx ;;
  when (truthy_num (upscale_ratio (opts c)))
    (call (PrepareUpscaling (upscaler (opts c)))
       (prepare_upscaling svc (upscaler (opts c)))) ;;
  call (PrepareDetection (detector (opts c)))
    (prepare_detection svc (detector (opts c))) ;;
  call (PrepareOcr (ocr (opts c)))
    (prepare_ocr svc (ocr (opts c)) (device self)) ;;
  call (PrepareInpainting (inpainter (opts c)))
    (prepare_inpainting svc (inpainter (opts c)) (device self)) ;;
  call (PrepareTranslation (translator (opts c)))
    (prepare_translation svc (translator (opts c))).

(** Lines 213-219: the message, then the preparation calls. *)
Definition prepare_models : Eng unit :=
  emit (LogInfo "Loading models") ;;
  prepare_calls.

(** The body of the [try]: one attempt. *)
Definition attempt : Eng unit :=
  prepare_models ;; _translate.

(** The test of the [while]. *)
Definition loop_cond (c : Context) (attempts : Z) : bool :=
  (retries (opts c) =? -1) || (attempts <? retries (opts c) + 1).

(** The test of the handler: [True] when another attempt is allowed. *)
Definition budget_left (c : Context) (attempts : Z) : bool :=
  (retries (opts c) =? -1) || (attempts <? retries (opts c)).

Inductive Step : Type :=
| Return (r : Res unit) (st : St W)   (* translate returns ctx, or raises *)
| Again (st : St W).                  (* attempts += 1, next iteration *)

Definition retry_message (attempts : Z) : Eng unit :=
  c <- get_ctx ;;
  when (0 <? attempts)
    (emit (LogRetry attempts
             (if retries (opts c) =? -1 then None
              else Some (retries (opts c))))).

(** The state the handler reports for an exception. *)
Definition error_state (e : exn) : string :=
  if is_LanguageUnsupported e then "error-lang" else "error".

(** One iteration of the [while] whose test held. *)
Definition retry_step (attempts : Z) (st : St W) : Step :=
  match (retry_message attempts ;; attempt) st with
  | (Ok _, st1) => Return (Ok tt) st1
  | (Raise e, st1) =>
      if is_TranslationInterrupt e then Return (Ok tt) st1
      else if negb (is_Exception e) then Return (Raise e) st1
      else
        match _report_progress (error_state e) true st1 with
        | (Raise e', st2) => Return (Raise e') st2
        | (Ok _, st2) =>
            if negb (ignore_errors self)
               && negb (budget_left (ctx st2) attempts)
            then Return (Raise e) st2
            else Again (mkSt (world st2) (ctx st2) (log st2 ++ [LogError e]))
        end
  end.

(** The [while] loop; [None] when [fuel] iterations were not enough. *)
Fixpoint translate_loop (fuel : nat) (attempts : Z) (st : St W)
  : option (Res unit * St W) :=
  if loop_cond (ctx st) attempts then
    match fuel with
    | O => None
    | S fuel' =>
        match retry_step attempts st with
        | Return r st' => Some (r, st')
        | Again st' => translate_loop fuel' (attempts + 1) st'
        end
    end
  else Some (Ok tt, st).

(** Lines 203-204: the Context the loop starts from. *)
Definition initial_context (image : Image) (o : Options) : Context :=
  set_result None (set_input (Some image) (new_context o)).

(** [translate(image, params)], from the options [_preprocess_params]
    computed; the Context returned is the [ctx] of the final state. *)
Definition translate (fuel : nat) (image : Image) (o : Options) (w : W)
  : option (Res unit * St W) :=
  translate_loop fuel 0 (mkSt w (initial_context image o) []).

End Pipeline.

(** [_translate_file], lines 155-161: the image the file batch saves for a
    source image [img], given the Context [translate] returned: the result
    when there is one, else the source image itself when detection has
    run. *)
Definition _translate_file_result (translation_dict : Context) (img : Image)
  : option Image :=
  match result translation_dict with
  | Some r => Some r
  | None =>
      match text_regions translation_dict with
      | Some _ => Some img
      | None => None
      end
  end.

Arguments emit {W}.
Arguments lift {W A}.
Arguments call {W A}.
Arguments get_ctx {W}.
Arguments update_ctx {W}.
Arguments run_hooks {W}.
Arguments Return {W}.
Arguments Again {W}.


(** ** Relations between the states of a run *)

Section Relations.
Variable W : Type.
(** The part of the Context a computation leaves as it is. *)
Variable V : Type.
Variable view : Context -> V.
(** The events a computation is allowed to add to the log. *)
Variable allowed : Event -> bool.

(** [st'] comes after [st]: the same view of the Context, and a log grown
    by allowed events only. *)
Definition grows (st st' : St W) : Prop :=
  view (ctx st') = view (ctx st) /\
  exists l, log st' = log st ++ l /\ forallb allowed l = true.

Definition framed {A} (m : M (St W) A) : Prop :=
  forall st r st', m st = (r, st') -> grows st st'.

End Relations.
Arguments grows {W V}.
Arguments framed {W V} view allowed {A}.

(** The input image and the options of a run. *)
Definition config (c : Context) : option Image * Options :=
  (input c, opts c).

(** The input image, the options and the result. *)
Definition settled (c : Context) : option Image * Options * option Image :=
  (input c, opts c, result c).

(** Events other than the start of an attempt. *)
Definition not_attempt_start (ev : Event) : bool := negb (is_attempt_start ev).

(** No restriction on the events. *)
Definition any_event (ev : Event) : bool := true.

(** Events other than calls of the translator. *)
Definition not_translation_call (ev : Event) : bool :=
  negb (is_translation_call ev).

(** Events other than calls of the OCR, translation, mask-refinement,
    inpainting and rendering services. *)
Definition not_stage_call (ev : Event) : bool := negb (is_stage_call ev).

(** [st'] is [st] after [n] more attempts were started, on the same input
    image and options. *)
Definition counts {W} (n : nat) (st st' : St W) : Prop :=
  input (ctx st') = input (ctx st) /\
  opts (ctx st') = opts (ctx st) /\
  attempts_in (log st') = (attempts_in (log st) + n)%nat.

(** ** Scripted collaborators, to run the engine on concrete inputs *)

Module Script.

(** The world counts the service calls made so far; a scenario says which
    call of which service raises, what the detector finds and what the
    translator answers. *)
Record Scenario : Type := mkScenario {
  faults : string -> nat -> option exn;
  detected : list TextBlock;
  answers : list string -> list string
}.

Definition scripted {A} (sc : Scenario) (name : string) (value : A)
  : Act nat A :=
  fun tick =>
    match faults sc name tick with
    | Some e => (Raise e, S tick)
    | None => (Ok value, S tick)
    end.

Definition some_images (l : list (option Image)) : list Image :=
  flat_map (fun v => match v with Some i => [i] | None => [] end) l.

Definition services (sc : Scenario) : Services nat :=
  {| prepare_upscaling := fun _ => scripted sc "prepare_upscaling" tt;
     prepare_detection := fun _ => scripted sc "prepare_detection" tt;
     prepare_ocr := fun _ _ => scripted sc "prepare_ocr" tt;
     prepare_inpainting := fun _ _ => scripted sc "prepare_inpainting" tt;
     prepare_translation := fun _ => scripted sc "prepare_translation" tt;
     dispatch_upscaling := fun _ imgs _ _ =>
       scripted sc "upscaling" (some_images imgs);
     load_image := fun img =>
       scripted sc "load_image"
         (match img with Some i => pixels i | None => [] end, None);
     dispatch_detection := fun _ _ _ _ _ =>
       scripted sc "detection" (detected sc, [255], None);
     visualize_textblocks := fun _ _ => scripted sc "visualize" [];
     dispatch_ocr := fun _ _ regions _ _ =>
       scripted sc "ocr" (match regions with Some l => l | None => [] end);
     dispatch_translation := fun _ queries _ _ =>
       scripted sc "translation" (answers sc queries);
     dispatch_mask_refinement := fun _ _ _ _ _ =>
       scripted sc "mask_refinement" [1];
     dispatch_inpainting := fun _ rgb _ _ _ _ =>
       scripted sc "inpainting" (match rgb with Some a => a | None => [] end);
     dispatch_rendering := fun inpainted _ _ _ =>
       scripted sc "rendering"
         (match inpainted with Some a => a | None => [] end);
     dispatch_eng_render := fun inpainted _ _ _ =>
       scripted sc "eng_render"
         (match inpainted with Some a => a | None => [] end);
     dump_image := fun rendered _ =>
       scripted sc "dump_image"
         (mkImage 2 1 (match rendered with Some a => a | None => [] end));
     image_resize := fun img size =>
       scripted sc "resize" (mkImage (fst size) (snd size) (pixels img));
     cv2_imwrite := fun _ _ => scripted sc "imwrite" tt;
     numpy_op := fun _ _ => scripted sc "numpy" [];
     count_valuable_text := fun text => Z.of_nat (String.length text);
     is_url := fun text => PyStr.startswith "http" text;
     LANGAUGE_ORIENTATION_PRESETS := fun lang =>
       if String.eqb lang "ENG" then Some "h" else None;
     unicode := PyStr.ASCII |}.

Definition no_fault : string -> nat -> option exn := fun _ _ => None.

(** The call of [name] made at tick [n] raises [e]. *)
Definition fault_at (name : string) (n : nat) (e : exn)
  : string -> nat -> option exn :=
  fun name' tick =>
    if String.eqb name' name && Nat.eqb tick n then Some e else None.

(** Every call of [name] raises [e]. *)
Definition fault_always (name : string) (e : exn)
  : string -> nat -> option exn :=
  fun name' _ => if String.eqb name' name then Some e else None.

Definition options (r : Z) : Options :=
  {| upscale_ratio := None; upscaler := "esrgan"; detector := "default";
     ocr := "48px"; inpainter := "lama_mpe"; translator := "google:ENG";
     opt_target_lang := "ENG"; retries := r;
     uppercase := false; lowercase := false;
     alignment := "auto"; direction := "auto"; renderer := "default";
     revert_upscaling := false; filter_text := None; filter_trans := None;
     use_mtpe := false; detection_size := 1536;
     text_threshold := (1, 2); box_threshold := (7, 10);
     unclip_ratio := (23, 10);
     det_invert := false; det_gamma_correct := false; det_rotate := false;
     det_auto_rotate := false; inpainting_size := 2048; font_path := "";
     font_size := None; font_size_offset := 0; font_size_minimum := -1 |}.

Definition with_case (up low : bool) (o : Options) : Options :=
  mkOptions (upscale_ratio o) (upscaler o) (detector o) (ocr o) (inpainter o)
    (translator o) (opt_target_lang o) (retries o) up low
    (alignment o) (direction o) (renderer o) (revert_upscaling o)
    (filter_text o) (filter_trans o) (use_mtpe o) (detection_size o)
    (text_threshold o) (box_threshold o) (unclip_ratio o) (det_invert o)
    (det_gamma_correct o) (det_rotate o) (det_auto_rotate o)
    (inpainting_size o) (font_path o) (font_size o) (font_size_offset o)
    (font_size_minimum o).

Definition region (text : string) : TextBlock :=
  mkTextBlock (0, 0, 10, 10) text None None None None (0, 0, 0)
    (255, 255, 255).

Definition page : Image := mkImage 2 1 [10; 20; 30; 40; 50; 60].

Definition engine (ignore : bool) (hooks : list (Hook nat)) : Self nat :=
  mkSelf nat MangaTranslator false ignore "cpu" false hooks.

(** The hook of the REST facade: interrupt when [state] is about to start. *)
Definition interrupt_at (run_until_state : string) : Hook nat :=
  fun state finished tick =>
    if negb (String.eqb run_until_state "")
       && String.eqb run_until_state state && negb finished
    then (Raise TranslationInterrupt, tick)
    else (Ok tt, tick).

(** A hook that raises the interruption signal at every report of [state]. *)
Definition interrupt_on (state : string) : Hook nat :=
  fun state' finished tick =>
    if String.eqb state' state then (Raise TranslationInterrupt, tick)
    else (Ok tt, tick).

(** A translator that answers each query with a fixed prefix. *)
Definition echo (queries : list string) : list string :=
  map (fun q => ("tr " ++ q)%string) queries.

End Script.

End Engine.
Import Engine.

(** ** Python values and dicts, as the task adapters pass them *)

Inductive PyVal : Type :=
| VNone
| VBool (b : bool)
| VInt (z : Z)
| VFloat (num den : Z)
| VStr (s : string)
| VFile (content : string).      (* an uploaded file: [v.file.read()] *)

Module PyDict.

(** A dict with string keys, in insertion order. *)
Definition dict : Type := list (string * PyVal).

(** [d.get(k)]: [None] when the key is absent *)
Fixpoint get (k : string) (d : dict) : PyVal :=
  match d with
  | [] => VNone
  | (k', v) :: rest => if String.eqb k k' then v else get k rest
  end.

(** [k in d] *)
Fixpoint contains (k : string) (d : dict) : bool :=
  match d with
  | [] => false
  | (k', _) :: rest => String.eqb k k' || contains k rest
  end.

(** [d[k] = v] *)
Fixpoint set (k : string) (v : PyVal) (d : dict) : dict :=
  match d with
  | [] => [(k, v)]
  | (k', v') :: rest =>
      if String.eqb k k' then (k, v) :: rest else (k', v') :: set k v rest
  end.

(** [del d[k]], for a key that is there *)
Fixpoint del (k : string) (d : dict) : dict :=
  match d with
  | [] => []
  | (k', v) :: rest => if String.eqb k k' then rest else (k', v) :: del k rest
  end.

(** [dict(base, **over)] *)
Definition update (base over : dict) : dict :=
  fold_left (fun acc kv => set (fst kv) (snd kv) acc) over base.

Definition is_none (v : PyVal) : bool :=
  match v with
  | VNone => true
  | _ => false
  end.

(** The loop both workers run over the configured defaults: a key keeps
    its value unless that value is [None]. *)
Definition merge_defaults (defaults params : dict) : dict :=
  fold_left
    (fun acc kv =>
       let current_value := get (fst kv) acc in
       set (fst kv)
         (if is_none current_value then snd kv else current_value) acc)
    defaults params.

End PyDict.

(** ** The websocket worker: [MangaTranslatorWS.listen] *)

Module SocketWorker.

(** The [new_task] variant of [ws_pb2.WebSocketMessage]. *)
Record NewTask : Type := mkNewTask {
  id : string;
  target_language : string;
  task_detector : string;
  task_direction : string;
  task_translator : string;
  size : string;
  source_image : string
}.

Inductive WebSocketMessage : Type :=
| new_task (task : NewTask)
| finish_task (task_id : string) (translation_mask : string)
| status (task_id : string) (state : string)
| unset.

(** What the worker needs besides the engine: the socket, the image codec,
    the result folder, and the step from a params dict to the option table
    ([_preprocess_params] over [DEFAULT_ARGS], which is not in the sources). *)
Record WorkerIO (W : Type) : Type := mkWorkerIO {
  websocket_send : WebSocketMessage -> Act W unit;
  Image_open : string -> Act W Image;
  save_png : Image -> Act W string;
  save_file : string -> Image -> Act W unit;
  reset_result_dir : string -> Act W unit;
  preprocess_params : PyDict.dict -> Options
}.
Arguments websocket_send {W}.
Arguments Image_open {W}.
Arguments save_png {W}.
Arguments save_file {W}.
Arguments reset_result_dir {W}.
Arguments preprocess_params {W}.

(** [np.zeros((h, w, 4), dtype=np.uint8)] through [Image.fromarray] *)
Definition transparent (h w : Z) : Image :=
  mkImage w h (repeat 0 (Z.to_nat (h * w * 4))).

(** [obj.height] and [obj.width] of an object that may be [None] *)
Definition attr_height (obj : option Image) : Res Z :=
  match obj with
  | Some img => Ok (height img)
  | None => Raise (PyException "AttributeError")
  end.

Definition attr_width (obj : option Image) : Res Z :=
  match obj with
  | Some img => Ok (width img)
  | None => Raise (PyException "AttributeError")
  end.

Section Worker.
Variable W : Type.
Variable svc : Services W.
Variable self : Self W.
Variable io : WorkerIO W.

(** The hook [listen] registers: a status frame per progress report. *)
Definition sync_state (task_id : string) : Hook W :=
  fun state finished => websocket_send io (status task_id state).

(** [self] while [task_id] is being processed. *)
Definition worker (task_id : string) : Self W :=
  mkSelf W MangaTranslatorWS (verbose self) (ignore_errors self)
    (device self) (_cuda_limited_memory self)
    (_progress_hooks self ++ [sync_state task_id]).

Definition task_params (task : NewTask) : PyDict.dict :=
  [ ("target_language", VStr (target_language task));
    ("detector", VStr (task_detector task));
    ("direction", VStr (task_direction task));
    ("translator", VStr (task_translator task));
    ("size", VStr (size task)) ].

(** The outcome of one inbound frame: the finish frame that was sent, if
    any, or the exception that left the handler (and with it the inner
    loop of [listen]). *)
Definition Handled : Type := Res (option WebSocketMessage) * W.

(** The placeholder for a run without a result: lines 654-655 read the
    size from [output], which is [None] there. *)
Definition placeholder (output : option Image) : Res Image :=
  match attr_height output with
  | Raise e => Raise e
  | Ok h =>
      match attr_width output with
      | Raise e => Raise e
      | Ok w => Ok (transparent h w)
      end
  end.

Definition send_result (task_id : string) (output : Image) : Act W (option WebSocketMessage) :=
  fun w =>
    match save_png io output w with
    | (Raise e, w1) => (Raise e, w1)
    | (Ok img_bytes, w1) =>
        let saved :=
          if verbose self
          then save_file io (_result_path "ws_final.png") output w1
          else (Ok tt, w1) in
        match saved with
        | (Raise e, w2) => (Raise e, w2)
        | (Ok _, w2) =>
            match websocket_send io (finish_task task_id img_bytes) w2 with
            | (Raise e, w3) => (Raise e, w3)
            | (Ok _, w3) => (Ok (Some (finish_task task_id img_bytes)), w3)
            end
        end
    end.

(** Lines 631-670: a [new_task] frame. *)
Definition on_new_task (fuel : nat) (translation_params : PyDict.dict)
  (task : NewTask) (w : W) : option Handled :=
  let prepared :=
    if verbose self
    then reset_result_dir io ("result/" ++ id task)%string w
    else (Ok tt, w) in
  match prepared with
  | (Raise e, w0) => Some (Raise e, w0)
  | (Ok _, w0) =>
      let params :=
        PyDict.merge_defaults translation_params (task_params task) in
      match Image_open io (source_image task) w0 with
      | (Raise e, w1) => Some (Raise e, w1)
      | (Ok image, w1) =>
          match translate W svc (worker (id task)) fuel image
                  (preprocess_params io params) w1 with
          | None => None
          | Some (Raise e, st) => Some (Raise e, world st)
          | Some (Ok _, st) =>
              let output := result (ctx st) in
              match output with
              | Some out => Some (send_result (id task) out (world st))
              | None =>
                  match placeholder output with
                  | Raise e => Some (Raise e, world st)
                  | Ok out => Some (send_result (id task) out (world st))
                  end
              end
          end
      end
  end.

(** One inbound frame: only [new_task] is handled. *)
Definition on_message (fuel : nat) (translation_params : PyDict.dict)
  (msg : WebSocketMessage) (w : W) : option Handled :=
  match msg with
  | new_task task => on_new_task fuel translation_params task w
  | _ => Some (Ok None, w)
  end.

Definition sent_frames (sent : option WebSocketMessage)
  : list WebSocketMessage :=
  match sent with
  | Some frame => [frame]
  | None => []
  end.

(** [listen] on one connection: the inbound frames are handled in turn; an
    exception raised by a handler is logged by the [except] around the
    inner loop, which is left with the frames that follow unread.  The
    result lists the finish frames sent on the connection. *)
Fixpoint listen (fuel : nat) (translation_params : PyDict.dict)
  (frames : list WebSocketMessage) (w : W)
  : option (list WebSocketMessage * Res unit * W) :=
  match frames with
  | [] => Some ([], Ok tt, w)
  | msg :: rest =>
      match on_message fuel translation_params msg w with
      | None => None
      | Some (Raise e, w') => Some ([], Raise e, w')
      | Some (Ok sent, w') =>
          match listen fuel translation_params rest w' with
          | None => None
          | Some (replies, r, w'') => Some (sent_frames sent ++ replies, r, w'')
          end
      end
  end.

End Worker.

End SocketWorker.

(** ** The REST facade: [MangaTranslatorAPI] *)

Module SyncServer.

(** [web.json_response(body, status=...)]; the status defaults to 200. *)
Record Response : Type := mkResponse {
  http_status : Z;
  body : PyDict.dict
}.

Definition json_response (b : PyDict.dict) (status : option Z) : Response :=
  mkResponse (match status with Some s => s | None => 200 end) b.

(** What [get_file] hands to the pipeline: an image, or the response it
    builds when the remote fetch does not answer 200. *)
Inductive FileArg : Type :=
| FImage (img : Image)
| FResponse (r : Response).

(** A request: its content type and what [req.json()] / [req.post()]
    gives, which may raise on a malformed body. *)
Record Request : Type := mkRequest {
  content_type : string;
  payload : Res PyDict.dict
}.

(** The option sets of the selectors and the codecs, none of them in the
    sources: the keys of [TRANSLATORS], [DETECTORS], [INPAINTERS], [OCRS],
    the list [VALID_LANGUAGES]; base64 and PIL decoding; the conversions
    marshmallow applies to Integer, Float and Boolean fields; the case
    mapping of [str]. *)
Record Tables : Type := mkTables {
  TRANSLATORS : list string;
  VALID_LANGUAGES : list string;
  DETECTORS : list string;
  INPAINTERS : list string;
  OCRS : list string;
  b64decode : string -> Res string;
  Image_open : string -> Res Image;
  Image_verify : Image -> Res unit;
  as_integer : PyVal -> option PyVal;
  as_float : PyVal -> option PyVal;
  as_boolean : PyVal -> option PyVal;
  unicodedata : PyStr.Unicode      (* the methods of [str] *)
}.

(** The state of a request: the outside world and the calls of the
    pipeline function made so far. *)
Record ApiSt (W : Type) : Type := mkApiSt {
  api_world : W;
  invoked : list (PyDict.dict * FileArg)
}.
Arguments mkApiSt {W}.
Arguments api_world {W}.
Arguments invoked {W}.

Section PostSchema.
Variable tb : Tables.

(** The [validate=] callables of [PostSchema], as written. *)
Definition validate_size (a : string) : bool :=
  negb (PyStr.mem (PyStr.upper (unicodedata tb) a) ["S"; "M"; "L"; "X"]).
Definition validate_translator (a : string) : bool :=
  negb (PyStr.mem (PyStr.lower (unicodedata tb) a) (TRANSLATORS tb)).
Definition validate_target_language (a : string) : bool :=
  negb (PyStr.mem (PyStr.upper (unicodedata tb) a) (VALID_LANGUAGES tb)).
Definition validate_detector (a : string) : bool :=
  negb (PyStr.mem (PyStr.lower (unicodedata tb) a) (DETECTORS tb)).
Definition validate_direction (a : string) : bool :=
  negb (PyStr.mem (PyStr.lower (unicodedata tb) a) ["auto"; "h"; "v"]).
Definition validate_inpainter (a : string) : bool :=
  negb (PyStr.mem (PyStr.lower (unicodedata tb) a) (INPAINTERS tb)).
Definition validate_ocr (a : string) : bool :=
  negb (PyStr.mem (PyStr.lower (unicodedata tb) a) (OCRS tb)).

Inductive Field : Type :=
| Str (validate : string -> bool)
| Integer
| Float
| Boolean
| Raw.

(** The declared fields of [PostSchema]. *)
Definition PostSchema (name : string) : option Field :=
  if String.eqb name "size" then Some (Str validate_size)
  else if String.eqb name "translator" then Some (Str validate_translator)
  else if String.eqb name "target_language"
       then Some (Str validate_target_language)
  else if String.eqb name "detector" then Some (Str validate_detector)
  else if String.eqb name "direction" then Some (Str validate_direction)
  else if String.eqb name "inpainter" then Some (Str validate_inpainter)
  else if String.eqb name "ocr" then Some (Str validate_ocr)
  else if String.eqb name "upscale_ratio" then Some Integer
  else if String.eqb name "text_threshold" then Some Float
  else if String.eqb name "box_threshold" then Some Float
  else if String.eqb name "unclip_ratio" then Some Float
  else if String.eqb name "inpainting_size" then Some Integer
  else if String.eqb name "font_size_offset" then Some Integer
  else if String.eqb name "text_mag_ratio" then Some Integer
  else if String.eqb name "det_rearrange_max_batches" then Some Integer
  else if String.eqb name "manga2eng" then Some Boolean
  else if String.eqb name "base64Images" then Some Raw
  else if String.eqb name "image" then Some Raw
  else if String.eqb name "url" then Some Raw
  else if String.eqb name "fingerprint" then Some Raw
  else if String.eqb name "clientUuid" then Some Raw
  else None.

(** The selector fields: for each, the case normalisation its validator
    applies and the option set it is checked against. *)
Definition selectors : list (string * (string -> string) * list string) :=
  [ ("size", PyStr.upper (unicodedata tb), ["S"; "M"; "L"; "X"]);
    ("translator", PyStr.lower (unicodedata tb), TRANSLATORS tb);
    ("target_language", PyStr.upper (unicodedata tb), VALID_LANGUAGES tb);
    ("detector", PyStr.lower (unicodedata tb), DETECTORS tb);
    ("direction", PyStr.lower (unicodedata tb), ["auto"; "h"; "v"]);
    ("inpainter", PyStr.lower (unicodedata tb), INPAINTERS tb);
    ("ocr", PyStr.lower (unicodedata tb), OCRS tb) ].

(** marshmallow on one field: a [None] value is refused (no field allows
    it), the value is converted to the field's type, and a validator
    that returns [False] raises. *)
Definition deserialize (f : Field) (v : PyVal) : Res PyVal :=
  match v with
  | VNone => Raise (ValidationError "Field may not be null.")
  | _ =>
      match f with
      | Str validate =>
          match v with
          | VStr a =>
              if validate a then Ok v
              else Raise (ValidationError "Invalid value.")
          | _ => Raise (ValidationError "Not a valid string.")
          end
      | Integer =>
          match as_integer tb v with
          | Some z => Ok z
          | None => Raise (ValidationError "Not a valid integer.")
          end
      | Float =>
          match as_float tb v with
          | Some x => Ok x
          | None => Raise (ValidationError "Not a valid number.")
          end
      | Boolean =>
          match as_boolean tb v with
          | Some b => Ok b
          | None => Raise (ValidationError "Not a valid boolean.")
          end
      | Raw => Ok v
      end
  end.

(** [schema.load(d)]: every key must be a declared field and every value
    must deserialize; the result holds the keys that were sent. *)
Fixpoint schema_load (d : PyDict.dict) : Res PyDict.dict :=
  match d with
  | [] => Ok []
  | (name, v) :: rest =>
      match PostSchema name with
      | None => Raise (ValidationError "Unknown field.")
      | Some f =>
          match deserialize f v, schema_load rest with
          | Ok v', Ok data => Ok ((name, v') :: data)
          | Raise e, _ => Raise e
          | _, Raise e => Raise e
          end
      end
  end.

End PostSchema.

Section Api.
Variable W : Type.
Variable tb : Tables.
(** [session.get(url)]: the status and the body of the answer. *)
Variable http_get : string -> Act W (Z * string).
(** [self.params], the defaults [listen] was given. *)
Variable params : PyDict.dict.

Local Abbreviation Api := (M (ApiSt W)).

Definition lift_res {A} (r : Res A) : Api A := fun st => (r, st).

Definition lift_world {A} (act : Act W A) : Api A :=
  fun st =>
    let (r, w') := act (api_world st) in
    (r, mkApiSt w' (invoked st)).

(** Lines 712-728: the bytes to decode, from the first of [image],
    [base64Images], [url] that is not [None]. *)
Definition read_content (image base64Images url : PyVal)
  : Api (string + Response) :=
  match image with
  | VFile content => ret (inl content)
  | VNone =>
      match base64Images with
      | VStr s =>
          let s' :=
            if PyStr.contains "base64," s
            then match PyStr.split_second "base64," s with
                 | Some part => part
                 | None => s
                 end
            else s in
          content <- lift_res (b64decode tb s') ;;
          ret (inl content)
      | VNone =>
          match url with
          | VStr u =>
              '(status, content) <- lift_world (http_get u) ;;
              if status =? 200 then ret (inl content)
              else ret (inr (json_response [("status", VStr "error")] None))
          | VNone => raise (ValidationError "donest exist")
          | _ => raise (PyException "TypeError")
          end
      | _ => raise (PyException "AttributeError")
      end
  | _ => raise (PyException "AttributeError")
  end.

(** Lines 729-735: decode, verify, decode again, check the area. *)
Definition check_image (content : string) : Api Image :=
  img <- lift_res (Image_open tb content) ;;
  lift_res (Image_verify tb img) ;;
  img <- lift_res (Image_open tb content) ;;
  if 8000 ^ 2 <? width img * height img
  then raise (ValidationError "to large")
  else ret img.

Definition get_file (image base64Images url : PyVal) : Api FileArg :=
  got <- read_content image base64Images url ;;
  match got with
  | inr response => ret (FResponse response)
  | inl content =>
      img <- check_image content ;;
      ret (FImage img)
  end.

Definition drop_key (k : string) (data : PyDict.dict) : PyDict.dict :=
  if PyDict.contains k data then PyDict.del k data else data.

(** The pipeline function and the formatter [err_handling] is given. *)
Variable func : PyDict.dict -> FileArg -> Act W Context.
Variable format : Context -> Res Response.

Definition call_func (p : PyDict.dict) (fil : FileArg) : Api Context :=
  fun st =>
    let (r, w') := func p fil (api_world st) in
    (r, mkApiSt w' (invoked st ++ [(p, fil)])).

Definition supported (ct : string) : bool :=
  String.eqb ct "application/json" || String.eqb ct "multipart/form-data".

(** The body of the [try] of [err_handling]. *)
Definition handle (req : Request) : Api Response :=
  if supported (content_type req) then
    d <- lift_res (payload req) ;;
    data <- lift_res (schema_load tb d) ;;
    if PyDict.is_none (PyDict.get "image" data)
       && PyDict.is_none (PyDict.get "base64Images" data)
       && PyDict.is_none (PyDict.get "url" data)
    then
      ret (json_response
             [("error", VStr "Missing input"); ("status", VInt 422)] None)
    else
      fil <- get_file (PyDict.get "image" data)
               (PyDict.get "base64Images" data) (PyDict.get "url" data) ;;
      let data := drop_key "url" (drop_key "base64Images"
                    (drop_key "image" data)) in
      loaded_data <- call_func (PyDict.update params data) fil ;;
      lift_res (format loaded_data)
  else
    ret (json_response
           [("error", VStr ("Wrong content type: " ++ content_type req)%string);
            ("status", VInt 415)] (Some 415)).

(** [err_handling]: the two [except] clauses turn a [ValueError] and a
    [ValidationError] into a 422; anything else leaves the handler. *)
Definition err_handling (req : Request) : Api Response :=
  fun st =>
    match handle req st with
    | (Raise (ValueError _), st') =>
        (Ok (json_response
               [("error", VStr "Wrong input type"); ("status", VInt 422)]
               (Some 422)), st')
    | (Raise (ValidationError _), st') =>
        (Ok (json_response
               [("error", VStr "Input invalid"); ("status", VInt 422)]
               (Some 422)), st')
    | other => other
    end.

End Api.

End SyncServer.

(** ** Sample tables and collaborators for the task adapters *)

Module Samples.

Import SyncServer.

Definition decode (content : string) : Res Image :=
  if String.eqb content "" then Raise (PyException "UnidentifiedImageError")
  else if String.eqb content "huge" then Ok (mkImage 9000 9000 [])
  else Ok (mkImage (Z.of_nat (String.length content)) 1 []).

Definition tables : Tables :=
  {| TRANSLATORS := ["google"; "deepl"; "offline"; "none"];
     VALID_LANGUAGES := ["CHS"; "ENG"; "JPN"];
     DETECTORS := ["default"; "ctd"];
     INPAINTERS := ["lama_mpe"; "none"];
     OCRS := ["32px"; "48px"];
     b64decode := fun s =>
       if String.eqb s "" then Raise (ValueError "binascii.Error") else Ok s;
     Image_open := decode;
     Image_verify := fun _ => Ok tt;
     as_integer := fun v => match v with VInt _ => Some v | _ => None end;
     as_float := fun v =>
       match v with VInt _ | VFloat _ _ => Some v | _ => None end;
     as_boolean := fun v => match v with VBool _ => Some v | _ => None end;
     unicodedata := PyStr.ASCII |}.

Definition http_get (u : string) : Act nat (Z * string) :=
  fun tick => (Ok (200, "remote"), S tick).

Definition defaults : PyDict.dict := [("translator", VStr "google")].

Definition pipeline (p : PyDict.dict) (fil : FileArg) : Act nat Context :=
  fun tick => (Ok (new_context (Script.options 0)), S tick).

Definition format_translate (c : Context) : Res Response :=
  Ok (json_response [("images", VNone)] None).

Definition api (req : Request) : Res Response * ApiSt nat :=
  err_handling nat tables http_get defaults pipeline format_translate req
    (mkApiSt 0%nat []).

Definition multipart (fields : PyDict.dict) : Request :=
  mkRequest "multipart/form-data" (Ok fields).

Definition worker_io : SocketWorker.WorkerIO nat :=
  {| SocketWorker.websocket_send := fun _ tick => (Ok tt, tick);
     SocketWorker.Image_open := fun _ tick => (Ok Script.page, tick);
     SocketWorker.save_png := fun img tick => (Ok "png", tick);
     SocketWorker.save_file := fun _ _ tick => (Ok tt, tick);
     SocketWorker.reset_result_dir := fun _ tick => (Ok tt, tick);
     SocketWorker.preprocess_params := fun _ => Script.options 0 |}.

Definition blank_page_task : SocketWorker.NewTask :=
  SocketWorker.mkNewTask "task-1" "ENG" "default" "auto" "google" "M" "bytes".

End Samples.

(** ** Predicates used to state what the stages keep and never call *)

(** A region the post-OCR filter keeps. *)
Definition kept_after_ocr {W} (svc : Services W) (o : Options)
  (region : TextBlock) : bool :=
  negb (ocr_dropped W svc o (get_text region)).

(** Events other than calls of the stages that follow OCR. *)
Definition not_after_ocr (ev : Event) : bool :=
  match ev with
  | Call (DispatchTranslation _ _) | Call DispatchMaskRefinement
  | Call (DispatchInpainting _) | Call DispatchRendering
  | Call DispatchEngRender | Call DumpImage | Call Resize => false
  | _ => true
  end.

(** Events other than calls of the stages that follow translation. *)
Definition not_after_translation (ev : Event) : bool :=
  match ev with
  | Call DispatchMaskRefinement | Call (DispatchInpainting _)
  | Call DispatchRendering | Call DispatchEngRender
  | Call DumpImage | Call Resize => false
  | _ => true
  end.

Definition not_mask_refinement (ev : Event) : bool :=
  match ev with
  | Call DispatchMaskRefinement => false
  | _ => true
  end.

Definition is_dump (ev : Event) : bool :=
  match ev with
  | Call DumpImage => true
  | _ => false
  end.

Definition is_error_report (ev : Event) : bool :=
  match ev with
  | Progress state true =>
      String.eqb state "error" || String.eqb state "error-lang"
  | _ => false
  end.

(** [st'] comes after [st] in a run that either composed the final image or
    left the result as it was. *)
Definition dumped_or_kept {W} (st st' : St W) : Prop :=
  exists l,
    log st' = log st ++ l
    /\ (existsb is_dump l = true \/ result (ctx st') = result (ctx st)).

(** A computation that changes the result only after [dump_image]. *)
Definition dumps {W A} (m : M (St W) A) : Prop :=
  forall st r st', m st = (r, st') -> dumped_or_kept st st'.

(** ** Predicates used to state what the adapters pass on *)

(** A text without a comma, as the base64 alphabet and the media type of a
    data URI are. *)
Definition no_comma (s : string) : bool :=
  PyStr.all_chars (fun c => negb (Ascii.eqb c ",")) s.

(** What the REST facade may hand to the pipeline as its image: an image
    within the area bound, or the reply built for a failed remote fetch. *)
Definition acceptable (fil : SyncServer.FileArg) : Prop :=
  match fil with
  | SyncServer.FImage img => width img * height img <= 8000 ^ 2
  | SyncServer.FResponse resp =>
      resp = SyncServer.json_response [("status", VStr "error")] None
  end.

(** The ids of the tasks among the frames of a connection. *)
Definition task_ids (frames : list SocketWorker.WebSocketMessage)
  : list string :=
  flat_map (fun msg =>
              match msg with
              | SocketWorker.new_task task => [SocketWorker.id task]
              | _ => []
              end) frames.

(** The task a finish frame answers. *)
Definition answered_task (frame : SocketWorker.WebSocketMessage)
  : option string :=
  match frame with
  | SocketWorker.finish_task task_id _ => Some task_id
  | _ => None
  end.

(** ** The colour legend of [save_text_to_file] (lines 381-397)

    [save_text_to_file] numbers the foreground colours of the regions of a
    page: a colour close to one already met takes its number and name.
    The layout of the text block it appends to the file is not modelled. *)

Module TextFile.

Definition Color : Type := (Z * Z * Z)%type.

(** [cached_colors]: the colours met so far, each with its name. *)
Definition Cache : Type := list (Color * string).

(** The test of the loop: the components differ by less than 50 in all. *)
Definition similar (rgb fg_rgb : Color) : bool :=
  let '(r, g, b) := rgb in
  let '(fr, fg, fb) := fg_rgb in
  Z.abs (r - fr) + Z.abs (g - fg) + Z.abs (b - fb) <? 50.

(** The [for ... else] loop over [cached_colors]: the value of [idx] when
    it ends, and whether it ended by [break]. *)
Fixpoint scan (cached_colors : Cache) (fg_rgb : Color) (idx : nat)
  : nat * bool :=
  match cached_colors with
  | [] => (idx, false)
  | (rgb, _) :: rest =>
      if similar rgb fg_rgb then (idx, true)
      else scan rest fg_rgb (idx + 1)
  end.

Section Legend.
(** [get_color_name], from [utils]: not in the sources. *)
Variable get_color_name : Color -> string.

Definition identify_colors (fg_rgb : Color) : M Cache (nat * string) :=
  fun cached_colors =>
    let '(idx, found) := scan cached_colors fg_rgb 0 in
    let cached_colors :=
      if found then cached_colors
      else cached_colors ++ [(fg_rgb, get_color_name fg_rgb)] in
    match nth_error cached_colors idx with
    | Some (_, name) => (Ok ((idx + 1)%nat, name), cached_colors)
    | None => (Raise (PyException "IndexError"), cached_colors)
    end.

(** The loop over the regions of the page: the colour number and name
    written for each region. *)
Fixpoint color_ids (regions : list TextBlock) : M Cache (list (nat * string)) :=
  match regions with
  | [] => ret []
  | region :: rest =>
      c <- identify_colors (fg_colors region) ;;
      cs <- color_ids rest ;;
      ret (c :: cs)
  end.

(** The legend of a page: [cached_colors] starts empty at each call. *)
Definition legend (regions : list TextBlock)
  : Res (list (nat * string)) * Cache :=
  color_ids regions [].

End Legend.

(** No colour of the cache is close to one cached before it. *)
Fixpoint apart (cached_colors : Cache) : bool :=
  match cached_colors with
  | [] => true
  | (rgb, _) :: rest =>
      forallb (fun entry => negb (similar rgb (fst entry))) rest
      && apart rest
  end.

(** Every colour of the cache is cached under the name [get_color_name]
    gives it. *)
Definition well_named (get_color_name : Color -> string)
  (cached_colors : Cache) : Prop :=
  forall c n, In (c, n) cached_colors -> n = get_color_name c.

End TextFile.

(** ** The progress hook of the polling worker
       ([MangaTranslatorWeb.listen], lines 503-522) *)

Module WebClient.

(** The body posted to [/task-update-internal]. *)
Record TaskUpdate : Type := mkTaskUpdate {
  task_id : option string;
  nonce : string;
  state : string;
  finished : bool
}.

Section Client.
Variable W : Type.
(** [requests.post(url, json=data, timeout=20)]; the answer is not read. *)
Variable requests_post : TaskUpdate -> Act W unit.

(** The [while True] of [sync_state]: [None] when [fuel] posts were not
    enough. *)
Fixpoint sync_state_loop (fuel : nat) (data : TaskUpdate) (w : W)
  : option (Res unit * W) :=
  match fuel with
  | O => None
  | S fuel' =>
      match requests_post data w with
      | (Ok _, w') => Some (Ok tt, w')                         (* break *)
      | (Raise e, w') =>
          if is_Exception e then
            if finished data then sync_state_loop fuel' data w' (* continue *)
            else Some (Ok tt, w')                              (* break *)
          else Some (Raise e, w')
      end
  end.

(** The hook, for the task [_task_id] and the [nonce] of [self]. *)
Definition sync_state (_task_id : option string) (self_nonce : string)
  (fuel : nat) (state : string) (finished : bool) (w : W)
  : option (Res unit * W) :=
  let finished := finished && negb (String.eqb state "finished") in
  sync_state_loop fuel (mkTaskUpdate _task_id self_nonce state finished) w.

End Client.

(** A server that is down until tick [up]: every post before it times out. *)
Definition down_until (up : nat) (data : TaskUpdate) : Act nat unit :=
  fun tick =>
    if (tick <? up)%nat then (Raise (PyException "ConnectionError"), S tick)
    else (Ok tt, S tick).

End WebClient.

(** ** The text collector ([translators/ocrtext.py])

    [OCRTextTranslator._translate] translates nothing: every second call
    it stores the texts of the page in the database file [manga_page.db]
    and it always answers with an empty list. *)

Module OCRText.

(** [str(n)] for an integer *)
Definition str (z : Z) : string := NilZero.string_of_int (Z.to_int z).

(** [s.replace(c, "")] for a one-character [c] *)
Fixpoint remove_char (c : ascii) (s : string) : string :=
  match s with
  | EmptyString => EmptyString
  | String a r =>
      if Ascii.eqb a c then remove_char c r else String a (remove_char c r)
  end.

(** The database, as far as the statements of [_translate] read and write
    it: for each of the two tables, whether it exists and its rows in
    rowid order.  A row of [page_count] is its rowid and its [page], an
    integer; of a row of [manga_page] the [words] are kept ([trans] is
    never written). *)
Record Db : Type := mkDb {
  page_count : option (list (Z * Z));
  manga_page : option (list string)
}.

(** The class attribute [_translate_call_count], the database file and
    what was printed, one entry per [print]. *)
Record Process : Type := mkProcess {
  _translate_call_count : Z;
  db : Db;
  stdout : list string
}.

Definition LF : string := String (ascii_of_nat 10) "".
Definition CRLF : string := String (ascii_of_nat 13) LF.

(** The lines [f"{i + 1}.{text}\r\n"] of the loop over [enumerate(queries)],
    from index [i] on. *)
Fixpoint numbered (i : Z) (queries : list string) : string :=
  match queries with
  | [] => ""
  | text :: rest =>
      (str (i + 1) ++ "." ++ text ++ CRLF ++ numbered (i + 1) rest)%string
  end.

(** Lines 75-82: the text stored for the page. *)
Definition page_text (page : Z) (queries : list string) : string :=
  let atext :=
    ("@Page " ++ str page ++ ", " ++ str (Z.of_nat (List.length queries))
     ++ " sentences in total." ++ LF)%string in
  let atext := (atext ++ numbered 0 queries)%string in
  let atext := (atext ++ "@Page " ++ str page ++ " End")%string in
  let atext := remove_char "[" atext in
  remove_char "]" atext.

(** The full-width colon that ends the heading printed at line 84. *)
Definition fullwidth_colon : string :=
  String (ascii_of_nat 239)
    (String (ascii_of_nat 188) (String (ascii_of_nat 154) "")).

(** [UPDATE page_count SET page=? WHERE rowid=1] *)
Definition update_page (new_page : Z) (rows : list (Z * Z)) : list (Z * Z) :=
  map (fun row => if fst row =? 1 then (fst row, new_page) else row) rows.

Definition _translate (from_lang to_lang : string) (queries : list string)
  : M Process (list string) :=
  fun p =>
    let count := _translate_call_count p + 1 in
    let out := stdout p ++ [str count] in
    if negb (count mod 2 =? 0) then
      let out := out ++ [str count] in
      (* the two tables are created when they are missing *)
      let counts :=
        match page_count (db p) with
        | Some rows => rows
        | None => [(1, 1)]
        end in
      let pages :=
        match manga_page (db p) with
        | Some rows => rows
        | None => []
        end in
      (* SELECT page FROM page_count LIMIT 1 *)
      match counts with
      | [] =>
          (* [result] is [None]: [result[0]] raises *)
          (Raise (PyException "TypeError"),
           mkProcess count (mkDb (Some counts) (Some pages))
             (out ++ ["this is result"]))
      | (_, page) :: _ =>
          let atext := page_text page queries in
          let out :=
            out ++ ["this is result"; str page; "this is page"; str page;
                    ("Overview of the current text" ++ fullwidth_colon)%string;
                    atext; "import database"] in
          let new_page := page + 1 in
          (Ok [],
           mkProcess count
             (mkDb (Some (update_page new_page counts))
                (Some (pages ++ [atext])))
             out)
      end
    else (Ok [], mkProcess count (db p) out).

(** A process that has not called the translator, on a database without
    tables. *)
Definition fresh : Process := mkProcess 0 (mkDb None None) [].

(** The process after one call per batch of queries, whatever each call
    answered. *)
Fixpoint after_calls (batches : list (list string)) (p : Process) : Process :=
  match batches with
  | [] => p
  | queries :: rest => after_calls rest (snd (_translate "" "" queries p))
  end.

(** Neither bracket occurs in [s]. *)
Definition no_bracket (s : string) : bool :=
  PyStr.all_chars
    (fun c => negb (Ascii.eqb c "[") && negb (Ascii.eqb c "]")) s.

(** What a run of calls keeps true once the tables are there: the count of
    calls is not negative, [page_count] has the single row the code
    created, its page is one more than the number of odd-numbered calls
    made, and [manga_page] has one row for each of them. *)
Definition paired (p : Process) : Prop :=
  0 <= _translate_call_count p
  /\ exists pages,
       db p = mkDb (Some [(1, 1 + (_translate_call_count p + 1) / 2)])
                (Some pages)
       /\ Z.of_nat (List.length pages) = (_translate_call_count p + 1) / 2.

End OCRText.

(** ** What every step of a run leaves alone *)

Section Frame.
Variable W : Type.
Variable svc : Services W.
Variable self : Self W.
Variable V : Type.
Variable view : Context -> V.
Variable allowed : Event -> bool.

Local Abbreviation Eng := (M (St W)).

Lemma grows_refl (st : St W) : grows view allowed st st.
Proof.
  split; [ reflexivity | ]. exists []. now rewrite app_nil_r.
Qed.

Lemma grows_trans (st1 st2 st3 : St W) :
  grows view allowed st1 st2 -> grows view allowed st2 st3 -> grows view allowed st1 st3.
Proof.
  intros (Hv & l & Hl & Hal) (Hv' & l' & Hl' & Hal').
  split; [ congruence | ].
  exists (l ++ l'). split.
  - now rewrite Hl', Hl, app_assoc.
  - now rewrite forallb_app, Hal, Hal'.
Qed.

Lemma framed_ret {A} (a : A) : @framed W V view allowed A (ret a).
Proof. intros st r st' H. inversion H; subst. apply grows_refl. Qed.

Lemma framed_raise {A} e : @framed W V view allowed A (raise e).
Proof. intros st r st' H. inversion H; subst. apply grows_refl. Qed.

Lemma framed_bind {A B} (m : Eng A) (k : A -> Eng B) :
  @framed W V view allowed _ m -> (forall a, @framed W V view allowed _ (k a)) -> @framed W V view allowed _ (bind m k).
Proof.
  intros Hm Hk st r st' H. unfold bind in H.
  destruct (m st) as [[a | e] st1] eqn:E.
  - eapply grows_trans; [ eapply Hm; eauto | eapply Hk; eauto ].
  - inversion H; subst. eapply Hm; eauto.
Qed.

Lemma framed_when b (m : Eng unit) : @framed W V view allowed _ m -> @framed W V view allowed _ (when b m).
Proof. intros Hm. destruct b; simpl; [ exact Hm | apply framed_ret ]. Qed.

Lemma framed_emit ev : allowed ev = true -> @framed W V view allowed _ (emit ev).
Proof.
  intros Hev st r st' H. inversion H; subst. split; [ reflexivity | ].
  exists [ev]. simpl. now rewrite Hev.
Qed.

Lemma framed_lift {A} (act : Act W A) : @framed W V view allowed _ (lift act).
Proof.
  intros st r st' H. unfold lift in H.
  destruct (act (world st)) as [r0 w']. inversion H; subst.
  split; [ reflexivity | ]. exists []. now rewrite app_nil_r.
Qed.

Lemma framed_call {A} c (act : Act W A) :
  allowed (Call c) = true -> @framed W V view allowed _ (call c act).
Proof.
  intros Hc. apply framed_bind; [ now apply framed_emit | intros _; apply framed_lift ].
Qed.

Lemma framed_get_ctx : @framed W V view allowed _ get_ctx.
Proof. intros st r st' H. inversion H; subst. apply grows_refl. Qed.

Lemma framed_update_ctx f :
  (forall c, view (f c) = view c) ->
  @framed W V view allowed _ (update_ctx f).
Proof.
  intros Hf st r st' H. inversion H; subst. simpl.
  split; [ apply Hf | ]. exists []. now rewrite app_nil_r.
Qed.

Lemma framed_run_hooks hs state finished : @framed W V view allowed _ (run_hooks hs state finished).
Proof.
  induction hs as [| ph rest IH]; simpl.
  - apply framed_ret.
  - apply framed_bind; [ apply framed_lift | intros _; exact IH ].
Qed.

End Frame.


(** One step of a frame proof, by the shape of the computation. *)
Ltac frame_step :=
  match goal with
  | |- framed _ _ (bind _ _) => apply framed_bind; [ | intros ]
  | |- framed _ _ (ret _) => apply framed_ret
  | |- framed _ _ (raise _) => apply framed_raise
  | |- framed _ _ (when _ _) => apply framed_when
  | |- framed _ _ (emit _) => apply framed_emit; reflexivity
  | |- framed _ _ (lift _) => apply framed_lift
  | |- framed _ _ (call _ _) => apply framed_call; reflexivity
  | |- framed _ _ get_ctx => apply framed_get_ctx
  | |- framed _ _ (update_ctx _) =>
      apply framed_update_ctx; intros; reflexivity
  | |- framed _ _ (run_hooks _ _ _) => apply framed_run_hooks
  | |- framed _ _ (if ?b then _ else _) => destruct b
  | |- framed _ _ (match ?x with _ => _ end) => destruct x
  end.

Section PipelineFrames.
Variable W : Type.
Variable svc : Services W.
Variable self : Self W.

(** The messages of the logger hook never read [Loading models]. *)
Lemma LOG_MESSAGES_not_start state msg :
  LOG_MESSAGES state = Some msg -> String.eqb msg "Loading models" = false.
Proof.
  unfold LOG_MESSAGES.
  repeat match goal with
         | |- (if ?b then _ else _) = _ -> _ => destruct b
         end;
    intros H; inversion H; reflexivity.
Qed.

Lemma report_progress_quiet state finished :
  framed config not_attempt_start (_report_progress W self state finished).
Proof.
  unfold _report_progress.
  frame_step; [ frame_step | ].
  frame_step; [ | frame_step ].
  unfold logger_hook.
  destruct (LOG_MESSAGES state) as [msg |] eqn:E.
  - apply framed_emit. unfold not_attempt_start. simpl.
    now rewrite (LOG_MESSAGES_not_start _ _ E).
  - repeat frame_step.
Qed.

Lemma report_progress_no_stage state finished :
  framed settled not_stage_call (_report_progress W self state finished).
Proof.
  unfold _report_progress, logger_hook. repeat frame_step.
Qed.

End PipelineFrames.

Create HintDb frames.
#[export] Hint Resolve report_progress_quiet report_progress_no_stage : frames.

Ltac frame := repeat first [ solve [ auto with frames ] | frame_step ].

Section StageFrames.
Variable W : Type.
Variable svc : Services W.
Variable self : Self W.

Lemma filter_by_text_framed {V} (view : Context -> V) allowed o regions :
  (forall text, allowed (LogFiltered text) = true) ->
  framed view allowed (filter_by_text W svc o regions).
Proof.
  intros Hf. induction regions as [| region rest IH]; simpl.
  - apply framed_ret.
  - destruct (ocr_dropped W svc o (get_text region)).
    + apply framed_bind; [ | intros; exact IH ].
      apply framed_when. now apply framed_emit.
    + apply framed_bind; [ exact IH | intros; apply framed_ret ].
Qed.

Lemma filter_by_translation_framed {V} (view : Context -> V) allowed o regions :
  (forall text, allowed (LogFiltered text) = true) ->
  framed view allowed (filter_by_translation W svc o regions).
Proof.
  intros Hf. induction regions as [| region rest IH]; simpl.
  - apply framed_ret.
  - destruct (translation region) as [t |]; [ | apply framed_raise ].
    destruct (translation_dropped W svc o t).
    + apply framed_bind; [ | intros; exact IH ].
      apply framed_when. now apply framed_emit.
    + apply framed_bind; [ exact IH | intros; apply framed_ret ].
Qed.

Lemma run_ocr_quiet : framed config not_attempt_start (_run_ocr W svc self).
Proof.
  unfold _run_ocr. frame. now apply filter_by_text_framed.
Qed.

Lemma run_text_translation_quiet :
  framed config not_attempt_start (_run_text_translation W svc self).
Proof.
  unfold _run_text_translation, regions_of. frame.
  now apply filter_by_translation_framed.
Qed.

Lemma run_text_rendering_quiet :
  framed config not_attempt_start (_run_text_rendering W svc self).
Proof.
  unfold _run_text_rendering, ws_run_text_rendering, base_run_text_rendering.
  frame.
Qed.

Hint Resolve run_ocr_quiet run_text_translation_quiet
  run_text_rendering_quiet : frames.

Lemma translate_detect_quiet :
  framed config not_attempt_start (_translate_detect W svc self).
Proof.
  unfold _translate_detect, _run_upscaling, _run_detection. frame.
Qed.

Lemma translate_detect_no_stage :
  framed settled not_stage_call (_translate_detect W svc self).
Proof.
  unfold _translate_detect, _run_upscaling, _run_detection. frame.
Qed.

Lemma translate_render_quiet :
  framed config not_attempt_start (_translate_render W svc self).
Proof.
  unfold _translate_render, _run_mask_refinement, _run_inpainting. frame.
Qed.

Hint Resolve translate_detect_quiet translate_render_quiet : frames.

Lemma translate_regions_quiet :
  framed config not_attempt_start (_translate_regions W svc self).
Proof.
  unfold _translate_regions. frame.
Qed.

Lemma translate_quiet : framed config not_attempt_start (_translate W svc self).
Proof.
  unfold _translate. frame. apply translate_regions_quiet.
Qed.

Lemma prepare_models_unfold :
  prepare_models W svc self = (emit (LogInfo "Loading models") ;; prepare_calls W svc self).
Proof. reflexivity. Qed.

Lemma prepare_calls_quiet : framed config not_attempt_start (prepare_calls W svc self).
Proof. unfold prepare_calls. frame. Qed.

Lemma prepare_calls_no_stage : framed settled not_stage_call (prepare_calls W svc self).
Proof. unfold prepare_calls. frame. Qed.

Lemma retry_message_quiet a :
  framed config not_attempt_start (retry_message W a).
Proof. unfold retry_message. frame. Qed.

Lemma retry_message_no_stage a :
  framed settled not_stage_call (retry_message W a).
Proof. unfold retry_message. frame. Qed.

End StageFrames.

(** ** Counting attempts *)

Lemma bind_inv {S A B} (m : M S A) (k : A -> M S B) s r s' :
  bind m k s = (r, s') ->
  (exists a s1, m s = (Ok a, s1) /\ k a s1 = (r, s')) \/
  (exists e, m s = (Raise e, s') /\ r = Raise e).
Proof.
  unfold bind. destruct (m s) as [[a | e] s1]; intros H.
  - left. eauto.
  - right. inversion H; subst. eauto.
Qed.

Lemma attempts_in_app l1 l2 :
  attempts_in (l1 ++ l2) = (attempts_in l1 + attempts_in l2)%nat.
Proof.
  unfold attempts_in. now rewrite filter_app, length_app.
Qed.

Lemma attempts_in_quiet l :
  forallb not_attempt_start l = true -> attempts_in l = 0%nat.
Proof.
  unfold attempts_in, not_attempt_start.
  induction l as [| ev l IH]; simpl; [ reflexivity | ].
  intros H. apply andb_true_iff in H as [Hev Hl].
  destruct (is_attempt_start ev); [ discriminate | auto ].
Qed.

Lemma grows_counts {W} (st st' : St W) :
  grows config not_attempt_start st st' -> counts 0 st st'.
Proof.
  intros (Hv & l & Hl & Hq). inversion Hv as [[Hi Ho]].
  repeat split; auto.
  rewrite Hl, attempts_in_app, (attempts_in_quiet _ Hq). lia.
Qed.

Lemma counts_trans {W} n k (st1 st2 st3 : St W) :
  counts n st1 st2 -> counts k st2 st3 -> counts (n + k) st1 st3.
Proof.
  intros (Hi & Ho & Hn) (Hi' & Ho' & Hk). repeat split; try congruence.
  rewrite Hk, Hn. lia.
Qed.

Section RetryLoop.
Variable W : Type.
Variable svc : Services W.
Variable self : Self W.

Local Abbreviation attempt_at a :=
  (retry_message W a ;; attempt W svc self).

(** An attempt logs [Loading models] once, whatever its outcome. *)
Lemma attempt_counts a st r st1 :
  attempt_at a st = (r, st1) -> counts 1 st st1.
Proof.
  intros H.
  apply bind_inv in H as [(u & st0 & Hmsg & H) | (e & Hmsg & _)].
  2:{ unfold retry_message, get_ctx, bind, when in Hmsg.
      destruct (0 <? a); inversion Hmsg. }
  apply retry_message_quiet, grows_counts in Hmsg.
  change 1%nat with (0 + 1)%nat. eapply counts_trans; [ exact Hmsg | ].
  unfold attempt in H. rewrite prepare_models_unfold in H.
  assert (Hrest : framed config not_attempt_start
                    (prepare_calls W svc self ;; _translate W svc self)).
  { apply framed_bind; [ apply prepare_calls_quiet | intros; apply translate_quiet ]. }
  unfold bind at 1 2 in H. simpl in H.
  set (st0' := mkSt (world st0) (ctx st0) (log st0 ++ [LogInfo "Loading models"])) in H.
  assert (Hst0 : counts 1 st0 st0').
  { repeat split. simpl. rewrite attempts_in_app. reflexivity. }
  change 1%nat with (1 + 0)%nat. eapply counts_trans; [ exact Hst0 | ].
  apply grows_counts.
  destruct (prepare_calls W svc self st0') as [[u1 | e1] st2] eqn:E.
  - eapply grows_trans.
    + eapply prepare_calls_quiet; eauto.
    + eapply translate_quiet; eauto.
  - inversion H; subst. eapply prepare_calls_quiet; eauto.
Qed.

(** One iteration starts exactly one attempt and leaves input and options. *)
Lemma retry_step_counts a st :
  match retry_step W svc self a st with
  | Return _ st' => counts 1 st st'
  | Again st' => counts 1 st st'
  end.
Proof.
  unfold retry_step.
  destruct (attempt_at a st) as [[u | e] st1] eqn:E;
    pose proof (attempt_counts _ _ _ _ E) as H1; [ exact H1 | ].
  destruct (is_TranslationInterrupt e); [ exact H1 | ].
  destruct (negb (is_Exception e)); [ exact H1 | ].
  destruct (_report_progress W self _ true st1) as [[u | e'] st2] eqn:E2;
    apply report_progress_quiet, grows_counts in E2;
    pose proof (counts_trans _ _ _ _ _ H1 E2) as H2; simpl in H2;
    [ | exact H2 ].
  destruct (negb (ignore_errors self) && negb (budget_left (ctx st2) a));
    [ exact H2 | ].
  destruct H2 as (Hi & Ho & Hn). repeat split; auto. simpl.
  rewrite attempts_in_app, Hn.
  change (attempts_in [LogError e]) with 0%nat. lia.
Qed.

(** The number of attempts a run that ended has started. *)
Lemma translate_loop_attempts fuel : forall a st res st',
  0 <= a ->
  0 <= retries (opts (ctx st)) ->
  translate_loop W svc self fuel a st = Some (res, st') ->
  Z.of_nat (attempts_in (log st')) - Z.of_nat (attempts_in (log st))
    <= Z.max 0 (retries (opts (ctx st)) + 1 - a).
Proof.
  induction fuel as [| fuel IH]; intros a st res st' Ha Hr H; simpl in H.
  - destruct (loop_cond (ctx st) a); [ discriminate | ].
    inversion H; subst. lia.
  - destruct (loop_cond (ctx st) a) eqn:Hc.
    2:{ inversion H; subst. lia. }
    unfold loop_cond in Hc.
    apply orb_true_iff in Hc as [Hc | Hc]; [ apply Z.eqb_eq in Hc; lia | ].
    apply Z.ltb_lt in Hc.
    pose proof (retry_step_counts a st) as Hs.
    destruct (retry_step W svc self a st) as [r st1 | st1].
    + inversion H; subst. destruct Hs as (_ & _ & Hn). lia.
    + destruct Hs as (_ & Ho & Hn).
      specialize (IH (a + 1) st1 res st').
      rewrite Ho in IH. specialize (IH ltac:(lia) Hr H). lia.
Qed.

(** With a retry count [r >= 0] the loop ends within [r + 1] iterations. *)
Lemma translate_loop_terminates fuel : forall a st,
  0 <= a ->
  0 <= retries (opts (ctx st)) ->
  retries (opts (ctx st)) + 1 - a <= Z.of_nat fuel ->
  translate_loop W svc self fuel a st <> None.
Proof.
  induction fuel as [| fuel IH]; intros a st Ha Hr Hf; simpl.
  - destruct (loop_cond (ctx st) a) eqn:Hc; [ | discriminate ].
    unfold loop_cond in Hc.
    apply orb_true_iff in Hc as [Hc | Hc];
      [ apply Z.eqb_eq in Hc | apply Z.ltb_lt in Hc ]; lia.
  - destruct (loop_cond (ctx st) a) eqn:Hc; [ | discriminate ].
    pose proof (retry_step_counts a st) as Hs.
    destruct (retry_step W svc self a st) as [r st1 | st1]; [ discriminate | ].
    destruct Hs as (_ & Ho & _).
    apply IH; rewrite ?Ho; lia.
Qed.

End RetryLoop.


(** ** The Context is touched by the stages only *)

Section ContextKept.
Variable W : Type.
Variable self : Self W.

Lemma run_hooks_ctx hs state finished : forall (st : St W) r st',
  run_hooks hs state finished st = (r, st') -> ctx st' = ctx st.
Proof.
  induction hs as [| ph rest IH]; simpl; intros st r st' H.
  - inversion H; subst. reflexivity.
  - apply bind_inv in H as [(u & s1 & Hph & H) | (e & Hph & _)];
      unfold lift in Hph; destruct (ph state finished (world st));
      inversion Hph; subst.
    + now rewrite (IH _ _ _ H).
    + reflexivity.
Qed.

Lemma logger_hook_ctx state finished (st : St W) r st' :
  logger_hook W state finished st = (r, st') -> ctx st' = ctx st.
Proof.
  unfold logger_hook.
  destruct (LOG_MESSAGES state); [ | destruct (LOG_MESSAGES_SKIP state);
    [ | destruct (LOG_MESSAGES_ERROR state) ] ];
    intros H; inversion H; subst; reflexivity.
Qed.

(** Hooks receive the state name and the terminal flag, not the Context. *)
Lemma report_progress_ctx state finished (st : St W) r st' :
  _report_progress W self state finished st = (r, st') -> ctx st' = ctx st.
Proof.
  unfold _report_progress. intros H.
  apply bind_inv in H as [(u & s1 & He & H) | (e & He & _)];
    inversion He; subst.
  apply bind_inv in H as [(u' & s2 & Hl & H) | (e & Hl & _)];
    apply logger_hook_ctx in Hl; simpl in Hl.
  - apply run_hooks_ctx in H. congruence.
  - assumption.
Qed.

Lemma retry_message_ctx a (st : St W) r st' :
  retry_message W a st = (r, st') -> r = Ok tt /\ ctx st' = ctx st.
Proof.
  unfold retry_message, bind, get_ctx, when, emit, ret.
  destruct (0 <? a); intros H; inversion H; subst; auto.
Qed.

End ContextKept.

(** ** A hook that raises ends the broadcast *)

Section Hooks.
Variable W : Type.
Variable self : Self W.

Lemma run_hooks_app pre post state finished (st : St W) :
  run_hooks (pre ++ post) state finished st
  = match run_hooks pre state finished st with
    | (Ok _, st1) => run_hooks post state finished st1
    | (Raise e, st1) => (Raise e, st1)
    end.
Proof.
  revert st. induction pre as [| ph rest IH]; intros st; simpl.
  - reflexivity.
  - unfold bind. destruct (lift (ph state finished) st) as [[u | e] s1].
    + apply IH.
    + reflexivity.
Qed.

(** The hooks registered after the one that raises are not called, and the
    exception leaves [_report_progress]. *)
Lemma report_progress_hook_raises pre ph post state finished
  (st s0 st1 : St W) e w' :
  _progress_hooks self = pre ++ ph :: post ->
  (emit (Progress state finished) ;; logger_hook W state finished) st
    = (Ok tt, s0) ->
  run_hooks pre state finished s0 = (Ok tt, st1) ->
  ph state finished (world st1) = (Raise e, w') ->
  _report_progress W self state finished st
  = (Raise e, mkSt w' (ctx st1) (log st1)).
Proof.
  intros Hhooks Hfront Hpre Hph.
  unfold _report_progress. rewrite Hhooks.
  apply bind_inv in Hfront as [(u & sa & He & Hl) | (e0 & _ & Habs)];
    [ | discriminate ].
  unfold bind at 1. rewrite He. unfold bind at 1. rewrite Hl.
  rewrite run_hooks_app, Hpre. simpl.
  unfold bind, lift. now rewrite Hph.
Qed.

End Hooks.

(** ** The retry loop, one iteration at a time *)

Section RetryPolicy.
Variable W : Type.
Variable svc : Services W.
Variable self : Self W.

Local Abbreviation attempt_at a :=
  (retry_message W a ;; attempt W svc self).

(** An interruption ends the loop at once, at any attempt. *)
Lemma interrupt_never_retries fuel a st st1 :
  loop_cond (ctx st) a = true ->
  attempt_at a st = (Raise TranslationInterrupt, st1) ->
  translate_loop W svc self (S fuel) a st = Some (Ok tt, st1).
Proof.
  intros Hc H. simpl. rewrite Hc. unfold retry_step. now rewrite H.
Qed.

(** What the handler does with an ordinary exception whose report was
    delivered to every hook. *)
Lemma failed_attempt_step a st e st1 st2 :
  attempt_at a st = (Raise e, st1) ->
  is_TranslationInterrupt e = false ->
  is_Exception e = true ->
  _report_progress W self (error_state e) true st1 = (Ok tt, st2) ->
  retry_step W svc self a st =
    if negb (ignore_errors self) && negb (budget_left (ctx st) a)
    then Return (Raise e) st2
    else Again (mkSt (world st2) (ctx st2) (log st2 ++ [LogError e])).
Proof.
  intros H Hi He Hr. unfold retry_step. rewrite H, Hi, He. simpl.
  fold (error_state e). rewrite Hr.
  apply attempt_counts in H as (_ & Ho & _).
  apply report_progress_quiet, grows_counts in Hr as (_ & Ho' & _).
  unfold budget_left. now rewrite Ho', Ho.
Qed.

(** A failure inside the preparation calls is a failure of the attempt. *)
Lemma prepare_failure_fails_attempt a st st0 e st1 :
  retry_message W a st = (Ok tt, st0) ->
  prepare_models W svc self st0 = (Raise e, st1) ->
  attempt_at a st = (Raise e, st1).
Proof.
  intros Hm Hp. unfold bind at 1. rewrite Hm.
  unfold attempt, bind. now rewrite Hp.
Qed.

End RetryPolicy.

(** ** The retry loop: budget, interruption, preparation failures *)

Section RetryClaims.
Variable W : Type.
Variable svc : Services W.
Variable self : Self W.

Local Abbreviation attempt_at a :=
  (retry_message W a ;; attempt W svc self).

(** C2.  With a retry count [r >= 0] a run that ends, by returning the
    Context or by raising, has started at most [r + 1] attempts, and
    [r + 1] iterations are enough for it to end.  With the sentinel
    [r = -1] there is no bound: an attempt that fails with an ordinary
    exception, once reported to the hooks, is followed by another attempt
    whatever the number [a] of attempts already made. *)
Theorem retry_budget :
  (forall fuel st res st',
      0 <= retries (opts (ctx st)) ->
      translate_loop W svc self fuel 0 st = Some (res, st') ->
      Z.of_nat (attempts_in (log st')) - Z.of_nat (attempts_in (log st))
        <= retries (opts (ctx st)) + 1)
  /\ (forall fuel st,
         0 <= retries (opts (ctx st)) ->
         retries (opts (ctx st)) + 1 <= Z.of_nat fuel ->
         exists res st', translate_loop W svc self fuel 0 st = Some (res, st'))
  /\ (forall fuel a st e st1 st2,
         retries (opts (ctx st)) = -1 ->
         attempt_at a st = (Raise e, st1) ->
         is_TranslationInterrupt e = false ->
         is_Exception e = true ->
         _report_progress W self (error_state e) true st1 = (Ok tt, st2) ->
         translate_loop W svc self (S fuel) a st =
           translate_loop W svc self fuel (a + 1)
             (mkSt (world st2) (ctx st2) (log st2 ++ [LogError e]))).
Proof.
  split; [ | split ].
  - intros fuel st res st' Hr H.
    pose proof (translate_loop_attempts W svc self fuel 0 st res st'
                  ltac:(lia) Hr H). lia.
  - intros fuel st Hr Hf.
    pose proof (translate_loop_terminates W svc self fuel 0 st
                  ltac:(lia) Hr ltac:(lia)) as Hn.
    destruct (translate_loop W svc self fuel 0 st) as [[res st'] |];
      [ eauto | contradiction ].
  - intros fuel a st e st1 st2 Hr H Hi He Hrep. simpl.
    unfold loop_cond. rewrite Hr. simpl.
    rewrite (failed_attempt_step W svc self a st e st1 st2 H Hi He Hrep).
    unfold budget_left. rewrite Hr. simpl.
    now rewrite andb_false_r.
Qed.

(** C3 (amended).  When the interruption signal is raised at a progress
    report made by an attempt, inside the [try], the loop ends there: that
    attempt is the last one, nothing is reported, logged or retried after
    it, no exception reaches the caller, and the state returned is the
    state at the point of the interruption.  The attempts made before it
    stay counted: only when the signal comes in the first attempt does
    [translate] return after exactly one.  When it is raised while the
    handler reports the error of a failed attempt, outside the [try], it
    is not caught: [translate] raises it to the caller. *)
Theorem interrupt_returns_partial_context :
  (forall fuel a st st1,
      loop_cond (ctx st) a = true ->
      attempt_at a st = (Raise TranslationInterrupt, st1) ->
      translate_loop W svc self (S fuel) a st = Some (Ok tt, st1)
      /\ attempts_in (log st1) = (attempts_in (log st) + 1)%nat)
  /\ (forall fuel image o w st1,
         -1 <= retries o ->
         attempt W svc self (mkSt w (initial_context image o) [])
           = (Raise TranslationInterrupt, st1) ->
         translate W svc self (S fuel) image o w = Some (Ok tt, st1)
         /\ attempts_in (log st1) = 1%nat
         /\ input (ctx st1) = Some image
         /\ opts (ctx st1) = o)
  /\ (forall fuel a st e st1 st2,
         loop_cond (ctx st) a = true ->
         attempt_at a st = (Raise e, st1) ->
         is_TranslationInterrupt e = false ->
         is_Exception e = true ->
         _report_progress W self (error_state e) true st1
           = (Raise TranslationInterrupt, st2) ->
         translate_loop W svc self (S fuel) a st
           = Some (Raise TranslationInterrupt, st2)).
Proof.
  split; [ | split ].
  3: { intros fuel a st e st1 st2 Hc H Hi He Hrep. simpl. rewrite Hc.
       unfold retry_step. rewrite H, Hi, He. simpl.
       fold (error_state e). now rewrite Hrep. }
  - intros fuel a st st1 Hc H. split.
    + now apply interrupt_never_retries.
    + now apply attempt_counts in H as (_ & _ & Hn).
  - intros fuel image o w st1 Hr H.
    set (st := mkSt w (initial_context image o) []).
    assert (Hat : attempt_at 0 st = (Raise TranslationInterrupt, st1)).
    { unfold bind at 1. unfold retry_message, bind, get_ctx. simpl. exact H. }
    split.
    + apply interrupt_never_retries; [ | exact Hat ].
      unfold loop_cond. simpl.
      destruct (Z.eqb_spec (retries o) (-1)); simpl; [ reflexivity | ].
      apply Z.ltb_lt. lia.
    + apply attempt_counts in Hat as (Hi & Ho & Hn). simpl in *. auto.
Qed.

(** C5 (amended).  An exception raised by a preparation call is handled
    like the failure of a stage: the error is reported to the hooks, and
    the exception reaches the caller only when ignore-errors is unset and
    no attempt is left; otherwise it is logged and the loop goes on with
    the next attempt. *)
Theorem prepare_failure_follows_retry_policy fuel a st st0 e st1 st2 :
  loop_cond (ctx st) a = true ->
  retry_message W a st = (Ok tt, st0) ->
  prepare_models W svc self st0 = (Raise e, st1) ->
  is_TranslationInterrupt e = false ->
  is_Exception e = true ->
  _report_progress W self (error_state e) true st1 = (Ok tt, st2) ->
  translate_loop W svc self (S fuel) a st =
    if negb (ignore_errors self) && negb (budget_left (ctx st) a)
    then Some (Raise e, st2)
    else translate_loop W svc self fuel (a + 1)
           (mkSt (world st2) (ctx st2) (log st2 ++ [LogError e])).
Proof.
  intros Hc Hm Hp Hi He Hrep. simpl. rewrite Hc.
  rewrite (failed_attempt_step W svc self a st e st1 st2
             (prepare_failure_fails_attempt W svc self a st st0 e st1 Hm Hp)
             Hi He Hrep).
  now destruct (negb (ignore_errors self) && negb (budget_left (ctx st) a)).
Qed.

(** C1 (amended).  A retry starts the stage sequence again on the same
    Context object: its input image and its options are those of the
    call, and every other attribute is as the failed attempt left it when
    it raised; nothing is reset before the next attempt. *)
Theorem retry_reuses_context a st st' :
  retry_step W svc self a st = Again st' ->
  input (ctx st') = input (ctx st)
  /\ opts (ctx st') = opts (ctx st)
  /\ (exists e st1, attempt_at a st = (Raise e, st1) /\ ctx st' = ctx st1)
  /\ (forall fuel, loop_cond (ctx st) a = true ->
        translate_loop W svc self (S fuel) a st
        = translate_loop W svc self fuel (a + 1) st').
Proof.
  intros H.
  pose proof (retry_step_counts W svc self a st) as Hs. rewrite H in Hs.
  destruct Hs as (Hi & Ho & _).
  repeat split; auto.
  - unfold retry_step in H.
    destruct (attempt_at a st) as [[u | e] st1] eqn:E; [ discriminate | ].
    destruct (is_TranslationInterrupt e); [ discriminate | ].
    destruct (negb (is_Exception e)); [ discriminate | ].
    destruct (_report_progress W self (error_state e) true st1)
      as [[u | e'] st2] eqn:E2; [ | discriminate ].
    destruct (negb (ignore_errors self) && negb (budget_left (ctx st2) a));
      [ discriminate | ].
    inversion H; subst. simpl.
    exists e, st1. split; [ reflexivity | ].
    eapply report_progress_ctx; eauto.
  - intros fuel Hc. simpl. now rewrite Hc, H.
Qed.

End RetryClaims.

Import Script.

Lemma retry_budget_witness :
  let sc := mkScenario (fault_always "detection" (PyException "RuntimeError"))
              [] echo in
  let st := mkSt 0%nat (initial_context page (options 2)) [] in
  exists res st',
    translate_loop nat (services sc) (engine false []) 5 0 st = Some (res, st')
    /\ Z.of_nat (attempts_in (log st')) - Z.of_nat (attempts_in (log st))
       <= 2 + 1.
Proof.
  intros sc st.
  destruct (proj1 (proj2 (retry_budget nat (services sc) (engine false [])))
              5%nat st) as (res & st' & H); [ simpl; lia | simpl; lia | ].
  exists res, st'. split; [ exact H | ].
  apply (proj1 (retry_budget nat (services sc) (engine false []))
           5%nat st res st'); [ simpl; lia | exact H ].
Defined.

Lemma interrupt_returns_partial_context_witness :
  let sc := mkScenario no_fault [region "hello world"] echo in
  exists st1,
    translate nat (services sc) (engine false [interrupt_at "translating"])
      1 page (options 3) 0%nat = Some (Ok tt, st1)
    /\ attempts_in (log st1) = 1%nat
    /\ text_regions (ctx st1) = Some [region "hello world"]
    /\ result (ctx st1) = None.
Proof.
  intros sc.
  edestruct (proj1 (proj2 (interrupt_returns_partial_context nat
                             (services sc)
                             (engine false [interrupt_at "translating"])))
               0%nat page (options 3) 0%nat) as (H1 & H2 & _).
  - simpl. lia.
  - vm_compute. reflexivity.
  - eexists. split; [ exact H1 | ]. split; [ exact H2 | ].
    split; reflexivity.
Defined.

(** C3, as stated, fails.  With one retry allowed and a detector that
    fails once, a hook that always raises the signal at stage "ocr" ends
    the run in its second attempt: two attempts were made and the failure
    of the first went through the error report and the retry.  And a hook
    that raises the signal at the "error" report makes [translate] raise
    it to the caller, even with ignore-errors set. *)
Lemma interrupting_hook_after_failed_attempt :
  let failing_once :=
    mkScenario (fault_at "detection" 5 (PyException "RuntimeError"))
      [region "hello world"] echo in
  let failing :=
    mkScenario (fault_always "detection" (PyException "RuntimeError"))
      [] echo in
  (exists st',
      translate nat (services failing_once)
        (engine false [interrupt_at "ocr"]) 3 page (options 1) 0%nat
      = Some (Ok tt, st')
      /\ attempts_in (log st') = 2%nat
      /\ In (Progress "error" true) (log st')
      /\ In (LogError (PyException "RuntimeError")) (log st'))
  /\ (exists st',
         translate nat (services failing)
           (engine true [interrupt_on "error"]) 1 page (options 0) 0%nat
         = Some (Raise TranslationInterrupt, st')).
Proof.
  intros failing_once failing. split.
  - eexists. split; [ vm_compute; reflexivity | ].
    split; [ vm_compute; reflexivity | ].
    split; simpl; tauto.
  - eexists. vm_compute. reflexivity.
Defined.

(** C5, as stated, fails: with one retry allowed, a detector whose first
    preparation call raises is prepared again by a second attempt, which
    succeeds, and the caller never sees the exception; with ignore-errors
    set and no retry, the exception is swallowed. *)
Lemma prepare_failure_is_retried :
  let sc := mkScenario
              (fault_at "prepare_detection" 0 (PyException "OSError")) [] echo in
  let st := mkSt 0%nat (initial_context page (options 1)) [] in
  (exists st1, prepare_models nat (services sc) (engine false []) st
               = (Raise (PyException "OSError"), st1))
  /\ (exists st', translate nat (services sc) (engine false []) 3 page
                    (options 1) 0%nat = Some (Ok tt, st')
                  /\ attempts_in (log st') = 2%nat)
  /\ (exists st', translate nat (services sc) (engine true []) 3 page
                    (options 0) 0%nat = Some (Ok tt, st')).
Proof.
  intros sc st. split; [ | split ].
  - eexists. vm_compute. reflexivity.
  - eexists. split; vm_compute; reflexivity.
  - eexists. vm_compute. reflexivity.
Defined.

Lemma prepare_failure_follows_retry_policy_witness :
  let sc := mkScenario
              (fault_at "prepare_detection" 0 (PyException "OSError")) [] echo in
  let st := mkSt 0%nat (initial_context page (options 0)) [] in
  exists st2,
    translate_loop nat (services sc) (engine false []) 1 0 st
    = Some (Raise (PyException "OSError"), st2).
Proof.
  intros sc st. eexists.
  erewrite (prepare_failure_follows_retry_policy nat (services sc)
              (engine false []) 0%nat 0 st st (PyException "OSError")).
  - reflexivity.
  - reflexivity.
  - reflexivity.
  - vm_compute. reflexivity.
  - reflexivity.
  - reflexivity.
  - vm_compute. reflexivity.
Defined.

(** C1, as stated, fails: after an attempt whose OCR call raised, the next
    attempt starts on a Context that still carries the regions, the masks
    and the decoded image of the failed one, where a fresh Context has
    none. *)
Lemma failed_attempt_state_is_visible :
  let sc := mkScenario (fault_at "ocr" 6 (PyException "RuntimeError"))
              [region "hello world"] echo in
  let st := mkSt 0%nat (initial_context page (options 1)) [] in
  exists st',
    retry_step nat (services sc) (engine false []) 0 st = Again st'
    /\ text_regions (ctx st') = Some [region "hello world"]
    /\ mask_raw (ctx st') = Some [255]
    /\ upscaled (ctx st') = Some page
    /\ text_regions (initial_context page (options 1)) = None
    /\ ctx st' <> initial_context page (options 1).
Proof.
  intros sc st. eexists. split; [ vm_compute; reflexivity | ].
  repeat split. simpl. discriminate.
Defined.

Lemma retry_reuses_context_witness :
  let sc := mkScenario (fault_at "ocr" 6 (PyException "RuntimeError"))
              [region "hello world"] echo in
  let st := mkSt 0%nat (initial_context page (options 1)) [] in
  exists st',
    retry_step nat (services sc) (engine false []) 0 st = Again st'
    /\ input (ctx st') = Some page
    /\ opts (ctx st') = options 1.
Proof.
  intros sc st. eexists. split; [ vm_compute; reflexivity | ].
  edestruct (retry_reuses_context nat (services sc) (engine false []) 0 st)
    as (Hi & Ho & _).
  - vm_compute. reflexivity.
  - split; [ exact Hi | exact Ho ].
Defined.

(** ** Early termination when detection finds nothing *)

Section NoRegions.
Variable W : Type.
Variable svc : Services W.
Variable self : Self W.

Lemma run_hooks_log hs state finished : forall (st : St W) r st',
  run_hooks hs state finished st = (r, st') -> log st' = log st.
Proof.
  induction hs as [| ph rest IH]; simpl; intros st r st' H.
  - inversion H; subst. reflexivity.
  - apply bind_inv in H as [(u & s1 & Hph & H) | (e & Hph & _)];
      unfold lift in Hph; destruct (ph state finished (world st));
      inversion Hph; subst.
    + now rewrite (IH _ _ _ H).
    + reflexivity.
Qed.

Lemma prepare_models_no_stage :
  framed settled not_stage_call (prepare_models W svc self).
Proof.
  unfold prepare_models. frame. apply prepare_calls_no_stage.
Qed.

(** What the terminal report of an empty detection adds to the log. *)
Lemma skip_no_regions_log (st : St W) r st' :
  _report_progress W self "skip-no-regions" true st = (r, st') ->
  log st' = log st ++ [Progress "skip-no-regions" true;
                       LogWarn "No text regions! - Skipping"].
Proof.
  unfold _report_progress, bind, emit, logger_hook. simpl.
  intros H. apply run_hooks_log in H. simpl in H.
  now rewrite H, <- app_assoc.
Qed.

(** Detection leaves a list of regions on the Context. *)
Lemma translate_detect_sets_regions (st0 st1 : St W) :
  _translate_detect W svc self st0 = (Ok tt, st1) ->
  exists regions, text_regions (ctx st1) = Some regions.
Proof.
  unfold _translate_detect. intros H.
  apply bind_inv in H as [(c & s1 & _ & H) | (e & _ & Hr)]; [ | discriminate ].
  apply bind_inv in H as [(u & s2 & _ & H) | (e & _ & Hr)]; [ | discriminate ].
  apply bind_inv in H as [(c' & s3 & _ & H) | (e & _ & Hr)]; [ | discriminate ].
  apply bind_inv in H as [([rgb alpha] & s4 & _ & H) | (e & _ & Hr)];
    [ | discriminate ].
  apply bind_inv in H as [(u5 & s5 & _ & H) | (e & _ & Hr)]; [ | discriminate ].
  apply bind_inv in H as [(u6 & s6 & _ & H) | (e & _ & Hr)]; [ | discriminate ].
  apply bind_inv in H as [(u7 & s7 & _ & H) | (e & _ & Hr)]; [ | discriminate ].
  apply bind_inv in H as [([[regions raw] refined] & s8 & _ & H) | (e & _ & Hr)];
    [ | discriminate ].
  apply bind_inv in H as [(u9 & s9 & Hset & H) | (e & _ & Hr)];
    [ | discriminate ].
  exists regions. inversion Hset; subst.
  assert (Hrest : framed text_regions any_event
                    (update_ctx (set_mask_raw (Some raw)) ;;
                     update_ctx (set_mask refined) ;;
                     when (verbose self)
                       (c <- get_ctx ;;
                        call (Imwrite (_result_path "mask_raw.png"))
                          (cv2_imwrite svc (_result_path "mask_raw.png")
                             (mask_raw c)) ;;
                        bboxes <- call VisualizeTextblocks
                                    (visualize_textblocks svc (img_rgb c)
                                       (text_regions c)) ;;
                        call (Imwrite (_result_path "bboxes.png"))
                          (cv2_imwrite svc (_result_path "bboxes.png")
                             (Some bboxes)))))
    by frame.
  apply Hrest in H as (Hv & _). exact Hv.
Qed.


End NoRegions.



(** ** The translation stage: translations go back to regions by position *)

Section TranslationStage.
Variable W : Type.
Variable svc : Services W.
Variable self : Self W.

Lemma assign_translations_length o regions : forall translated,
  List.length (assign_translations W svc o regions translated)
  = List.length regions.
Proof.
  induction regions as [| region rest IH]; intros [| t ts]; simpl; auto.
Qed.

(** [zip] pairs the region and the translation found at the same index. *)
Lemma assign_translations_nth o regions : forall translated i region t,
  nth_error regions i = Some region ->
  nth_error translated i = Some t ->
  nth_error (assign_translations W svc o regions translated) i
  = Some (assign_translation W svc o region t).
Proof.
  induction regions as [| r0 rest IH]; intros translated i region t Hr Ht.
  - destruct i; discriminate.
  - destruct translated as [| t0 ts]; [ destruct i; discriminate | ].
    destruct i as [| i]; simpl in *.
    + inversion Hr; inversion Ht; subst. reflexivity.
    + now apply IH.
Qed.

(** The post-translation filter reads the regions and logs what it drops;
    what it returns, when it returns, is the regions it keeps, in order. *)
Lemma filter_by_translation_result o regions : forall (st : St W) r st',
  filter_by_translation W svc o regions st = (r, st') ->
  ctx st' = ctx st
  /\ world st' = world st
  /\ (exists l, log st' = log st ++ l
                /\ forallb not_translation_call l = true)
  /\ (forall kept, r = Ok kept ->
        kept = filter (kept_after_translation W svc o) regions).
Proof.
  induction regions as [| region rest IH]; simpl; intros st r st' H.
  - inversion H; subst. split; [ reflexivity | ]. split; [ reflexivity | ].
    split.
    + exists []. now rewrite app_nil_r.
    + intros kept Hk. now inversion Hk.
  - unfold kept_after_translation at 1.
    destruct (translation region) as [t |].
    2:{ inversion H; subst. split; [ reflexivity | ].
        split; [ reflexivity | ]. split.
        - exists []. now rewrite app_nil_r.
        - discriminate. }
    destruct (translation_dropped W svc o t); simpl.
    + apply bind_inv in H as [(u & s1 & Hw & H) | (e & Hw & _)].
      2:{ unfold when, emit, ret in Hw.
          destruct (PyStr.strip_nonempty (unicode svc) t); discriminate. }
      apply IH in H as (Hc & Hwd & (l & Hl & Hal) & Hk).
      assert (Hs1 : ctx s1 = ctx st /\ world s1 = world st
                    /\ exists l1, log s1 = log st ++ l1
                                  /\ forallb not_translation_call l1 = true).
      { unfold when, emit, ret in Hw.
        destruct (PyStr.strip_nonempty (unicode svc) t); inversion Hw; subst; simpl;
          (split; [ reflexivity | ]); (split; [ reflexivity | ]).
        - exists [LogFiltered t]. split; reflexivity.
        - exists []. now rewrite app_nil_r. }
      destruct Hs1 as (Hc1 & Hw1 & l1 & Hl1 & Hal1).
      split; [ congruence | ]. split; [ congruence | ]. split.
      * exists (l1 ++ l). split.
        -- now rewrite Hl, Hl1, app_assoc.
        -- now rewrite forallb_app, Hal1, Hal.
      * exact Hk.
    + apply bind_inv in H as [(kept0 & s1 & Hf & H) | (e & Hf & Hr)].
      * apply IH in Hf as (Hc & Hwd & Hlog & Hk).
        inversion H; subst.
        split; [ assumption | ]. split; [ assumption | ].
        split; [ assumption | ].
        intros kept Hkept. inversion Hkept; subst.
        now rewrite (Hk kept0 eq_refl).
      * apply IH in Hf as (Hc & Hwd & Hlog & Hk).
        subst r.
        split; [ assumption | ]. split; [ assumption | ].
        split; [ assumption | ]. discriminate.
Qed.

(** The stage up to the filter: one call of the translator, with the
    source texts of the regions in order, then the assignment in place. *)
Lemma run_text_translation_dispatch (st : St W) regions translated w' :
  text_regions (ctx st) = Some regions ->
  dispatch_translation svc (translator (opts (ctx st)))
    (map get_text regions) (use_mtpe (opts (ctx st)))
    (if _cuda_limited_memory self then "cpu" else device self) (world st)
  = (Ok translated, w') ->
  _run_text_translation W svc self st
  = filter_by_translation W svc (opts (ctx st))
      (assign_translations W svc (opts (ctx st)) regions translated)
      (mkSt w'
         (set_text_regions
            (Some (assign_translations W svc (opts (ctx st)) regions translated))
            (ctx st))
         (log st ++ [Call (DispatchTranslation (translator (opts (ctx st)))
                             (map get_text regions))])).
Proof.
  intros Hregions Hd.
  unfold _run_text_translation, bind, get_ctx, regions_of, call, emit, lift,
    update_ctx, ret.
  rewrite Hregions. simpl. unfold bind. simpl. now rewrite Hd.
Qed.

Local Abbreviation translator_answer st regions :=
  (dispatch_translation svc (translator (opts (ctx st)))
     (map get_text regions) (use_mtpe (opts (ctx st)))
     (if _cuda_limited_memory self then "cpu" else device self) (world st)).

(** C6.  The translation stage calls the translator once, with the source
    texts of all the regions in region order, and the translation found at
    position [i] of the answer is stored, after the configured case
    conversion (none by default), on the region at position [i]; the
    regions the stage returns are those the filter keeps, in the same
    order. *)
Theorem translations_map_back_by_position
  (st : St W) regions translated w' r st' :
  text_regions (ctx st) = Some regions ->
  translator_answer st regions = (Ok translated, w') ->
  _run_text_translation W svc self st = (r, st') ->
  let o := opts (ctx st) in
  (exists l,
      log st' = log st
                ++ Call (DispatchTranslation (translator o)
                           (map get_text regions)) :: l
      /\ forallb not_translation_call l = true)
  /\ exists assigned,
      text_regions (ctx st') = Some assigned
      /\ List.length assigned = List.length regions
      /\ (forall i region t,
            nth_error regions i = Some region ->
            nth_error translated i = Some t ->
            exists region',
              nth_error assigned i = Some region'
              /\ get_text region' = get_text region
              /\ xyxy region' = xyxy region
              /\ translation region' = Some (convert_case W svc o t)
              /\ (uppercase o = false -> lowercase o = false ->
                  translation region' = Some t))
      /\ (forall kept, r = Ok kept ->
            kept = filter (kept_after_translation W svc o) assigned).
Proof.
  intros Hregions Hd Hrun o.
  rewrite (run_text_translation_dispatch st regions translated w' Hregions Hd)
    in Hrun.
  apply filter_by_translation_result in Hrun
    as (Hc & _ & (l & Hl & Hal) & Hk). simpl in Hc, Hl.
  split.
  - exists l. split; [ | exact Hal ]. now rewrite Hl, <- app_assoc.
  - exists (assign_translations W svc o regions translated).
    rewrite Hc. simpl. repeat split.
    + apply assign_translations_length.
    + intros i region t Hr Ht.
      exists (assign_translation W svc o region t).
      split; [ now apply assign_translations_nth | ].
      repeat split. simpl. unfold convert_case.
      intros Hu Hlo. now rewrite Hu, Hlo.
    + exact Hk.
Qed.

(** C10.  With the lowercase option set and the uppercase option unset,
    the translation stored on a region is the translator's answer for it
    converted to upper case by [str.upper], so it is not the lower-case
    form whenever the two differ; this holds for text of any script. *)
Theorem lowercase_option_stores_upper_case
  (st : St W) regions translated w' r st' :
  lowercase (opts (ctx st)) = true ->
  uppercase (opts (ctx st)) = false ->
  text_regions (ctx st) = Some regions ->
  translator_answer st regions = (Ok translated, w') ->
  _run_text_translation W svc self st = (r, st') ->
  exists assigned,
    text_regions (ctx st') = Some assigned
    /\ forall i region t,
        nth_error regions i = Some region ->
        nth_error translated i = Some t ->
        exists region',
          nth_error assigned i = Some region'
          /\ translation region' = Some (PyStr.upper (unicode svc) t)
          /\ (PyStr.upper (unicode svc) t <> PyStr.lower (unicode svc) t ->
              translation region' <> Some (PyStr.lower (unicode svc) t)).
Proof.
  intros Hlow Hup Hregions Hd Hrun.
  rewrite (run_text_translation_dispatch st regions translated w' Hregions Hd)
    in Hrun.
  apply filter_by_translation_result in Hrun as (Hc & _). simpl in Hc.
  exists (assign_translations W svc (opts (ctx st)) regions translated).
  rewrite Hc. simpl. split; [ reflexivity | ].
  intros i region t Hr Ht.
  exists (assign_translation W svc (opts (ctx st)) region t).
  split; [ now apply assign_translations_nth | ].
  simpl. unfold convert_case. rewrite Hup, Hlow.
  split; [ reflexivity | ]. intros Hne Heq. inversion Heq. contradiction.
Qed.

End TranslationStage.

Lemma translations_map_back_by_position_witness :
  let sc := mkScenario no_fault [] echo in
  let regions := [region "hello world"; region "good night"] in
  let st := mkSt 0%nat
              (set_text_regions (Some regions) (initial_context page (options 0)))
              [] in
  exists region',
    nth_error
      (match text_regions
               (ctx (snd (_run_text_translation nat (services sc)
                            (engine false []) st))) with
       | Some l => l
       | None => []
       end) 1 = Some region'
    /\ get_text region' = "good night"
    /\ translation region' = Some "tr good night".
Proof.
  intros sc regions st.
  destruct (_run_text_translation nat (services sc) (engine false []) st)
    as [r st'] eqn:E.
  destruct (translations_map_back_by_position nat (services sc)
              (engine false []) st regions (echo (map get_text regions))
              1%nat r st' eq_refl eq_refl E)
    as (_ & assigned & Hregions & _ & Hnth & _).
  destruct (Hnth 1%nat (region "good night") "tr good night" eq_refl eq_refl)
    as (region' & H1 & H2 & _ & H3 & _).
  exists region'. simpl. rewrite Hregions. auto.
Defined.

Lemma lowercase_option_stores_upper_case_witness :
  let sc := mkScenario no_fault [] (fun _ => ["Bonjour le monde"]) in
  let regions := [region "hello world"] in
  let st := mkSt 0%nat
              (set_text_regions (Some regions)
                 (initial_context page (with_case false true (options 0))))
              [] in
  exists region',
    nth_error
      (match text_regions
               (ctx (snd (_run_text_translation nat (services sc)
                            (engine false []) st))) with
       | Some l => l
       | None => []
       end) 0 = Some region'
    /\ translation region' = Some "BONJOUR LE MONDE"
    /\ translation region' <> Some "bonjour le monde".
Proof.
  intros sc regions st.
  destruct (_run_text_translation nat (services sc) (engine false []) st)
    as [r st'] eqn:E.
  destruct (lowercase_option_stores_upper_case nat (services sc)
              (engine false []) st regions ["Bonjour le monde"]
              1%nat r st' eq_refl eq_refl eq_refl eq_refl E)
    as (assigned & Hregions & Hnth).
  destruct (Hnth 0%nat (region "hello world") "Bonjour le monde"
              eq_refl eq_refl) as (region' & H1 & H2 & H3).
  exists region'. simpl. rewrite Hregions.
  split; [ exact H1 | ]. split; [ exact H2 | ].
  apply H3. vm_compute. discriminate.
Defined.

(** ** The websocket worker *)

Section WorkerClaims.
Variable W : Type.
Variable svc : Services W.
Variable self : Self W.
Variable io : SocketWorker.WorkerIO W.

(** The handler of a task whose run leaves no result image. *)
Lemma on_new_task_without_result
  fuel translation_params task w w0 image w1 st :
  (if verbose self
   then SocketWorker.reset_result_dir io
          ("result/" ++ SocketWorker.id task)%string w
   else (Ok tt, w)) = (Ok tt, w0) ->
  SocketWorker.Image_open io (SocketWorker.source_image task) w0
    = (Ok image, w1) ->
  translate W svc (SocketWorker.worker W self io (SocketWorker.id task)) fuel
    image
    (SocketWorker.preprocess_params io
       (PyDict.merge_defaults translation_params
          (SocketWorker.task_params task))) w1
    = Some (Ok tt, st) ->
  result (ctx st) = None ->
  SocketWorker.on_new_task W svc self io fuel translation_params task w
    = Some (Raise (PyException "AttributeError"), world st).
Proof.
  intros Hprep Hopen Hrun Hres. unfold SocketWorker.on_new_task.
  rewrite Hprep, Hopen, Hrun, Hres. reflexivity.
Qed.

(** C9 does not hold of the code: when the run of a task leaves no result
    image the handler reads the size of the placeholder from the missing
    result, so it raises an AttributeError right after [translate]
    returned: no finish frame is sent for the task, and the frames that
    follow it on the connection are not read. *)
Theorem no_result_raises_before_reply
  fuel translation_params task rest w w0 image w1 st :
  (if verbose self
   then SocketWorker.reset_result_dir io
          ("result/" ++ SocketWorker.id task)%string w
   else (Ok tt, w)) = (Ok tt, w0) ->
  SocketWorker.Image_open io (SocketWorker.source_image task) w0
    = (Ok image, w1) ->
  translate W svc (SocketWorker.worker W self io (SocketWorker.id task)) fuel
    image
    (SocketWorker.preprocess_params io
       (PyDict.merge_defaults translation_params
          (SocketWorker.task_params task))) w1
    = Some (Ok tt, st) ->
  result (ctx st) = None ->
  SocketWorker.listen W svc self io fuel translation_params
    (SocketWorker.new_task task :: rest) w
    = Some ([], Raise (PyException "AttributeError"), world st).
Proof.
  intros Hprep Hopen Hrun Hres. simpl.
  now rewrite (on_new_task_without_result fuel translation_params task w w0
                 image w1 st Hprep Hopen Hrun Hres).
Qed.

End WorkerClaims.

Lemma no_result_raises_before_reply_witness :
  let sc := mkScenario no_fault [] echo in
  exists st,
    SocketWorker.listen nat (services sc) (engine true [])
      Samples.worker_io 3 []
      [SocketWorker.new_task Samples.blank_page_task;
       SocketWorker.new_task Samples.blank_page_task] 0%nat
    = Some ([], Raise (PyException "AttributeError"), world st)
    /\ result (ctx st) = None
    /\ input (ctx st) = Some page.
Proof.
  intros sc. eexists. split.
  - eapply (no_result_raises_before_reply nat (services sc) (engine true [])
              Samples.worker_io 3%nat [] Samples.blank_page_task
              [SocketWorker.new_task Samples.blank_page_task] 0%nat 0%nat
              page 0%nat).
    + reflexivity.
    + reflexivity.
    + vm_compute. reflexivity.
    + reflexivity.
  - split; reflexivity.
Defined.

(** The reply the claim describes, for the same task: a transparent image
    of the size of the source image.  The handler never builds it. *)
Lemma blank_page_reply_expected :
  SocketWorker.transparent (height page) (width page)
  = mkImage 2 1 [0; 0; 0; 0; 0; 0; 0; 0].
Proof. reflexivity. Qed.

(** ** The REST facade *)

Section ApiClaims.
Import SyncServer.
Variable W : Type.
Variable tb : Tables.
Variable http_get : string -> Act W (Z * string).
Variable params : PyDict.dict.
Variable func : PyDict.dict -> FileArg -> Act W Context.
Variable format : Context -> Res Response.

Local Abbreviation serve := (err_handling W tb http_get params func format).

Lemma lift_res_run {A} (r : Res A) (st : ApiSt W) :
  lift_res W r st = (r, st).
Proof. reflexivity. Qed.

(** The front of the handler, for a body the schema accepts. *)
Lemma handle_loaded req d data (st : ApiSt W) :
  supported (content_type req) = true ->
  payload req = Ok d ->
  schema_load tb d = Ok data ->
  handle W tb http_get params func format req st
  = (if PyDict.is_none (PyDict.get "image" data)
        && PyDict.is_none (PyDict.get "base64Images" data)
        && PyDict.is_none (PyDict.get "url" data)
     then
       ret (json_response
              [("error", VStr "Missing input"); ("status", VInt 422)] None)
     else
       fil <- get_file W tb http_get (PyDict.get "image" data)
                (PyDict.get "base64Images" data) (PyDict.get "url" data) ;;
       loaded_data <-
         call_func W func
           (PyDict.update params
              (drop_key "url" (drop_key "base64Images"
                 (drop_key "image" data)))) fil ;;
       lift_res W (format loaded_data)) st.
Proof.
  intros Hs Hp Hl. unfold handle. rewrite Hs, Hp.
  unfold bind at 1. rewrite lift_res_run.
  unfold bind at 1. rewrite Hl, lift_res_run. reflexivity.
Qed.

Lemma check_image_ok content img (st : ApiSt W) :
  Image_open tb content = Ok img ->
  Image_verify tb img = Ok tt ->
  check_image W tb content st
  = (if 8000 ^ 2 <? width img * height img
     then Raise (ValidationError "to large")
     else Ok img, st).
Proof.
  intros Ho Hv. unfold check_image, bind. rewrite !lift_res_run, Ho.
  rewrite lift_res_run, Hv. rewrite lift_res_run.
  now destruct (8000 ^ 2 <? width img * height img).
Qed.

(** C7 (amended).  For a request with a supported content type whose
    fields the schema accepts: when none of [image], [base64Images] and
    [url] is present the reply carries the error [Missing input] with
    status field 422 and the pipeline is not invoked; when several are
    present the request is not rejected, the first present one in the
    order [image], [base64Images], [url] is used (an uploaded image is
    decoded and handed to the pipeline whatever else was sent, and a
    base64 image is read whatever the url); and when
    the bytes read decode to an image of more than 8000*8000 pixels the
    reply is a 422 and the pipeline is not invoked. *)
Theorem input_source_selection req d data (st : ApiSt W) :
  supported (content_type req) = true ->
  payload req = Ok d ->
  schema_load tb d = Ok data ->
  (PyDict.is_none (PyDict.get "image" data)
   && PyDict.is_none (PyDict.get "base64Images" data)
   && PyDict.is_none (PyDict.get "url" data) = true ->
   exists resp,
     serve req st = (Ok resp, st)
     /\ body resp = [("error", VStr "Missing input"); ("status", VInt 422)])
  /\ (forall content img,
        PyDict.get "image" data = VFile content ->
        Image_open tb content = Ok img ->
        Image_verify tb img = Ok tt ->
        width img * height img <= 8000 ^ 2 ->
        exists r st',
          serve req st = (r, st')
          /\ invoked st'
             = invoked st
               ++ [(PyDict.update params
                      (drop_key "url" (drop_key "base64Images"
                         (drop_key "image" data))), FImage img)])
  /\ (forall content img st1,
        read_content W tb http_get (PyDict.get "image" data)
          (PyDict.get "base64Images" data) (PyDict.get "url" data) st
        = (Ok (inl content), st1) ->
        Image_open tb content = Ok img ->
        Image_verify tb img = Ok tt ->
        8000 ^ 2 < width img * height img ->
        serve req st
        = (Ok (json_response
                 [("error", VStr "Input invalid"); ("status", VInt 422)]
                 (Some 422)), st1)
        /\ invoked st1 = invoked st)
  /\ (forall s,
        PyDict.get "image" data = VNone ->
        PyDict.get "base64Images" data = VStr s ->
        read_content W tb http_get (PyDict.get "image" data)
          (PyDict.get "base64Images" data) (PyDict.get "url" data) st
        = read_content W tb http_get VNone (VStr s) VNone st).
Proof.
  intros Hs Hp Hl. split; [ | split; [ | split ] ];
    [ | | | intros s Himg Hb64; now rewrite Himg, Hb64 ].
  - intros Hnone. eexists. unfold err_handling.
    rewrite (handle_loaded req d data st Hs Hp Hl), Hnone.
    split; reflexivity.
  - intros content img Himg Ho Hv Harea.
    unfold err_handling.
    rewrite (handle_loaded req d data st Hs Hp Hl), Himg. simpl.
    unfold get_file, read_content, bind at 1 2. unfold ret at 1.
    unfold bind at 1. rewrite (check_image_ok content img st Ho Hv).
    replace (8000 ^ 2 <? width img * height img) with false
      by (symmetry; apply Z.ltb_ge; exact Harea).
    unfold ret at 1. unfold bind at 1. unfold call_func at 1.
    destruct (func _ (FImage img) (api_world st)) as [[c | e] w'].
    + destruct (lift_res W (format c) _) as [[resp | e] st'] eqn:E;
        unfold lift_res in E; inversion E; subst.
      * eexists _, _. split; reflexivity.
      * destruct e; eexists _, _; split; reflexivity.
    + destruct e; eexists _, _; split; reflexivity.
  - intros content img st1 Hread Ho Hv Harea.
    assert (Hinv : invoked st1 = invoked st).
    { revert Hread. unfold read_content.
      destruct (PyDict.get "image" data); try discriminate.
      - destruct (PyDict.get "base64Images" data); try discriminate.
        + destruct (PyDict.get "url" data); try discriminate.
          unfold bind, lift_world.
          destruct (http_get s (api_world st)) as [[[status c] | e] w'];
            [ | discriminate ].
          destruct (status =? 200); intros H; inversion H; reflexivity.
        + unfold bind. rewrite lift_res_run.
          destruct (b64decode tb _); intros H; inversion H; reflexivity.
      - intros H; inversion H; reflexivity. }
    split; [ | exact Hinv ].
    assert (Hsome : PyDict.is_none (PyDict.get "image" data)
                    && PyDict.is_none (PyDict.get "base64Images" data)
                    && PyDict.is_none (PyDict.get "url" data) = false).
    { revert Hread. unfold read_content.
      destruct (PyDict.get "image" data); try discriminate;
        try reflexivity.
      destruct (PyDict.get "base64Images" data); try discriminate;
        try reflexivity.
      destruct (PyDict.get "url" data); try discriminate; reflexivity. }
    unfold err_handling.
    rewrite (handle_loaded req d data st Hs Hp Hl), Hsome.
    unfold bind at 1. unfold get_file, bind at 1. rewrite Hread.
    unfold bind at 1. rewrite (check_image_ok content img st1 Ho Hv).
    replace (8000 ^ 2 <? width img * height img) with true
      by (symmetry; apply Z.ltb_lt; exact Harea).
    reflexivity.
Qed.

(** C8 does not hold of the code: each selector validator returns [False],
    which makes marshmallow raise, exactly when the normalised value is in
    the option set; a listed value is refused and any other string is
    accepted. *)
Theorem selector_validation_is_inverted name norm options a :
  In (name, norm, options) (selectors tb) ->
  exists validate,
    PostSchema tb name = Some (Str validate)
    /\ (PyStr.mem (norm a) options = true ->
        deserialize tb (Str validate) (VStr a)
        = Raise (ValidationError "Invalid value."))
    /\ (PyStr.mem (norm a) options = false ->
        deserialize tb (Str validate) (VStr a) = Ok (VStr a)).
Proof.
  unfold selectors. simpl.
  intros [H | [H | [H | [H | [H | [H | [H | []]]]]]]];
    inversion H; subst; eexists; (split; [ reflexivity | ]);
    split; intros Hm;
    cbv [deserialize validate_size validate_translator
           validate_target_language validate_detector validate_direction
           validate_inpainter validate_ocr];
    rewrite Hm; reflexivity.
Qed.

End ApiClaims.

(** C7, as stated, fails: a request that carries both an uploaded image and
    a url is served; the upload is used and handed to the pipeline, the url
    is ignored. *)
Lemma image_and_url_is_served :
  Samples.api
    (Samples.multipart
       [("image", VFile "abc"); ("url", VStr "http://host/page.png")])
  = (Ok (SyncServer.mkResponse 200 [("images", VNone)]),
     SyncServer.mkApiSt 1%nat
       [(Samples.defaults, SyncServer.FImage (mkImage 3 1 []))]).
Proof. vm_compute. reflexivity. Defined.

Lemma input_source_selection_witness :
  Samples.api (Samples.multipart [("image", VFile "huge")])
  = (Ok (SyncServer.json_response
           [("error", VStr "Input invalid"); ("status", VInt 422)] (Some 422)),
     SyncServer.mkApiSt 0%nat []).
Proof.
  destruct (input_source_selection nat Samples.tables Samples.http_get
              Samples.defaults Samples.pipeline Samples.format_translate
              (Samples.multipart [("image", VFile "huge")])
              [("image", VFile "huge")] [("image", VFile "huge")]
              (SyncServer.mkApiSt 0%nat []) eq_refl eq_refl eq_refl)
    as (_ & _ & Hlarge & _).
  destruct (Hlarge "huge" (mkImage 9000 9000 []) (SyncServer.mkApiSt 0%nat [])
              eq_refl eq_refl eq_refl ltac:(vm_compute; reflexivity))
    as [H _].
  exact H.
Defined.

Lemma selector_validation_is_inverted_witness :
  exists validate,
    SyncServer.PostSchema Samples.tables "size"
    = Some (SyncServer.Str validate)
    /\ SyncServer.deserialize Samples.tables (SyncServer.Str validate)
         (VStr "m")
       = Raise (ValidationError "Invalid value.")
    /\ SyncServer.deserialize Samples.tables (SyncServer.Str validate)
         (VStr "huge")
       = Ok (VStr "huge").
Proof.
  destruct (selector_validation_is_inverted Samples.tables "size"
              (PyStr.upper PyStr.ASCII)
              ["S"; "M"; "L"; "X"] "m" (or_introl eq_refl))
    as (validate & Hschema & Hin & _).
  destruct (selector_validation_is_inverted Samples.tables "size"
              (PyStr.upper PyStr.ASCII)
              ["S"; "M"; "L"; "X"] "huge" (or_introl eq_refl))
    as (validate' & Hschema' & _ & Hout).
  assert (validate' = validate) by congruence. subst validate'.
  exists validate. split; [ exact Hschema | ].
  split; [ apply Hin | apply Hout ]; reflexivity.
Defined.

(** The same on whole requests: the listed size [M] gets a 422 and the
    pipeline is not invoked; the unlisted size [Q] goes through to it. *)
Lemma listed_size_is_refused :
  Samples.api
    (Samples.multipart [("size", VStr "M"); ("image", VFile "abc")])
  = (Ok (SyncServer.json_response
           [("error", VStr "Input invalid"); ("status", VInt 422)] (Some 422)),
     SyncServer.mkApiSt 0%nat [])
  /\ SyncServer.invoked
       (snd (Samples.api
               (Samples.multipart [("size", VStr "Q"); ("image", VFile "abc")])))
     = [([("translator", VStr "google"); ("size", VStr "Q")],
         SyncServer.FImage (mkImage 3 1 []))].
Proof. split; vm_compute; reflexivity. Qed.

(** With the sentinel and a detector that fails on every call, no number of
    iterations ends the loop. *)
Lemma unlimited_retries_never_give_up :
  let sc := mkScenario (fault_always "detection" (PyException "RuntimeError"))
              [] echo in
  forall n,
    translate nat (services sc) (engine false []) n page (options (-1)) 0%nat
    = None.
Proof.
  intros sc n. unfold translate.
  assert (H : forall n a st,
             opts (ctx st) = options (-1) ->
             input (ctx st) = Some page ->
             translate_loop nat (services sc) (engine false []) n a st = None).
  { clear n. induction n as [| n IH]; intros a st Ho Hi; simpl;
      unfold loop_cond; rewrite Ho; simpl; [ reflexivity | ].
    pose proof (retry_step_counts nat (services sc) (engine false []) a st)
      as Hs.
    destruct (retry_step nat (services sc) (engine false []) a st)
      as [r st' | st'] eqn:E.
    - exfalso. destruct st as [w c l]. destruct c. simpl in Ho, Hi. subst.
      unfold retry_step, retry_message, bind, get_ctx in E. simpl in E.
      destruct (0 <? a); vm_compute in E; discriminate.
    - destruct Hs as (Hi' & Ho' & _). apply IH; congruence. }
  apply H; reflexivity.
Qed.

(** * Further properties of the engine *)

(** ** The region filters *)

Section FilterFacts.
Variable W : Type.
Variable svc : Services W.
Variable self : Self W.

Lemma forallb_filter_same {A} (f : A -> bool) (l : list A) :
  forallb f (filter f l) = true.
Proof.
  induction l as [| x l IH]; simpl; [ reflexivity | ].
  destruct (f x) eqn:E; simpl; [ now rewrite E | exact IH ].
Qed.

Lemma filter_all_kept {A} (f : A -> bool) (l : list A) :
  forallb f l = true -> filter f l = l.
Proof.
  induction l as [| x l IH]; simpl; [ reflexivity | ].
  intros H. apply andb_true_iff in H as [Hx Hl]. now rewrite Hx, IH.
Qed.

(** The post-OCR filter never raises and touches nothing but the log, where
    it records the non-blank texts it drops. *)
Lemma filter_by_text_run o regions : forall st : St W,
  exists l,
    filter_by_text W svc o regions st
    = (Ok (filter (kept_after_ocr svc o) regions),
       mkSt (world st) (ctx st) (log st ++ l))
    /\ (forallb (kept_after_ocr svc o) regions = true -> l = []).
Proof.
  induction regions as [| region rest IH]; intros st; simpl.
  - exists []. rewrite app_nil_r. destruct st; auto.
  - assert (Hdrop : ocr_dropped W svc o (get_text region) = true ->
                    kept_after_ocr svc o region
                    && forallb (kept_after_ocr svc o) rest = true ->
                    forall l : list Event, l = []).
    { intros E H. unfold kept_after_ocr at 1 in H. rewrite E in H.
      discriminate. }
    unfold kept_after_ocr at 1.
    destruct (ocr_dropped W svc o (get_text region)) eqn:E; simpl.
    + unfold bind at 1, when.
      destruct (PyStr.strip_nonempty (unicode svc) (get_text region)); simpl.
      * destruct (IH (mkSt (world st) (ctx st)
                        (log st ++ [LogFiltered (get_text region)])))
          as (l & Hrun & _).
        exists (LogFiltered (get_text region) :: l). simpl in Hrun.
        rewrite Hrun, <- app_assoc.
        split; [ reflexivity | intros H; now apply Hdrop ].
      * destruct (IH st) as (l & Hrun & _).
        exists l. unfold ret. rewrite Hrun.
        split; [ reflexivity | intros H; now apply Hdrop ].
    + destruct (IH st) as (l & Hrun & Hl).
      exists l. unfold bind. rewrite Hrun. split; [ reflexivity | ].
      intros H. apply andb_true_iff in H as [_ H]. now apply Hl.
Qed.

(** X1.  The post-OCR filter returns the regions it is given without the
    dropped ones, in their order, leaving the world and the Context alone;
    applied again to what it returned it returns the same list and logs
    nothing. *)
Theorem ocr_filter_idempotent o regions (st : St W) :
  exists st',
    filter_by_text W svc o regions st
    = (Ok (filter (kept_after_ocr svc o) regions), st')
    /\ world st' = world st
    /\ ctx st' = ctx st
    /\ filter_by_text W svc o (filter (kept_after_ocr svc o) regions) st'
       = (Ok (filter (kept_after_ocr svc o) regions), st').
Proof.
  destruct (filter_by_text_run o regions st) as (l & Hrun & _).
  eexists. split; [ exact Hrun | ]. repeat split.
  destruct (filter_by_text_run o (filter (kept_after_ocr svc o) regions)
              (mkSt (world st) (ctx st) (log st ++ l))) as (l' & Hrun' & Hl').
  rewrite Hrun', (Hl' (forallb_filter_same _ _)), app_nil_r.
  now rewrite (filter_all_kept _ _ (forallb_filter_same _ _)).
Qed.

(** X2.  The regions the OCR stage returns are regions the OCR service
    recognised, in the same order, and each of them has a text that is not
    numeric, is not a URL, has at least two valuable characters and is not
    matched by the exclusion pattern. *)
Theorem run_ocr_survivors (st : St W) regions w' :
  dispatch_ocr svc (ocr (opts (ctx st))) (img_rgb (ctx st))
    (text_regions (ctx st)) (device self) (verbose self) (world st)
    = (Ok regions, w') ->
  exists st',
    _run_ocr W svc self st
    = (Ok (filter (kept_after_ocr svc (opts (ctx st))) regions), st')
    /\ ctx st' = ctx st
    /\ forall region,
        In region (filter (kept_after_ocr svc (opts (ctx st))) regions) ->
        In region regions
        /\ PyStr.isnumeric (unicode svc) (get_text region) = false
        /\ is_url svc (get_text region) = false
        /\ 1 < count_valuable_text svc (get_text region)
        /\ (forall search, filter_text (opts (ctx st)) = Some search ->
              search (get_text region) = false).
Proof.
  intros Hd.
  destruct (filter_by_text_run (opts (ctx st)) regions
              (mkSt w' (ctx st)
                 (log st ++ [Call (DispatchOcr (text_regions (ctx st)))])))
    as (l & Hrun & _).
  eexists. split; [ | split ].
  - unfold _run_ocr, bind, get_ctx, call, emit, lift. simpl.
    unfold bind. simpl. rewrite Hd. exact Hrun.
  - reflexivity.
  - intros region Hin. apply filter_In in Hin as [Hin Hkept].
    split; [ exact Hin | ].
    unfold kept_after_ocr, ocr_dropped in Hkept.
    apply negb_true_iff in Hkept.
    apply orb_false_iff in Hkept as [Hkept Hurl].
    apply orb_false_iff in Hkept as [Hkept Hcount].
    apply orb_false_iff in Hkept as [Hnum Hpat].
    repeat split; auto.
    + apply Z.leb_gt in Hcount. exact Hcount.
    + intros search Hs. now rewrite Hs in Hpat.
Qed.

Lemma filter_by_translation_all_kept o regions : forall st : St W,
  forallb (kept_after_translation W svc o) regions = true ->
  filter_by_translation W svc o regions st = (Ok regions, st).
Proof.
  induction regions as [| region rest IH]; intros st H; simpl.
  - reflexivity.
  - simpl in H. apply andb_true_iff in H as [Hr Hrest].
    unfold kept_after_translation in Hr.
    destruct (translation region) as [t |]; [ | discriminate ].
    apply negb_true_iff in Hr. rewrite Hr.
    unfold bind. now rewrite (IH st Hrest).
Qed.

(** X3.  The post-translation filter is idempotent: applied to the regions
    it returned, it returns them again, raises nothing and logs nothing. *)
Theorem translation_filter_idempotent o regions (st : St W) kept st' :
  filter_by_translation W svc o regions st = (Ok kept, st') ->
  filter_by_translation W svc o kept st' = (Ok kept, st')
  /\ (List.length kept <= List.length regions)%nat.
Proof.
  intros H.
  apply filter_by_translation_result in H as (_ & _ & _ & Hk).
  rewrite (Hk kept eq_refl). split.
  - apply filter_by_translation_all_kept, forallb_filter_same.
  - apply filter_length_le.
Qed.

(** X4.  The assignment loop never changes the number of regions: answers
    beyond the last region are ignored, and a region beyond the last answer
    is left exactly as it was. *)
Theorem assign_translations_truncates o regions translated :
  List.length (assign_translations W svc o regions translated) = List.length regions
  /\ (forall more,
        (List.length regions <= List.length translated)%nat ->
        assign_translations W svc o regions (translated ++ more)
        = assign_translations W svc o regions translated)
  /\ (forall i,
        (List.length translated <= i)%nat ->
        nth_error (assign_translations W svc o regions translated) i
        = nth_error regions i).
Proof.
  split; [ apply assign_translations_length | split ].
  - revert translated.
    induction regions as [| region rest IH]; intros [| t ts] more Hlen;
      simpl in *; try reflexivity; try lia.
    rewrite IH; [ reflexivity | lia ].
  - revert translated.
    induction regions as [| region rest IH]; intros [| t ts] i Hlen;
      simpl in *; try reflexivity.
    destruct i as [| i]; [ lia | ]. simpl. apply IH. lia.
Qed.

End FilterFacts.

(** ** The retry loop: what the caller can rely on *)

Section LoopFacts.
Variable W : Type.
Variable svc : Services W.
Variable self : Self W.

Local Abbreviation attempt_at a :=
  (retry_message W a ;; attempt W svc self).

Lemma framed_weaken {V A} (view : Context -> V) (allowed allowed' : Event -> bool)
  (m : M (St W) A) :
  (forall ev, allowed ev = true -> allowed' ev = true) ->
  framed view allowed m -> framed view allowed' m.
Proof.
  intros Hsub Hm st r st' H.
  destruct (Hm st r st' H) as (Hv & l & Hl & Hal).
  split; [ exact Hv | ]. exists l. split; [ exact Hl | ].
  rewrite forallb_forall in *. auto.
Qed.

Lemma attempt_extends_log a (st : St W) r st1 :
  attempt_at a st = (r, st1) -> exists l, log st1 = log st ++ l.
Proof.
  intros H.
  assert (Hf : framed config any_event (attempt_at a)).
  { unfold attempt, prepare_models.
    apply framed_bind;
      [ apply (framed_weaken config not_attempt_start); auto;
        apply retry_message_quiet | intros _ ].
    apply framed_bind; [ | intros _ ].
    - apply framed_bind; [ now apply framed_emit | intros _ ].
      apply (framed_weaken config not_attempt_start); auto.
      apply prepare_calls_quiet.
    - apply (framed_weaken config not_attempt_start); auto.
      apply translate_quiet. }
  destruct (Hf st r st1 H) as (_ & l & Hl & _). eauto.
Qed.

Lemma report_progress_log_head state finished (st : St W) r st' :
  _report_progress W self state finished st = (r, st') ->
  exists l, log st' = log st ++ Progress state finished :: l.
Proof.
  unfold _report_progress. intros H.
  apply bind_inv in H as [(u & s1 & He & H) | (e & He & _)];
    inversion He; subst.
  assert (Hf : framed config any_event
                 (logger_hook W state finished ;;
                  run_hooks (_progress_hooks self) state finished)).
  { unfold logger_hook. repeat frame_step. }
  destruct (Hf _ _ _ H) as (_ & l & Hl & _). simpl in Hl.
  exists l. now rewrite Hl, <- app_assoc.
Qed.

Lemma existsb_middle {A} (f : A -> bool) l1 x l2 :
  f x = true -> existsb f (l1 ++ x :: l2) = true.
Proof.
  intros Hx. rewrite existsb_app. cbn [existsb]. rewrite Hx.
  now rewrite orb_true_r.
Qed.

Lemma error_state_is_error_report e :
  is_error_report (Progress (error_state e) true) = true.
Proof.
  unfold error_state. now destruct (is_LanguageUnsupported e).
Qed.


Lemma report_progress_without_hooks state finished (st : St W) :
  _progress_hooks self = [] ->
  exists st', _report_progress W self state finished st = (Ok tt, st').
Proof.
  intros Hh. unfold _report_progress, bind, emit, logger_hook. rewrite Hh.
  simpl.
  destruct (LOG_MESSAGES state);
    [ | destruct (LOG_MESSAGES_SKIP state);
        [ | destruct (LOG_MESSAGES_ERROR state) ] ];
    simpl; unfold ret; eauto.
Qed.


(** X7.  A retry count below the sentinel makes [translate] return at once:
    no attempt is made, nothing is prepared, reported or logged, and the
    Context comes back as it was built, so the file batch has nothing to
    save for that image. *)
Theorem negative_retries_skip_pipeline fuel image o (w : W) :
  retries o < -1 ->
  translate W svc self fuel image o w
  = Some (Ok tt, mkSt w (initial_context image o) [])
  /\ forall img, _translate_file_result (initial_context image o) img = None.
Proof.
  intros Hr. split; [ | reflexivity ].
  unfold translate.
  assert (Hc : loop_cond (initial_context image o) 0 = false).
  { unfold loop_cond. simpl. apply orb_false_iff. split.
    - apply Z.eqb_neq. lia.
    - apply Z.ltb_ge. lia. }
  destruct fuel; simpl; now rewrite Hc.
Qed.

End LoopFacts.


(** The same run, evaluated: three attempts, then the Context without a
    result. *)
Lemma ignored_failures_return_the_context :
  let sc := mkScenario (fault_always "ocr" (PyException "RuntimeError"))
              [region "hello world"] echo in
  exists st',
    translate nat (services sc) (engine true []) 4 page (options 2) 0%nat
    = Some (Ok tt, st')
    /\ attempts_in (log st') = 3%nat
    /\ result (ctx st') = None.
Proof.
  intros sc. eexists. split; [ vm_compute; reflexivity | ].
  split; reflexivity.
Qed.


Lemma negative_retries_skip_pipeline_witness :
  translate nat (services (mkScenario no_fault [region "hello world"] echo))
    (engine false []) 0 page (options (-2)) 0%nat
  = Some (Ok tt, mkSt 0%nat (initial_context page (options (-2))) []).
Proof.
  apply (negative_retries_skip_pipeline nat
           (services (mkScenario no_fault [region "hello world"] echo))
           (engine false []) 0 page (options (-2)) 0%nat).
  simpl. lia.
Defined.

Lemma run_ocr_survivors_witness :
  let sc := mkScenario no_fault [] echo in
  let regions := [region "hello world"; region "2024"; region "http://a.b"] in
  let st := mkSt 0%nat
              (set_text_regions (Some regions) (initial_context page (options 0)))
              [] in
  fst (_run_ocr nat (services sc) (engine false []) st)
  = Ok [region "hello world"].
Proof.
  intros sc regions st.
  destruct (run_ocr_survivors nat (services sc) (engine false []) st regions
              1%nat eq_refl) as (st' & Hrun & _).
  rewrite Hrun. reflexivity.
Defined.

Lemma translation_filter_idempotent_witness :
  let sc := mkScenario no_fault [] echo in
  let translated r t :=
    assign_translation nat (services sc) (options 0) (region r) t in
  let regions := [translated "hello" "bonjour"; translated "1" "1"] in
  let st := mkSt 0%nat (initial_context page (options 0)) [] in
  exists kept st',
    filter_by_translation nat (services sc) (options 0) regions st
    = (Ok kept, st')
    /\ filter_by_translation nat (services sc) (options 0) kept st'
       = (Ok kept, st')
    /\ kept = [translated "hello" "bonjour"].
Proof.
  intros sc translated regions st.
  destruct (filter_by_translation nat (services sc) (options 0) regions st)
    as [[kept | e] st'] eqn:E; [ | vm_compute in E; discriminate ].
  exists kept, st'. split; [ reflexivity | ].
  split.
  - exact (proj1 (translation_filter_idempotent nat (services sc) (options 0)
                    regions st kept st' E)).
  - vm_compute in E. now inversion E.
Defined.

Lemma assign_translations_truncates_witness :
  let svc := services (mkScenario no_fault [] echo) in
  let o := options 0 in
  let regions := [region "one"; region "two"] in
  assign_translations nat svc o regions (["un"; "deux"] ++ ["trois"])
  = assign_translations nat svc o regions ["un"; "deux"]
  /\ nth_error (assign_translations nat svc o regions ["un"]) 1
     = Some (region "two").
Proof.
  intros svc o regions.
  destruct (assign_translations_truncates nat svc o regions ["un"; "deux"])
    as (_ & Hmore & _).
  destruct (assign_translations_truncates nat svc o regions ["un"])
    as (_ & _ & Hshort).
  split.
  - apply Hmore. simpl. lia.
  - rewrite Hshort; [ reflexivity | simpl; lia ].
Defined.

(** ** The stage sequence: early exits and what a stage never calls *)

Section StageFacts.
Variable W : Type.
Variable svc : Services W.
Variable self : Self W.

(** A report calls no service: it adds its own event and log lines only. *)
Lemma report_progress_framed {V} (view : Context -> V) allowed state finished :
  (forall s f, allowed (Progress s f) = true) ->
  (forall msg, allowed (LogInfo msg) = true) ->
  (forall msg, allowed (LogWarn msg) = true) ->
  (forall msg, allowed (LogErrorMsg msg) = true) ->
  framed view allowed (_report_progress W self state finished).
Proof.
  intros Hp Hi Hw He. unfold _report_progress, logger_hook.
  apply framed_bind; [ now apply framed_emit | intros _ ].
  apply framed_bind; [ | intros _; apply framed_run_hooks ].
  destruct (LOG_MESSAGES state); [ now apply framed_emit | ].
  destruct (LOG_MESSAGES_SKIP state); [ now apply framed_emit | ].
  destruct (LOG_MESSAGES_ERROR state);
    [ now apply framed_emit | apply framed_ret ].
Qed.

Lemma run_ocr_framed {V} (view : Context -> V) allowed :
  (forall regions, allowed (Call (DispatchOcr regions)) = true) ->
  (forall text, allowed (LogFiltered text) = true) ->
  framed view allowed (_run_ocr W svc self).
Proof.
  intros Hc Hf. unfold _run_ocr.
  apply framed_bind; [ apply framed_get_ctx | intros c ].
  apply framed_bind; [ now apply framed_call | intros regions ].
  now apply filter_by_text_framed.
Qed.

Lemma run_text_translation_framed {V} (view : Context -> V) allowed :
  (forall f c, view (set_text_regions f c) = view c) ->
  (forall chain queries,
      allowed (Call (DispatchTranslation chain queries)) = true) ->
  (forall text, allowed (LogFiltered text) = true) ->
  framed view allowed (_run_text_translation W svc self).
Proof.
  intros Hv Hc Hf. unfold _run_text_translation, regions_of.
  apply framed_bind; [ apply framed_get_ctx | intros c ].
  apply framed_bind;
    [ destruct (text_regions c); [ apply framed_ret | apply framed_raise ]
    | intros regions ].
  apply framed_bind; [ now apply framed_call | intros translated ].
  apply framed_bind; [ apply framed_update_ctx; intros; apply Hv | intros _ ].
  now apply filter_by_translation_framed.
Qed.

(** X8.  When the post-OCR filter drops every region, the attempt ends
    normally with the terminal report [skip-no-text]: the region list of the
    Context is empty, the result is left as it was, and no translation,
    mask-refinement, inpainting or rendering call is made. *)
Theorem no_text_ends_early (st sa sb st2 : St W) :
  truthy_list (text_regions (ctx st)) = true ->
  _report_progress W self "ocr" false st = (Ok tt, sa) ->
  _run_ocr W svc self sa = (Ok [], sb) ->
  _report_progress W self "skip-no-text" true
    (mkSt (world sb) (set_text_regions (Some []) (ctx sb)) (log sb))
    = (Ok tt, st2) ->
  _translate_regions W svc self st = (Ok tt, st2)
  /\ text_regions (ctx st2) = Some []
  /\ result (ctx st2) = result (ctx st)
  /\ exists l, log st2 = log st ++ l /\ forallb not_after_ocr l = true.
Proof.
  intros Hregions Hrep Hocr Hskip.
  split; [ | split ].
  - unfold _translate_regions, bind at 1, get_ctx. rewrite Hregions. simpl.
    unfold bind at 1. rewrite Hrep.
    unfold bind at 1. rewrite Hocr.
    unfold bind at 1, update_ctx. simpl. exact Hskip.
  - apply report_progress_ctx in Hskip. now rewrite Hskip.
  - assert (H1 : grows settled not_after_ocr st sa)
      by (eapply report_progress_framed; eauto).
    assert (H2 : grows settled not_after_ocr sa sb)
      by (eapply run_ocr_framed; eauto).
    assert (H3 : grows settled not_after_ocr sb
                   (mkSt (world sb) (set_text_regions (Some []) (ctx sb))
                      (log sb))).
    { split; [ reflexivity | ]. exists []. now rewrite app_nil_r. }
    assert (H4 : grows settled not_after_ocr
                   (mkSt (world sb) (set_text_regions (Some []) (ctx sb))
                      (log sb)) st2)
      by (eapply report_progress_framed; eauto).
    assert (G : grows settled not_after_ocr st st2).
    { eapply grows_trans; [ | exact H4 ].
      eapply grows_trans; [ | exact H3 ].
      eapply grows_trans; [ exact H1 | exact H2 ]. }
    destruct G as (Hv & l & Hl & Hal).
    unfold settled in Hv. injection Hv as _ _ Hres. eauto.
Qed.

(** X9.  When the post-translation filter drops every region, the attempt
    ends normally, not by an exception, with the terminal report
    [error-translating]: it is not retried, the result is left as it was,
    and no mask-refinement, inpainting or rendering call is made. *)
Theorem empty_translation_ends_early (st sa sb sc sd st2 : St W) regions :
  truthy_list (text_regions (ctx st)) = true ->
  _report_progress W self "ocr" false st = (Ok tt, sa) ->
  _run_ocr W svc self sa = (Ok regions, sb) ->
  truthy_list (Some regions) = true ->
  _report_progress W self "translating" false
    (mkSt (world sb) (set_text_regions (Some regions) (ctx sb)) (log sb))
    = (Ok tt, sc) ->
  _run_text_translation W svc self sc = (Ok [], sd) ->
  _report_progress W self "error-translating" true
    (mkSt (world sd) (set_text_regions (Some []) (ctx sd)) (log sd))
    = (Ok tt, st2) ->
  _translate_regions W svc self st = (Ok tt, st2)
  /\ text_regions (ctx st2) = Some []
  /\ result (ctx st2) = result (ctx st)
  /\ exists l, log st2 = log st ++ l /\ forallb not_after_translation l = true.
Proof.
  intros Hregions Hrep Hocr Hsome Hrep2 Htr Hend.
  split; [ | split ].
  - unfold _translate_regions, bind at 1, get_ctx. rewrite Hregions. simpl.
    unfold bind at 1. rewrite Hrep.
    unfold bind at 1. rewrite Hocr.
    destruct regions as [| region rest]; [ discriminate | ].
    unfold bind at 1, update_ctx. simpl.
    unfold bind at 1. rewrite Hrep2.
    unfold bind at 1. rewrite Htr.
    unfold bind at 1. simpl. exact Hend.
  - apply report_progress_ctx in Hend. now rewrite Hend.
  - assert (H1 : grows settled not_after_translation st sa)
      by (eapply report_progress_framed; eauto).
    assert (H2 : grows settled not_after_translation sa sb)
      by (eapply run_ocr_framed; eauto).
    assert (H3 : grows settled not_after_translation sb
                   (mkSt (world sb) (set_text_regions (Some regions) (ctx sb))
                      (log sb))).
    { split; [ reflexivity | ]. exists []. now rewrite app_nil_r. }
    assert (H4 : grows settled not_after_translation
                   (mkSt (world sb) (set_text_regions (Some regions) (ctx sb))
                      (log sb)) sc)
      by (eapply report_progress_framed; eauto).
    assert (H5 : grows settled not_after_translation sc sd)
      by (eapply run_text_translation_framed; eauto).
    assert (H6 : grows settled not_after_translation sd
                   (mkSt (world sd) (set_text_regions (Some []) (ctx sd))
                      (log sd))).
    { split; [ reflexivity | ]. exists []. now rewrite app_nil_r. }
    assert (H7 : grows settled not_after_translation
                   (mkSt (world sd) (set_text_regions (Some []) (ctx sd))
                      (log sd)) st2)
      by (eapply report_progress_framed; eauto).
    assert (G : grows settled not_after_translation st st2).
    { eapply grows_trans; [ | exact H7 ].
      eapply grows_trans; [ | exact H6 ].
      eapply grows_trans; [ | exact H5 ].
      eapply grows_trans; [ | exact H4 ].
      eapply grows_trans; [ | exact H3 ].
      eapply grows_trans; [ exact H1 | exact H2 ]. }
    destruct G as (Hv & l & Hl & Hal).
    unfold settled in Hv. injection Hv as _ _ Hres. eauto.
Qed.

End StageFacts.

Lemma no_text_ends_early_witness :
  let sc := mkScenario no_fault [] echo in
  let st := mkSt 0%nat
              (set_text_regions (Some [region "12"; region ""])
                 (initial_context page (options 0))) [] in
  exists st2,
    _translate_regions nat (services sc) (engine false []) st = (Ok tt, st2)
    /\ text_regions (ctx st2) = Some []
    /\ result (ctx st2) = None.
Proof.
  intros sc st.
  edestruct (no_text_ends_early nat (services sc) (engine false []) st)
    as (Hrun & Hregions & Hres & _).
  - reflexivity.
  - vm_compute. reflexivity.
  - vm_compute. reflexivity.
  - vm_compute. reflexivity.
  - eexists. split; [ exact Hrun | ]. split; [ exact Hregions | exact Hres ].
Defined.

Lemma empty_translation_ends_early_witness :
  let sc := mkScenario no_fault [] (map (fun _ => "1")) in
  let st := mkSt 0%nat
              (set_text_regions (Some [region "hello world"])
                 (initial_context page (options 0))) [] in
  exists st2,
    _translate_regions nat (services sc) (engine false []) st = (Ok tt, st2)
    /\ text_regions (ctx st2) = Some []
    /\ result (ctx st2) = None.
Proof.
  intros sc st.
  edestruct (empty_translation_ends_early nat (services sc) (engine false [])
               st) as (Hrun & Hregions & Hres & _).
  - reflexivity.
  - vm_compute. reflexivity.
  - vm_compute. reflexivity.
  - reflexivity.
  - vm_compute. reflexivity.
  - vm_compute. reflexivity.
  - vm_compute. reflexivity.
  - eexists. split; [ exact Hrun | ]. split; [ exact Hregions | exact Hres ].
Defined.

(** ** The result is written by a complete run only *)

Section ResultFacts.
Variable W : Type.
Variable svc : Services W.
Variable self : Self W.

Lemma dumped_or_kept_trans (st1 st2 st3 : St W) :
  dumped_or_kept st1 st2 -> dumped_or_kept st2 st3 -> dumped_or_kept st1 st3.
Proof.
  intros (l & Hl & H) (l' & Hl' & H').
  exists (l ++ l'). split; [ now rewrite Hl', Hl, app_assoc | ].
  rewrite existsb_app.
  destruct H as [H | H]; [ left; now rewrite H | ].
  destruct H' as [H' | H']; [ left; rewrite H'; apply orb_true_r | ].
  right. congruence.
Qed.

Lemma dumps_bind {A B} (m : M (St W) A) (k : A -> M (St W) B) :
  dumps m -> (forall a, dumps (k a)) -> dumps (bind m k).
Proof.
  intros Hm Hk st r st' H.
  apply bind_inv in H as [(a & s1 & H1 & H2) | (e & H1 & _)].
  - eapply dumped_or_kept_trans; [ eapply Hm | eapply Hk ]; eauto.
  - eapply Hm; eauto.
Qed.

Lemma framed_dumps {A} (m : M (St W) A) :
  framed settled any_event m -> dumps m.
Proof.
  intros Hm st r st' H. destruct (Hm st r st' H) as (Hv & l & Hl & _).
  exists l. split; [ exact Hl | right ].
  unfold settled in Hv. now injection Hv.
Qed.

(** Once the final image has been composed, whatever follows is covered. *)
Lemma dumps_after_dump {A B} (act : Act W A) (k : A -> M (St W) B) :
  (forall a, framed config any_event (k a)) ->
  dumps (bind (call DumpImage act) k).
Proof.
  intros Hk st r st' H.
  apply bind_inv in H as [(a & s1 & H1 & H2) | (e & H1 & _)].
  - unfold call, bind, emit, lift in H1. simpl in H1.
    destruct (act (world st)) as [[a' | e] w']; inversion H1; subst.
    destruct (Hk a _ _ _ H2) as (_ & l & Hl & _). simpl in Hl.
    exists (Call DumpImage :: l). split; [ now rewrite Hl, <- app_assoc | ].
    left. reflexivity.
  - unfold call, bind, emit, lift in H1. simpl in H1.
    destruct (act (world st)) as [[a' | e'] w']; inversion H1; subst.
    exists [Call DumpImage]. split; [ reflexivity | left; reflexivity ].
Qed.

Lemma translate_render_dumps : dumps (_translate_render W svc self).
Proof.
  unfold _translate_render, _run_mask_refinement, _run_inpainting,
    _run_text_rendering, ws_run_text_rendering, base_run_text_rendering,
    _report_progress, logger_hook.
  repeat lazymatch goal with
         | |- dumps (bind (call DumpImage _) _) =>
             apply dumps_after_dump; intros; repeat frame_step
         | |- dumps (bind _ _) =>
             apply dumps_bind;
             [ apply framed_dumps; repeat frame_step | intros ]
         end.
Qed.

(** X10.  An attempt changes the result of the Context only by composing
    the final image: if the stage sequence stops before [dump_image] is
    called, by an exception, an interruption or an early exit, the result
    is what it was before. *)
Theorem result_written_after_dump_only (st : St W) r st' :
  _translate W svc self st = (r, st') ->
  exists l,
    log st' = log st ++ l
    /\ (existsb is_dump l = true \/ result (ctx st') = result (ctx st)).
Proof.
  revert st r st'. change (dumps (_translate W svc self)).
  unfold _translate. apply dumps_bind; [ | intros _ ].
  - apply framed_dumps.
    unfold _translate_detect, _run_upscaling, _run_detection,
      _report_progress, logger_hook.
    repeat frame_step.
  - unfold _translate_regions.
    apply dumps_bind; [ apply framed_dumps, framed_get_ctx | intros c ].
    destruct (negb (truthy_list (text_regions c))).
    { apply framed_dumps. apply report_progress_framed; reflexivity. }
    apply dumps_bind;
      [ apply framed_dumps, report_progress_framed; reflexivity | intros _ ].
    apply dumps_bind;
      [ apply framed_dumps, run_ocr_framed; reflexivity | intros regions ].
    apply dumps_bind;
      [ apply framed_dumps, framed_update_ctx; reflexivity | intros _ ].
    destruct (negb (truthy_list (Some regions))).
    { apply framed_dumps. apply report_progress_framed; reflexivity. }
    apply dumps_bind;
      [ apply framed_dumps, report_progress_framed; reflexivity | intros _ ].
    apply dumps_bind;
      [ apply framed_dumps, run_text_translation_framed; reflexivity
      | intros regions' ].
    apply dumps_bind;
      [ apply framed_dumps, framed_update_ctx; reflexivity | intros _ ].
    destruct (negb (truthy_list (Some regions'))).
    { apply framed_dumps. apply report_progress_framed; reflexivity. }
    apply translate_render_dumps.
Qed.

End ResultFacts.

Lemma result_written_after_dump_only_witness :
  let sc := mkScenario (fault_always "rendering" (PyException "RuntimeError"))
              [region "hello world"] echo in
  let st := mkSt 0%nat (initial_context page (options 0)) [] in
  exists st',
    _translate nat (services sc) (engine false []) st
    = (Raise (PyException "RuntimeError"), st')
    /\ img_inpainted (ctx st') = Some (pixels page)
    /\ result (ctx st') = None.
Proof.
  intros sc st. eexists. split; [ vm_compute; reflexivity | ].
  split; [ reflexivity | ].
  edestruct (result_written_after_dump_only nat (services sc) (engine false [])
               st) as (l & Hl & [Hdump | Hkept]).
  - vm_compute. reflexivity.
  - simpl in Hl. subst l. vm_compute in Hdump. discriminate.
  - exact Hkept.
Defined.

(** ** A mask from the detector is used as it is *)

Section MaskFacts.
Variable W : Type.
Variable svc : Services W.
Variable self : Self W.
Variable m : ndarray.

Local Abbreviation masked x :=
  (forall (st : St W) r st',
      mask (ctx st) = Some m -> x st = (r, st') ->
      grows mask not_mask_refinement st st').

Lemma masked_bind {A B} (m1 : M (St W) A) (k : A -> M (St W) B) :
  masked m1 -> (forall a, masked (k a)) -> masked (bind m1 k).
Proof.
  intros H1 Hk st r st' Hm H.
  apply bind_inv in H as [(a & s1 & Ha & Hb) | (e & Ha & _)].
  - pose proof (H1 st _ s1 Hm Ha) as G.
    eapply grows_trans; [ exact G | ].
    eapply Hk; [ | exact Hb ]. destruct G as (Hv & _). congruence.
  - eapply H1; eauto.
Qed.

Lemma framed_masked {A} (x : M (St W) A) :
  framed mask not_mask_refinement x -> masked x.
Proof. intros Hx st r st' _ H. eapply Hx; eauto. Qed.

Lemma masked_get_ctx {B} (k : Context -> M (St W) B) :
  (forall c, mask c = Some m -> masked (k c)) -> masked (bind get_ctx k).
Proof.
  intros Hk st r st' Hm H. unfold bind, get_ctx in H.
  eapply Hk; eauto.
Qed.

Lemma translate_render_masked : masked (_translate_render W svc self).
Proof.
  unfold _translate_render. apply masked_get_ctx. intros c Hc.
  rewrite Hc. unfold when at 1. cbv iota. apply framed_masked.
  unfold _run_inpainting, _run_text_rendering, ws_run_text_rendering,
    base_run_text_rendering, _report_progress, logger_hook.
  repeat frame_step.
Qed.

(** X11.  When the detector has put a refined mask on the Context, the rest
    of the attempt never calls the mask-refinement service and never
    replaces that mask: inpainting works on the detector's mask. *)
Theorem detector_mask_skips_refinement (st : St W) r st' :
  mask (ctx st) = Some m ->
  _translate_regions W svc self st = (r, st') ->
  mask (ctx st') = Some m
  /\ exists l, log st' = log st ++ l /\ forallb not_mask_refinement l = true.
Proof.
  intros Hm H.
  assert (G : grows mask not_mask_refinement st st').
  { revert st r st' Hm H. unfold _translate_regions.
    apply masked_get_ctx. intros c Hc.
    destruct (negb (truthy_list (text_regions c))).
    { apply framed_masked, report_progress_framed; reflexivity. }
    apply masked_bind;
      [ apply framed_masked, report_progress_framed; reflexivity | intros _ ].
    apply masked_bind;
      [ apply framed_masked, run_ocr_framed; reflexivity | intros regions ].
    apply masked_bind;
      [ apply framed_masked, framed_update_ctx; reflexivity | intros _ ].
    destruct (negb (truthy_list (Some regions))).
    { apply framed_masked, report_progress_framed; reflexivity. }
    apply masked_bind;
      [ apply framed_masked, report_progress_framed; reflexivity | intros _ ].
    apply masked_bind;
      [ apply framed_masked, run_text_translation_framed; reflexivity
      | intros regions' ].
    apply masked_bind;
      [ apply framed_masked, framed_update_ctx; reflexivity | intros _ ].
    destruct (negb (truthy_list (Some regions'))).
    { apply framed_masked, report_progress_framed; reflexivity. }
    apply translate_render_masked. }
  destruct G as (Hv & l & Hl & Hal). split; [ congruence | eauto ].
Qed.

End MaskFacts.

Lemma detector_mask_skips_refinement_witness :
  let sc := mkScenario no_fault [] echo in
  let st := mkSt 0%nat
              (set_mask (Some [7; 7])
                 (set_text_regions (Some [region "hello world"])
                    (set_img_rgb (Some (pixels page))
                       (initial_context page (options 0))))) [] in
  let '(r, st') := _translate_regions nat (services sc) (engine false []) st in
  r = Ok tt
  /\ mask (ctx st') = Some [7; 7]
  /\ forallb not_mask_refinement (log st') = true
  /\ result (ctx st') = Some (mkImage 2 1 (pixels page)).
Proof.
  intros sc st.
  destruct (_translate_regions nat (services sc) (engine false []) st)
    as [r st'] eqn:E.
  destruct (detector_mask_skips_refinement nat (services sc) (engine false [])
              [7; 7] st r st' eq_refl E) as (Hmask & l & Hl & Hal).
  simpl in Hl. subst l.
  vm_compute in E. inversion E; subst.
  repeat split.
Defined.

Lemma report_progress_hook_raises_witness :
  let hooks := [interrupt_at "ocr"; interrupt_on "detection";
                interrupt_on "detection"] in
  let self := engine false hooks in
  let st := mkSt 5%nat (initial_context page (options 0)) [] in
  exists st',
    _report_progress nat self "detection" false st
    = (Raise TranslationInterrupt, st')
    /\ world st' = 5%nat.
Proof.
  intros hooks self st. eexists. split.
  - eapply (report_progress_hook_raises nat self [interrupt_at "ocr"]
              (interrupt_on "detection") [interrupt_on "detection"]
              "detection" false st).
    + reflexivity.
    + vm_compute. reflexivity.
    + vm_compute. reflexivity.
    + vm_compute. reflexivity.
  - reflexivity.
Defined.

(** * Dicts of parameters *)

Section DictFacts.
Import PyDict.

Lemma get_set_same k v d : get k (set k v d) = v.
Proof.
  induction d as [| [k' v'] rest IH]; simpl.
  - now rewrite String.eqb_refl.
  - destruct (String.eqb k k') eqn:E; simpl.
    + now rewrite String.eqb_refl.
    + now rewrite E.
Qed.

Lemma get_set_other k k' v d : k <> k' -> get k' (set k v d) = get k' d.
Proof.
  intros Hne. apply String.eqb_neq in Hne.
  induction d as [| [k0 v0] rest IH]; simpl.
  - now rewrite String.eqb_sym, Hne.
  - destruct (String.eqb k k0) eqn:E; simpl.
    + apply String.eqb_eq in E. subst k0.
      now rewrite String.eqb_sym, Hne.
    + now rewrite IH.
Qed.

Lemma contains_false k d : ~ In k (map fst d) -> contains k d = false.
Proof.
  induction d as [| [k' v'] rest IH]; simpl; [ reflexivity | ].
  intros H. apply orb_false_iff. split.
  - apply String.eqb_neq. intros ->. auto.
  - apply IH. auto.
Qed.

Lemma get_absent k d : ~ In k (map fst d) -> get k d = VNone.
Proof.
  induction d as [| [k' v'] rest IH]; simpl; [ reflexivity | ].
  intros H. destruct (String.eqb_spec k k'); [ subst; tauto | ]. auto.
Qed.

Lemma merge_step k k0 v0 acc :
  is_none (get k acc) = false ->
  get k (set k0 (if is_none (get k0 acc) then v0 else get k0 acc) acc)
  = get k acc.
Proof.
  intros Hk. destruct (String.eqb_spec k0 k) as [-> | Hne].
  - now rewrite Hk, get_set_same.
  - now apply get_set_other.
Qed.

Lemma merge_keeps_present defaults : forall params k,
  is_none (get k params) = false ->
  get k (merge_defaults defaults params) = get k params.
Proof.
  unfold merge_defaults.
  induction defaults as [| [k0 v0] rest IH]; intros params k Hk; simpl.
  - reflexivity.
  - rewrite IH; simpl.
    + now apply merge_step.
    + now rewrite merge_step.
Qed.

Lemma merge_other defaults : forall params k,
  ~ In k (map fst defaults) ->
  get k (merge_defaults defaults params) = get k params.
Proof.
  unfold merge_defaults.
  induction defaults as [| [k0 v0] rest IH]; intros params k Hk; simpl.
  - reflexivity.
  - simpl in Hk. rewrite IH by tauto. simpl.
    apply get_set_other. intros ->. tauto.
Qed.

(** X12.  Merging the configured defaults into the params of a task: a key
    whose value in the task is not [None] keeps that value; a key that is
    missing or [None] in the task takes the default; a key without a
    default is left as it is. *)
Theorem merge_defaults_lookup defaults params k :
  (is_none (get k params) = false ->
   get k (merge_defaults defaults params) = get k params)
  /\ (forall dv,
        NoDup (map fst defaults) ->
        In (k, dv) defaults ->
        is_none (get k params) = true ->
        get k (merge_defaults defaults params) = dv)
  /\ (~ In k (map fst defaults) ->
      get k (merge_defaults defaults params) = get k params).
Proof.
  split; [ apply merge_keeps_present | split; [ | apply merge_other ] ].
  intros dv Hnd Hin Hk. revert params Hk.
  induction defaults as [| [k0 v0] rest IH]; intros params Hk;
    [ contradiction | ].
  simpl in Hnd. inversion Hnd as [| ? ? Hnot Hnd']; subst.
  change (merge_defaults ((k0, v0) :: rest) params)
    with (merge_defaults rest
            (set k0 (if is_none (get k0 params) then v0 else get k0 params)
               params)).
  destruct Hin as [Heq | Hin].
  - inversion Heq; subst. rewrite merge_other by exact Hnot.
    now rewrite Hk, get_set_same.
  - assert (Hne : k0 <> k).
    { intros ->. apply Hnot. now apply (in_map fst) in Hin. }
    apply IH; auto. now rewrite get_set_other.
Qed.


Lemma update_lookup over : forall base k,
  NoDup (map fst over) ->
  get k (update base over)
  = if contains k over then get k over else get k base.
Proof.
  unfold update.
  induction over as [| [k0 v0] rest IH]; intros base k Hnd; simpl.
  - reflexivity.
  - inversion Hnd as [| ? ? Hnot Hnd']; subst.
    rewrite IH by exact Hnd'.
    destruct (String.eqb_spec k k0) as [-> | Hne]; simpl.
    + rewrite (contains_false _ _ Hnot). apply get_set_same.
    + destruct (contains k rest); [ reflexivity | ].
      apply get_set_other. congruence.
Qed.

Lemma get_del_other k k' d : k <> k' -> get k' (del k d) = get k' d.
Proof.
  intros Hne. induction d as [| [k0 v0] rest IH]; simpl; [ reflexivity | ].
  destruct (String.eqb_spec k k0) as [-> | Hk]; simpl.
  - destruct (String.eqb_spec k' k0); [ congruence | reflexivity ].
  - now rewrite IH.
Qed.

Lemma keys_del_subset k d k' :
  In k' (map fst (del k d)) -> In k' (map fst d).
Proof.
  induction d as [| [k0 v0] rest IH]; simpl; [ auto | ].
  destruct (String.eqb k k0); simpl; tauto.
Qed.

Lemma NoDup_del k d : NoDup (map fst d) -> NoDup (map fst (del k d)).
Proof.
  induction d as [| [k0 v0] rest IH]; simpl; intros H; [ exact H | ].
  inversion H as [| ? ? Hnot Hnd]; subst.
  destruct (String.eqb k k0); [ exact Hnd | ]. simpl.
  constructor; [ | auto ]. intros Hin. apply Hnot. eapply keys_del_subset; eauto.
Qed.

Lemma del_removes k d : NoDup (map fst d) -> ~ In k (map fst (del k d)).
Proof.
  induction d as [| [k0 v0] rest IH]; simpl; intros H; [ tauto | ].
  inversion H as [| ? ? Hnot Hnd]; subst.
  destruct (String.eqb_spec k k0) as [-> | Hne]; [ exact Hnot | ].
  simpl. intros [Heq | Hin]; [ congruence | ]. now apply IH.
Qed.

Lemma drop_key_spec k d :
  NoDup (map fst d) ->
  NoDup (map fst (SyncServer.drop_key k d))
  /\ ~ In k (map fst (SyncServer.drop_key k d))
  /\ (forall k', k <> k' ->
        get k' (SyncServer.drop_key k d) = get k' d
        /\ contains k' (SyncServer.drop_key k d) = contains k' d).
Proof.
  intros Hnd. unfold SyncServer.drop_key.
  destruct (contains k d) eqn:E.
  - split; [ now apply NoDup_del | split; [ now apply del_removes | ] ].
    intros k' Hne. split; [ now apply get_del_other | ].
    clear Hnd E. induction d as [| [k0 v0] rest IH]; simpl; [ reflexivity | ].
    destruct (String.eqb_spec k k0) as [-> | Hk]; simpl.
    + destruct (String.eqb_spec k' k0); [ congruence | reflexivity ].
    + now rewrite IH.
  - split; [ exact Hnd | split; [ | auto ] ].
    intros Hin. clear Hnd.
    induction d as [| [k0 v0] rest IH]; simpl in *; [ tauto | ].
    apply orb_false_iff in E as [E1 E2].
    apply String.eqb_neq in E1. destruct Hin; [ congruence | auto ].
Qed.

(** X14.  The params the REST facade hands to the pipeline are the server's
    defaults overridden by the fields of the request, except that [image],
    [base64Images] and [url] are never taken from the request. *)
Theorem pipeline_params_lookup defaults data k :
  NoDup (map fst data) ->
  let p := update defaults
             (SyncServer.drop_key "url"
                (SyncServer.drop_key "base64Images"
                   (SyncServer.drop_key "image" data))) in
  (k = "image" \/ k = "base64Images" \/ k = "url" ->
   get k p = get k defaults)
  /\ (k <> "image" -> k <> "base64Images" -> k <> "url" ->
      get k p = if contains k data then get k data else get k defaults).
Proof.
  intros Hnd p. subst p.
  destruct (drop_key_spec "image" data Hnd) as (N1 & A1 & S1).
  destruct (drop_key_spec "base64Images" _ N1) as (N2 & A2 & S2).
  destruct (drop_key_spec "url" _ N2) as (N3 & A3 & S3).
  rewrite update_lookup by exact N3.
  split.
  - intros [-> | [-> | ->]].
    + destruct (S3 "image" ltac:(discriminate)) as [_ ->].
      destruct (S2 "image" ltac:(discriminate)) as [_ ->].
      now rewrite (contains_false _ _ A1).
    + destruct (S3 "base64Images" ltac:(discriminate)) as [_ ->].
      now rewrite (contains_false _ _ A2).
    + now rewrite (contains_false _ _ A3).
  - intros H1 H2 H3.
    destruct (S3 k ltac:(congruence)) as [-> ->].
    destruct (S2 k ltac:(congruence)) as [-> ->].
    destruct (S1 k ltac:(congruence)) as [-> ->].
    reflexivity.
Qed.

End DictFacts.

Lemma merge_defaults_lookup_witness :
  let defaults := [("translator", VStr "google"); ("size", VStr "M")] in
  let params := [("translator", VStr "deepl"); ("size", VNone)] in
  PyDict.get "translator" (PyDict.merge_defaults defaults params) = VStr "deepl"
  /\ PyDict.get "size" (PyDict.merge_defaults defaults params) = VStr "M"
  /\ PyDict.get "manual" (PyDict.merge_defaults defaults params) = VNone.
Proof.
  intros defaults params.
  destruct (merge_defaults_lookup defaults params "translator") as (H1 & _ & _).
  destruct (merge_defaults_lookup defaults params "size") as (_ & H2 & _).
  destruct (merge_defaults_lookup defaults params "manual") as (_ & _ & H3).
  split; [ | split ].
  - rewrite H1; reflexivity.
  - apply H2; [ | simpl; auto | reflexivity ].
    repeat constructor; simpl; intuition discriminate.
  - rewrite H3; [ reflexivity | ]. simpl. intuition discriminate.
Defined.


Lemma pipeline_params_lookup_witness :
  let data := [("size", VStr "Q"); ("url", VStr "http://host/p.png")] in
  let p := PyDict.update Samples.defaults
             (SyncServer.drop_key "url"
                (SyncServer.drop_key "base64Images"
                   (SyncServer.drop_key "image" data))) in
  PyDict.get "url" p = VNone /\ PyDict.get "size" p = VStr "Q".
Proof.
  intros data p.
  assert (Hnd : NoDup (map fst data)).
  { repeat constructor; simpl; intuition discriminate. }
  destruct (pipeline_params_lookup Samples.defaults data "url" Hnd)
    as (Hurl & _).
  destruct (pipeline_params_lookup Samples.defaults data "size" Hnd)
    as (_ & Hsize).
  split.
  - subst p. rewrite Hurl; [ reflexivity | auto ].
  - subst p. rewrite Hsize; [ reflexivity | | | ]; discriminate.
Defined.

(** ** Hooks are called in registration order *)

(** X15.  The progress hooks run one after the other in registration
    order, each in the world the previous one left; when one raises, the
    hooks registered after it are not called. *)
Theorem hooks_run_in_order W pre (ph : Hook W) post state finished
  (st st1 : St W) :
  run_hooks pre state finished st = (Ok tt, st1) ->
  (forall w', ph state finished (world st1) = (Ok tt, w') ->
     run_hooks (pre ++ ph :: post) state finished st
     = run_hooks post state finished (mkSt w' (ctx st1) (log st1)))
  /\ (forall e w', ph state finished (world st1) = (Raise e, w') ->
        run_hooks (pre ++ ph :: post) state finished st
        = (Raise e, mkSt w' (ctx st1) (log st1))).
Proof.
  intros Hpre. split; intros; rewrite run_hooks_app, Hpre; simpl;
    unfold bind, lift; now rewrite H.
Qed.

Lemma hooks_run_in_order_witness :
  let count : Hook nat := fun _ _ tick => (Ok tt, S tick) in
  let st := mkSt 5%nat (initial_context page (options 0)) [] in
  run_hooks [count; count; interrupt_on "detection"; count] "detection" false st
  = (Raise TranslationInterrupt, mkSt 7%nat (ctx st) (log st)).
Proof.
  intros count st.
  apply (proj2 (hooks_run_in_order nat [count; count]
                  (interrupt_on "detection") [count] "detection" false st
                  (mkSt 7%nat (ctx st) (log st)) eq_refl)
           TranslationInterrupt 7%nat eq_refl).
Defined.

(** * Further properties of the REST facade *)

Section ApiFacts.
Import SyncServer.
Variable W : Type.
Variable tb : Tables.
Variable http_get : string -> Act W (Z * string).
Variable params : PyDict.dict.
Variable func : PyDict.dict -> FileArg -> Act W Context.
Variable format : Context -> Res Response.

Local Abbreviation serve := (err_handling W tb http_get params func format).
Local Abbreviation run := (handle W tb http_get params func format).

Lemma deserialize_raises f v e :
  deserialize tb f v = Raise e -> exists msg, e = ValidationError msg.
Proof.
  unfold deserialize.
  destruct v; destruct f; simpl;
    repeat match goal with
           | |- context [if ?b then _ else _] => destruct b
           | |- context [match ?x with Some _ => _ | None => _ end] =>
               destruct x
           end;
    intros H; inversion H; eauto.
Qed.

(** The schema refuses a request with a ValidationError and nothing else. *)
Lemma schema_load_raises d : forall e,
  schema_load tb d = Raise e -> exists msg, e = ValidationError msg.
Proof.
  induction d as [| [name v] rest IH]; simpl; intros e H; [ discriminate | ].
  destruct (PostSchema tb name) as [f |]; [ | inversion H; eauto ].
  destruct (deserialize tb f v) as [v' | e1] eqn:E1.
  - destruct (schema_load tb rest) as [data | e2]; [ discriminate | ].
    inversion H; subst. now apply IH.
  - inversion H; subst. eapply deserialize_raises; eauto.
Qed.

(** X16.  What the REST facade refuses before anything is fetched, decoded
    or run: another content type gets a 415, a body that cannot be parsed a
    422 [Wrong input type], fields the schema refuses a 422 [Input
    invalid]; in each case the state is untouched.  And no ValueError or
    ValidationError ever leaves the handler. *)
Theorem requests_refused_before_run req (st : ApiSt W) :
  (supported (content_type req) = false ->
   serve req st
   = (Ok (json_response
            [("error",
              VStr ("Wrong content type: " ++ content_type req)%string);
             ("status", VInt 415)] (Some 415)), st))
  /\ (forall cls,
        supported (content_type req) = true ->
        payload req = Raise (ValueError cls) ->
        serve req st
        = (Ok (json_response
                 [("error", VStr "Wrong input type"); ("status", VInt 422)]
                 (Some 422)), st))
  /\ (forall d e,
        supported (content_type req) = true ->
        payload req = Ok d ->
        schema_load tb d = Raise e ->
        serve req st
        = (Ok (json_response
                 [("error", VStr "Input invalid"); ("status", VInt 422)]
                 (Some 422)), st))
  /\ (forall e st',
        serve req st = (Raise e, st') ->
        (forall cls, e <> ValueError cls)
        /\ (forall msg, e <> ValidationError msg)).
Proof.
  split; [ | split; [ | split ] ].
  - intros Hs. unfold err_handling, handle. now rewrite Hs.
  - intros cls Hs Hp. unfold err_handling, handle. rewrite Hs, Hp.
    reflexivity.
  - intros d e Hs Hp Hl.
    destruct (schema_load_raises d e Hl) as (msg & ->).
    unfold err_handling, handle. rewrite Hs, Hp.
    unfold bind at 1. rewrite (lift_res_run W).
    unfold bind at 1. rewrite Hl, (lift_res_run W). reflexivity.
  - intros e st' H. unfold err_handling in H.
    destruct (run req st) as [[resp | e0] s1]; [ discriminate | ].
    destruct e0; inversion H; subst; split; intros; discriminate.
Qed.

Lemma lift_res_inv {A} (r0 : Res A) (st : ApiSt W) r st' :
  lift_res W r0 st = (r, st') -> r = r0 /\ st' = st.
Proof. unfold lift_res. intros H. now inversion H. Qed.

Lemma read_content_keeps_invoked image b64 url (st : ApiSt W) r st' :
  read_content W tb http_get image b64 url st = (r, st') ->
  invoked st' = invoked st
  /\ (forall resp, r = Ok (inr resp) ->
        resp = json_response [("status", VStr "error")] None).
Proof.
  unfold read_content.
  destruct image;
    try (intros H; inversion H; split; [ reflexivity | discriminate ]).
  destruct b64;
    try (intros H; inversion H; split; [ reflexivity | discriminate ]).
  - destruct url;
      try (intros H; inversion H; split; [ reflexivity | discriminate ]).
    unfold bind, lift_world.
    destruct (http_get s (api_world st)) as [[[status c] | e] w'];
      [ | intros H; inversion H; split; [ reflexivity | discriminate ] ].
    destruct (status =? 200); intros H; inversion H; subst;
      (split; [ reflexivity | ]); intros resp Hr; inversion Hr; reflexivity.
  - unfold bind. rewrite (lift_res_run W).
    destruct (b64decode tb _); intros H; inversion H;
      split; try reflexivity; discriminate.
Qed.

Lemma check_image_bound content (st : ApiSt W) r st' :
  check_image W tb content st = (r, st') ->
  st' = st /\ (forall img, r = Ok img -> width img * height img <= 8000 ^ 2).
Proof.
  unfold check_image, bind. rewrite !(lift_res_run W).
  destruct (Image_open tb content) as [img |];
    [ | intros H; inversion H; split; [ reflexivity | discriminate ] ].
  rewrite (lift_res_run W).
  destruct (Image_verify tb img);
    [ | intros H; inversion H; split; [ reflexivity | discriminate ] ].
  rewrite (lift_res_run W).
  destruct (8000 ^ 2 <? width img * height img) eqn:E;
    intros H; inversion H; subst; (split; [ reflexivity | ]).
  - discriminate.
  - intros img' Hr. inversion Hr; subst. now apply Z.ltb_ge.
Qed.

Lemma get_file_acceptable image b64 url (st : ApiSt W) r st' :
  get_file W tb http_get image b64 url st = (r, st') ->
  invoked st' = invoked st /\ (forall fil, r = Ok fil -> acceptable fil).
Proof.
  unfold get_file. intros H.
  apply bind_inv in H as [(got & s1 & Hread & H) | (e & Hread & ->)].
  - apply read_content_keeps_invoked in Hread as (Hinv & Hresp).
    destruct got as [content | resp].
    + apply bind_inv in H as [(img & s2 & Hc & H) | (e & Hc & ->)];
        apply check_image_bound in Hc as (-> & Hb).
      * inversion H; subst. split; [ exact Hinv | ].
        intros fil Hf. inversion Hf; subst. simpl. now apply Hb.
      * split; [ exact Hinv | discriminate ].
    + inversion H; subst. split; [ exact Hinv | ].
      intros fil Hf. inversion Hf; subst. simpl. now apply Hresp.
  - apply read_content_keeps_invoked in Hread as (Hinv & _).
    split; [ exact Hinv | discriminate ].
Qed.

Lemma handle_invokes_once req (st : ApiSt W) r st' :
  run req st = (r, st') ->
  invoked st' = invoked st
  \/ exists p fil, invoked st' = invoked st ++ [(p, fil)] /\ acceptable fil.
Proof.
  unfold handle. destruct (supported (content_type req));
    [ | intros H; inversion H; now left ].
  intros H.
  apply bind_inv in H as [(d & s1 & Hp & H) | (e & Hp & _)];
    apply lift_res_inv in Hp as (_ & ->); [ | now left ].
  apply bind_inv in H as [(data & s2 & Hl & H) | (e & Hl & _)];
    apply lift_res_inv in Hl as (_ & ->); [ | now left ].
  destruct (PyDict.is_none (PyDict.get "image" data)
            && PyDict.is_none (PyDict.get "base64Images" data)
            && PyDict.is_none (PyDict.get "url" data));
    [ inversion H; now left | ].
  apply bind_inv in H as [(fil & s3 & Hg & H) | (e & Hg & _)];
    apply get_file_acceptable in Hg as (Hinv & Hacc); [ | now left ].
  right. exists (PyDict.update params
                   (drop_key "url" (drop_key "base64Images"
                      (drop_key "image" data)))), fil.
  split; [ | now apply Hacc ].
  apply bind_inv in H as [(c & s4 & Hc & H) | (e & Hc & _)];
    unfold call_func in Hc;
    destruct (func _ fil (api_world s3)) as [rc w']; inversion Hc; subst.
  - apply lift_res_inv in H as (_ & ->). simpl. now rewrite Hinv.
  - simpl. now rewrite Hinv.
Qed.

(** X17.  Serving one request invokes the pipeline at most once, and what
    it hands over as the image is either a decoded image of at most
    8000*8000 pixels or the reply built for a remote fetch that did not
    answer 200: an oversized image never reaches the pipeline. *)
Theorem pipeline_invoked_once_within_bounds req (st : ApiSt W) r st' :
  serve req st = (r, st') ->
  invoked st' = invoked st
  \/ exists p fil, invoked st' = invoked st ++ [(p, fil)] /\ acceptable fil.
Proof.
  unfold err_handling.
  destruct (run req st) as [r0 s1] eqn:E.
  apply handle_invokes_once in E.
  destruct r0 as [resp | e]; [ intros H; inversion H; subst; exact E | ].
  destruct e; intros H; inversion H; subst; exact E.
Qed.

(** X18.  A remote fetch that answers with a status other than 200 is not
    refused: [get_file] returns the reply [{'status': 'error'}] in place of
    an image and the handler passes it to the pipeline. *)
Theorem failed_fetch_reaches_pipeline req d data u status content w'
  (st : ApiSt W) :
  supported (content_type req) = true ->
  payload req = Ok d ->
  schema_load tb d = Ok data ->
  PyDict.get "image" data = VNone ->
  PyDict.get "base64Images" data = VNone ->
  PyDict.get "url" data = VStr u ->
  http_get u (api_world st) = (Ok (status, content), w') ->
  status <> 200 ->
  exists r st',
    serve req st = (r, st')
    /\ invoked st'
       = invoked st
         ++ [(PyDict.update params
                (drop_key "url" (drop_key "base64Images"
                   (drop_key "image" data))),
              FResponse (json_response [("status", VStr "error")] None))].
Proof.
  intros Hs Hp Hl Hi Hb Hu Hget Hst.
  unfold err_handling.
  rewrite (handle_loaded W tb http_get params func format req d data st
             Hs Hp Hl), Hi, Hb, Hu. simpl.
  unfold get_file, read_content, bind at 1 2 3. unfold lift_world at 1.
  rewrite Hget.
  replace (status =? 200) with false by (symmetry; now apply Z.eqb_neq).
  unfold ret at 1 2. unfold bind at 1. unfold call_func at 1. simpl.
  destruct (func _ _ w') as [[c | e] w''].
  - destruct (lift_res W (format c) _) as [[resp | e] s'] eqn:E;
      unfold lift_res in E; inversion E; subst.
    + eexists _, _. split; reflexivity.
    + destruct e; eexists _, _; split; reflexivity.
  - destruct e; eexists _, _; split; reflexivity.
Qed.

End ApiFacts.


Section ApiWitnesses.
Import SyncServer Samples.

Lemma requests_refused_before_run_witness :
  api (mkRequest "text/plain" (Ok []))
  = (Ok (json_response
           [("error", VStr "Wrong content type: text/plain");
            ("status", VInt 415)] (Some 415)), mkApiSt 0%nat [])
  /\ api (mkRequest "application/json" (Raise (ValueError "JSONDecodeError")))
     = (Ok (json_response
              [("error", VStr "Wrong input type"); ("status", VInt 422)]
              (Some 422)), mkApiSt 0%nat [])
  /\ api (multipart [("image", VFile "abc"); ("colour", VStr "red")])
     = (Ok (json_response
              [("error", VStr "Input invalid"); ("status", VInt 422)]
              (Some 422)), mkApiSt 0%nat []).
Proof.
  unfold api.
  destruct (requests_refused_before_run nat tables http_get defaults pipeline
              format_translate (mkRequest "text/plain" (Ok []))
              (mkApiSt 0%nat [])) as (H415 & _).
  destruct (requests_refused_before_run nat tables http_get defaults pipeline
              format_translate
              (mkRequest "application/json"
                 (Raise (ValueError "JSONDecodeError")))
              (mkApiSt 0%nat [])) as (_ & Hbody & _).
  destruct (requests_refused_before_run nat tables http_get defaults pipeline
              format_translate
              (multipart [("image", VFile "abc"); ("colour", VStr "red")])
              (mkApiSt 0%nat [])) as (_ & _ & Hschema & _).
  split; [ exact (H415 eq_refl) | split ].
  - exact (Hbody "JSONDecodeError" eq_refl eq_refl).
  - exact (Hschema [("image", VFile "abc"); ("colour", VStr "red")]
             (ValidationError "Unknown field.") eq_refl eq_refl eq_refl).
Defined.

Lemma pipeline_invoked_once_within_bounds_witness :
  let served := api (multipart [("image", VFile "huge")]) in
  fst served
  = Ok (json_response
          [("error", VStr "Input invalid"); ("status", VInt 422)] (Some 422))
  /\ (invoked (snd served) = []
      \/ exists p fil,
           invoked (snd served) = [] ++ [(p, fil)] /\ acceptable fil).
Proof.
  intros served. split; [ reflexivity | ].
  apply (pipeline_invoked_once_within_bounds nat tables http_get defaults
           pipeline format_translate (multipart [("image", VFile "huge")])
           (mkApiSt 0%nat []) (fst served) (snd served)).
  apply surjective_pairing.
Defined.

Lemma failed_fetch_reaches_pipeline_witness :
  let gone : string -> Act nat (Z * string) :=
    fun _ tick => (Ok (404, "not found"), S tick) in
  exists r st',
    err_handling nat tables gone defaults pipeline format_translate
      (multipart [("url", VStr "http://host/page.png"); ("size", VStr "XL")])
      (mkApiSt 0%nat [])
    = (r, st')
    /\ invoked st'
       = [] ++ [(PyDict.update defaults
                   (drop_key "url" (drop_key "base64Images"
                      (drop_key "image"
                         [("url", VStr "http://host/page.png");
                          ("size", VStr "XL")]))),
                 FResponse (json_response [("status", VStr "error")] None))].
Proof.
  intros gone.
  apply (failed_fetch_reaches_pipeline nat tables gone defaults pipeline
           format_translate
           (multipart [("url", VStr "http://host/page.png");
                       ("size", VStr "XL")])
           [("url", VStr "http://host/page.png"); ("size", VStr "XL")]
           [("url", VStr "http://host/page.png"); ("size", VStr "XL")]
           "http://host/page.png" 404 "not found" 1%nat (mkApiSt 0%nat [])).
  - reflexivity.
  - reflexivity.
  - reflexivity.
  - reflexivity.
  - reflexivity.
  - reflexivity.
  - reflexivity.
  - discriminate.
Defined.

End ApiWitnesses.

(** * The base64 field with and without a data-URI head *)

Lemma substring_whole s : substring 0 (String.length s) s = s.
Proof. induction s as [| c r IH]; simpl; [ reflexivity | now rewrite IH ]. Qed.

Lemma no_comma_cons c s :
  no_comma (String c s) = negb (Ascii.eqb c ",") && no_comma s.
Proof. reflexivity. Qed.

Ltac split_commas :=
  repeat match goal with
         | H : no_comma (String _ _) = true |- _ =>
             rewrite no_comma_cons in H;
             apply andb_true_iff in H as [? H]
         end.

Ltac decide_chars :=
  repeat match goal with
         | |- context [ascii_dec ?a ?b] =>
             destruct (ascii_dec a b); try subst; try discriminate
         end.

(** No text made of one comma-free character followed by anything that
    has no comma among its first six characters starts with the marker. *)
Lemma marker_not_at_head c h p :
  no_comma (String c h) = true ->
  String.prefix "base64," (String c h ++ "base64," ++ p) = false.
Proof.
  intros H.
  destruct h as [| c1 [| c2 [| c3 [| c4 [| c5 [| c6 h]]]]]];
    split_commas; cbn [append String.prefix];
    decide_chars; try reflexivity;
    match goal with
    | Hc : negb (Ascii.eqb "," ",") = true |- _ => discriminate Hc
    end.
Qed.

Lemma after_first_marker h p :
  no_comma h = true ->
  PyStr.after_first "base64," (h ++ "base64," ++ p) = Some p.
Proof.
  induction h as [| c h IH]; intros H.
  - cbn. replace (String.prefix "" p) with true by (now destruct p).
    now rewrite Nat.sub_0_r, substring_whole.
  - change (PyStr.after_first "base64," (String c h ++ "base64," ++ p))
      with (if String.prefix "base64," (String c h ++ "base64," ++ p)
            then Some (substring (String.length "base64,")
                         (String.length (String c h ++ "base64," ++ p)
                          - String.length "base64,")
                         (String c h ++ "base64," ++ p))
            else PyStr.after_first "base64," (h ++ "base64," ++ p)).
    rewrite (marker_not_at_head c h p H).
    rewrite no_comma_cons in H. apply andb_true_iff in H as [_ H].
    now apply IH.
Qed.

Lemma prefix_has_comma s :
  String.prefix "base64," s = true -> no_comma s = false.
Proof.
  destruct s as [| c0 [| c1 [| c2 [| c3 [| c4 [| c5 [| c6 s]]]]]]];
    cbn [String.prefix]; decide_chars; try discriminate.
  intros _. cbn. reflexivity.
Qed.

Lemma after_first_no_marker p :
  no_comma p = true -> PyStr.after_first "base64," p = None.
Proof.
  induction p as [| c p IH]; intros H; [ reflexivity | ].
  change (PyStr.after_first "base64," (String c p))
    with (if String.prefix "base64," (String c p)
          then Some (substring (String.length "base64,")
                       (String.length (String c p)
                        - String.length "base64,") (String c p))
          else PyStr.after_first "base64," p).
  destruct (String.prefix "base64," (String c p)) eqn:E.
  - apply prefix_has_comma in E. congruence.
  - rewrite no_comma_cons in H. apply andb_true_iff in H as [_ H].
    now apply IH.
Qed.

Lemma before_first_no_marker p :
  no_comma p = true -> PyStr.before_first "base64," p = p.
Proof.
  induction p as [| c p IH]; intros H; [ reflexivity | ].
  change (PyStr.before_first "base64," (String c p))
    with (if String.prefix "base64," (String c p)
          then EmptyString
          else String c (PyStr.before_first "base64," p)).
  destruct (String.prefix "base64," (String c p)) eqn:E.
  - apply prefix_has_comma in E. congruence.
  - rewrite no_comma_cons in H. apply andb_true_iff in H as [_ H].
    now rewrite IH.
Qed.

(** X19.  A base64 field sent as a data URI reads as the same field sent
    bare: with a head and a payload free of commas (as a media type and
    base64 text are), [get_file] on [head ++ "base64," ++ payload] is
    [get_file] on [payload]. *)
Theorem data_uri_head_is_dropped W tb http_get head data url
  (st : SyncServer.ApiSt W) :
  no_comma head = true ->
  no_comma data = true ->
  SyncServer.get_file W tb http_get VNone
    (VStr (head ++ "base64," ++ data)) url st
  = SyncServer.get_file W tb http_get VNone (VStr data) url st.
Proof.
  intros Hh Hd.
  unfold SyncServer.get_file, SyncServer.read_content,
    PyStr.contains, PyStr.split_second.
  rewrite (after_first_marker head data Hh),
    (after_first_no_marker data Hd), (before_first_no_marker data Hd).
  reflexivity.
Qed.

Lemma data_uri_head_is_dropped_witness :
  SyncServer.get_file nat Samples.tables Samples.http_get VNone
    (VStr "data:image/png;base64,iVBORw0KGgo=") VNone
    (SyncServer.mkApiSt 0%nat [])
  = SyncServer.get_file nat Samples.tables Samples.http_get VNone
      (VStr "iVBORw0KGgo=") VNone (SyncServer.mkApiSt 0%nat []).
Proof.
  apply (data_uri_head_is_dropped nat Samples.tables Samples.http_get
           "data:image/png;" "iVBORw0KGgo=" VNone
           (SyncServer.mkApiSt 0%nat [])); reflexivity.
Defined.

(** * The replies of the websocket worker *)

Section WorkerFacts.
Variable W : Type.
Variable svc : Services W.
Variable self : Self W.
Variable io : SocketWorker.WorkerIO W.

Lemma send_result_answers task_id output w sent w' :
  SocketWorker.send_result W self io task_id output w = (Ok sent, w') ->
  exists bytes, sent = Some (SocketWorker.finish_task task_id bytes).
Proof.
  unfold SocketWorker.send_result.
  destruct (SocketWorker.save_png io output w) as [[bytes | e] w1];
    [ | discriminate ].
  destruct (if verbose self then _ else _) as [[[] | e] w2];
    [ | discriminate ].
  destruct (SocketWorker.websocket_send io _ w2) as [[[] | e] w3];
    [ | discriminate ].
  intros H. inversion H. eauto.
Qed.

Lemma on_message_answers fuel translation_params msg w sent w' :
  SocketWorker.on_message W svc self io fuel translation_params msg w
    = Some (Ok sent, w') ->
  map answered_task (SocketWorker.sent_frames sent)
  = map Some (task_ids [msg]).
Proof.
  destruct msg as [task | | |]; simpl;
    try (intros H; inversion H; reflexivity).
  unfold SocketWorker.on_new_task.
  destruct (if verbose self then _ else _) as [[[] | e] w0];
    [ | discriminate ].
  destruct (SocketWorker.Image_open io _ w0) as [[image | e] w1];
    [ | discriminate ].
  destruct (translate W svc _ fuel image _ w1) as [[[[] | e] st] |];
    try discriminate.
  destruct (result (ctx st)) as [out |]; [ | discriminate ].
  intros H. injection H as H.
  apply send_result_answers in H as (bytes & ->). reflexivity.
Qed.

Lemma task_ids_cons msg frames :
  task_ids (msg :: frames) = task_ids [msg] ++ task_ids frames.
Proof. unfold task_ids. simpl. now rewrite app_nil_r. Qed.

(** X20.  On one connection the worker answers the tasks in the order they
    came, one finish frame per task and none for any other frame: when the
    frames are all handled the answered tasks are the tasks received, and
    when a handler raises they are the tasks before the one that failed. *)
Theorem listen_answers_tasks_in_order fuel translation_params frames :
  forall w replies r w',
  SocketWorker.listen W svc self io fuel translation_params frames w
    = Some (replies, r, w') ->
  exists answered,
    map answered_task replies = map Some answered
    /\ (r = Ok tt -> answered = task_ids frames)
    /\ (forall e, r = Raise e ->
          exists failed rest,
            task_ids frames = answered ++ failed :: rest).
Proof.
  induction frames as [| msg frames IH]; intros w replies r w' H.
  - inversion H; subst. exists [].
    split; [ reflexivity | split; [ reflexivity | discriminate ] ].
  - cbn [SocketWorker.listen] in H.
    destruct (SocketWorker.on_message W svc self io fuel translation_params
                msg w) as [[[sent | e] w1] |] eqn:E; [ | | discriminate ].
    + destruct (SocketWorker.listen W svc self io fuel translation_params
                  frames w1) as [[[replies1 r1] w2] |] eqn:E1;
        [ | discriminate ].
      inversion H; subst.
      destruct (IH _ _ _ _ E1) as (answered & Hmap & Hok & Hraise).
      apply on_message_answers in E.
      exists (task_ids [msg] ++ answered). split; [ | split ].
      * now rewrite !map_app, E, Hmap.
      * intros Hr. rewrite (task_ids_cons msg frames). f_equal. now apply Hok.
      * intros e Hr. destruct (Hraise e Hr) as (failed & rest & Hf).
        exists failed, rest. now rewrite (task_ids_cons msg frames), Hf, app_assoc.
    + inversion H; subst. exists []. split; [ reflexivity | ].
      split; [ discriminate | ]. intros e0 _.
      destruct msg as [task | | |]; try discriminate E.
      exists (SocketWorker.id task), (task_ids frames).
      now rewrite (task_ids_cons _ frames).
Qed.

End WorkerFacts.

Lemma listen_answers_tasks_in_order_witness :
  let sc := Script.mkScenario Script.no_fault [Script.region "hello"]
              Script.echo in
  let frames :=
    [SocketWorker.status "task-0" "ocr";
     SocketWorker.new_task Samples.blank_page_task;
     SocketWorker.unset] in
  exists replies w',
    SocketWorker.listen nat (Script.services sc) (Script.engine true [])
      Samples.worker_io 3 [] frames 0%nat
    = Some (replies, Ok tt, w')
    /\ map answered_task replies = map Some ["task-1"].
Proof.
  intros sc frames.
  destruct (SocketWorker.listen nat (Script.services sc)
              (Script.engine true []) Samples.worker_io 3 [] frames 0%nat)
    as [[[replies r] w'] |] eqn:E; [ | vm_compute in E; discriminate E ].
  assert (Hr : r = Ok tt).
  { vm_compute in E. now inversion E. }
  subst r. exists replies, w'. split; [ reflexivity | ].
  destruct (listen_answers_tasks_in_order nat (Script.services sc)
              (Script.engine true []) Samples.worker_io 3%nat [] frames
              0%nat replies (Ok tt) w' E) as (answered & Hmap & Hok & _).
  rewrite Hmap, (Hok eq_refl). reflexivity.
Defined.

(** * The colour legend of the text file *)

Section LegendFacts.
Import TextFile.
Variable get_color_name : Color -> string.

Lemma similar_refl c : similar c c = true.
Proof.
  destruct c as [[r g] b]. unfold similar.
  apply Z.ltb_lt. rewrite !Z.sub_diag. simpl. lia.
Qed.

Lemma similar_sym c d : similar c d = similar d c.
Proof.
  destruct c as [[r g] b], d as [[r' g'] b']. unfold similar.
  f_equal. lia.
Qed.

(** What the scan finds: the first cached colour close to the one asked
    for, or the end of the cache. *)
Lemma scan_spec cached fg : forall idx,
  (exists pre rgb name post,
      cached = pre ++ (rgb, name) :: post
      /\ forallb (fun entry => negb (similar (fst entry) fg)) pre = true
      /\ similar rgb fg = true
      /\ scan cached fg idx = ((idx + List.length pre)%nat, true))
  \/ (forallb (fun entry => negb (similar (fst entry) fg)) cached = true
      /\ scan cached fg idx = ((idx + List.length cached)%nat, false)).
Proof.
  induction cached as [| [rgb name] rest IH]; intros idx.
  - right. simpl. split; [ reflexivity | f_equal; lia ].
  - simpl. destruct (similar rgb fg) eqn:E.
    + left. exists [], rgb, name, rest. simpl.
      repeat split; try assumption. f_equal. lia.
    + destruct (IH (idx + 1)%nat)
        as [(pre & c & n & post & -> & Hpre & Hc & Hs) | (Hall & Hs)].
      * left. exists ((rgb, name) :: pre), c, n, post. simpl.
        rewrite E, Hpre, Hs. repeat split; try assumption. f_equal. lia.
      * right. simpl. rewrite Hall, Hs. split; [ reflexivity | f_equal; lia ].
Qed.

Lemma nth_error_middle {A} (pre : list A) x post :
  nth_error (pre ++ x :: post) (List.length pre) = Some x.
Proof. induction pre; simpl; auto. Qed.

(** The outcome of one call, in the two cases of the scan. *)
Lemma identify_colors_cases fg cached :
  (exists pre rgb name post,
      cached = pre ++ (rgb, name) :: post
      /\ forallb (fun entry => negb (similar (fst entry) fg)) pre = true
      /\ similar rgb fg = true
      /\ identify_colors get_color_name fg cached
         = (Ok (S (List.length pre), name), cached))
  \/ (forallb (fun entry => negb (similar (fst entry) fg)) cached = true
      /\ identify_colors get_color_name fg cached
         = (Ok (S (List.length cached), get_color_name fg),
            cached ++ [(fg, get_color_name fg)])).
Proof.
  unfold identify_colors.
  destruct (scan_spec cached fg 0)
    as [(pre & c & n & post & -> & Hpre & Hc & Hs) | (Hall & Hs)];
    rewrite Hs; simpl.
  - left. exists pre, c, n, post. rewrite nth_error_middle.
    repeat split; try assumption. now rewrite Nat.add_1_r.
  - right. split; [ assumption | ].
    rewrite nth_error_middle. now rewrite Nat.add_1_r.
Qed.

Lemma scan_found_extends pre rgb name post fg later idx :
  forallb (fun entry => negb (similar (fst entry) fg)) pre = true ->
  similar rgb fg = true ->
  scan ((pre ++ (rgb, name) :: post) ++ later) fg idx
  = ((idx + List.length pre)%nat, true).
Proof.
  revert idx. induction pre as [| [c n] pre IH]; intros idx Hpre Hc; simpl.
  - rewrite Hc. f_equal. lia.
  - simpl in Hpre. apply andb_true_iff in Hpre as [Hn Hpre].
    apply negb_true_iff in Hn. rewrite Hn.
    rewrite (IH (idx + 1)%nat Hpre Hc). f_equal. lia.
Qed.

(** X21.  A call never fails, returns a number between 1 and the size of
    the cache, and adds at most one colour, at the end.  The number and the
    name given to a colour are stable: asked again at any later point of
    the page, whatever was cached in between, the same colour gets the
    same number and name and the cache is left as it is. *)
Theorem color_numbers_are_stable fg cached :
  exists id name cached',
    identify_colors get_color_name fg cached = (Ok (id, name), cached')
    /\ (1 <= id <= List.length cached')%nat
    /\ (cached' = cached \/ cached' = cached ++ [(fg, get_color_name fg)])
    /\ forall later,
         identify_colors get_color_name fg (cached' ++ later)
         = (Ok (id, name), cached' ++ later).
Proof.
  destruct (identify_colors_cases fg cached)
    as [(pre & c & n & post & -> & Hpre & Hc & Hrun) | (Hall & Hrun)].
  - exists (S (List.length pre)), n, (pre ++ (c, n) :: post).
    split; [ exact Hrun | ]. split; [ | split; [ now left | ] ].
    + rewrite length_app. simpl. lia.
    + intros later. unfold identify_colors.
      rewrite (scan_found_extends pre c n post fg later 0 Hpre Hc). simpl.
      rewrite <- app_assoc. simpl. rewrite nth_error_middle.
      now rewrite Nat.add_1_r.
  - exists (S (List.length cached)), (get_color_name fg),
      (cached ++ [(fg, get_color_name fg)]).
    split; [ exact Hrun | ]. split; [ | split; [ now right | ] ].
    + rewrite length_app. simpl. lia.
    + intros later. unfold identify_colors.
      rewrite (scan_found_extends cached fg (get_color_name fg) [] fg later 0
                 Hall (similar_refl fg)). simpl.
      rewrite <- app_assoc. simpl. rewrite nth_error_middle.
      now rewrite Nat.add_1_r.
Qed.

Lemma apart_snoc cached c n :
  apart cached = true ->
  forallb (fun entry => negb (similar (fst entry) c)) cached = true ->
  apart (cached ++ [(c, n)]) = true.
Proof.
  induction cached as [| [rgb name] rest IH]; simpl; intros Ha Hc;
    [ reflexivity | ].
  apply andb_true_iff in Ha as [Hrest Ha].
  apply andb_true_iff in Hc as [Hn Hc].
  rewrite forallb_app, Hrest, (IH Ha Hc). simpl. now rewrite Hn.
Qed.

(** X22.  The colours of the legend stay pairwise apart (no cached colour
    is within 50 of one cached before it) and keep the name of the colour
    first met; the entry a call answers with is a colour within 50 of the
    one asked for, under its own name. *)
Theorem legend_colours_stay_apart fg cached r cached' :
  apart cached = true ->
  well_named get_color_name cached ->
  identify_colors get_color_name fg cached = (r, cached') ->
  apart cached' = true
  /\ well_named get_color_name cached'
  /\ exists id rgb,
       r = Ok (id, get_color_name rgb)
       /\ nth_error cached' (id - 1) = Some (rgb, get_color_name rgb)
       /\ similar rgb fg = true.
Proof.
  intros Ha Hn Hrun.
  destruct (identify_colors_cases fg cached)
    as [(pre & c & n & post & Heq & Hpre & Hc & Hrun') | (Hall & Hrun')];
    rewrite Hrun' in Hrun; inversion Hrun; subst; clear Hrun.
  - split; [ exact Ha | ]. split; [ exact Hn | ].
    assert (n = get_color_name c) as ->.
    { apply Hn. apply in_or_app. right. now left. }
    exists (S (List.length pre)), c. split; [ reflexivity | ].
    split; [ | exact Hc ].
    simpl. rewrite Nat.sub_0_r. apply nth_error_middle.
  - split; [ now apply apart_snoc | ]. split.
    + intros c n Hin. apply in_app_or in Hin as [Hin | [Hin | []]].
      * now apply Hn.
      * now inversion Hin.
    + exists (S (List.length cached)), fg. split; [ reflexivity | ].
      split; [ | apply similar_refl ].
      simpl. rewrite Nat.sub_0_r.
      apply (nth_error_middle cached (fg, get_color_name fg) []).
Qed.

End LegendFacts.

(** The legend of a page with four regions: the third colour is close to
    the first, the fourth to the second. *)
Lemma legend_of_a_page :
  let name : TextFile.Color -> string :=
    fun c => if TextFile.similar c (0, 0, 0) then "black" else "other" in
  TextFile.legend name
    [Script.region "a";
     mkTextBlock (0, 0, 1, 1) "b" None None None None (200, 10, 10) (0, 0, 0);
     mkTextBlock (0, 0, 1, 1) "c" None None None None (10, 20, 10) (0, 0, 0);
     mkTextBlock (0, 0, 1, 1) "d" None None None None (210, 20, 0) (0, 0, 0)]
  = (Ok [(1%nat, "black"); (2%nat, "other"); (1%nat, "black");
         (2%nat, "other")],
     [((0, 0, 0), "black"); ((200, 10, 10), "other")]).
Proof. vm_compute. reflexivity. Qed.

Lemma legend_colours_stay_apart_witness :
  let name : TextFile.Color -> string := fun _ => "grey" in
  TextFile.apart [((0, 0, 0), "grey"); ((100, 100, 100), "grey")] = true
  /\ exists id,
       TextFile.identify_colors name (90, 110, 120)
         [((0, 0, 0), "grey"); ((100, 100, 100), "grey")]
       = (Ok (id, "grey"), [((0, 0, 0), "grey"); ((100, 100, 100), "grey")])
       /\ id = 2%nat.
Proof.
  intros name. split; [ reflexivity | ].
  destruct (legend_colours_stay_apart name (90, 110, 120)
              [((0, 0, 0), "grey"); ((100, 100, 100), "grey")]
              (Ok (2%nat, "grey"))
              [((0, 0, 0), "grey"); ((100, 100, 100), "grey")]
              eq_refl
              ltac:(intros c n [H | [H | []]]; inversion H; reflexivity)
              eq_refl) as (_ & _ & id & rgb & Hr & _).
  exists 2%nat. split; reflexivity.
Defined.

(** * The progress hook of the polling worker *)

Section SyncStateFacts.
Import WebClient.
Variable W : Type.
Variable requests_post : TaskUpdate -> Act W unit.
Variable _task_id : option string.
Variable self_nonce : string.

Local Abbreviation hook := (sync_state W requests_post _task_id self_nonce).
Local Abbreviation update state finished :=
  (mkTaskUpdate _task_id self_nonce state finished).

(** X23.  A report that is not final is posted exactly once, with the flag
    unset, and the hook returns whatever the server did: an exception of
    class Exception raised by the post is swallowed.  The report of state
    [finished] counts as not final, even with the flag set: the server is
    never told that state [finished] has finished. *)
Theorem sync_state_posts_once fuel state finished (w : W) r w' :
  finished = false \/ state = "finished" ->
  requests_post (update state false) w = (r, w') ->
  (forall e, r = Raise e -> is_Exception e = true) ->
  hook (S fuel) state finished w = Some (Ok tt, w').
Proof.
  intros Hnot Hpost Hexn. unfold sync_state.
  replace (finished && negb (String.eqb state "finished")) with false.
  - simpl. rewrite Hpost. destruct r as [[] | e]; [ reflexivity | ].
    now rewrite (Hexn e eq_refl).
  - destruct Hnot as [-> | ->]; [ reflexivity | ].
    symmetry. apply andb_false_r.
Qed.

Lemma sync_state_loop_ends_on_ack fuel data : forall (w : W) w',
  finished data = true ->
  sync_state_loop W requests_post fuel data w = Some (Ok tt, w') ->
  exists w0, requests_post data w0 = (Ok tt, w').
Proof.
  induction fuel as [| fuel IH]; intros w w' Hf H; [ discriminate | ].
  simpl in H.
  destruct (requests_post data w) as [[[] | e] w1] eqn:E.
  - inversion H; subst. eauto.
  - destruct (is_Exception e); [ | discriminate ].
    rewrite Hf in H. eapply IH; eauto.
Qed.

Lemma sync_state_loop_hangs fuel data : forall w : W,
  finished data = true ->
  (forall w0, exists e w1,
      requests_post data w0 = (Raise e, w1) /\ is_Exception e = true) ->
  sync_state_loop W requests_post fuel data w = None.
Proof.
  induction fuel as [| fuel IH]; intros w Hf Hdown; [ reflexivity | ].
  simpl. destruct (Hdown w) as (e & w1 & -> & ->). rewrite Hf.
  now apply IH.
Qed.

(** X24.  A final report (flag set, state other than [finished]) is
    posted again after every failure: the hook returns normally only after
    a post that the server answered, and while every post fails with an
    exception of class Exception it never returns, however many posts are
    allowed. *)
Theorem final_report_waits_for_server state (w : W) :
  state <> "finished" ->
  (forall fuel w',
      hook fuel state true w = Some (Ok tt, w') ->
      exists w0, requests_post (update state true) w0 = (Ok tt, w'))
  /\ ((forall w0, exists e w1,
          requests_post (update state true) w0 = (Raise e, w1)
          /\ is_Exception e = true) ->
      forall fuel, hook fuel state true w = None).
Proof.
  intros Hs.
  assert (Hfin : true && negb (String.eqb state "finished") = true).
  { simpl. apply negb_true_iff. now apply String.eqb_neq. }
  unfold sync_state. rewrite Hfin. split.
  - intros fuel w' H.
    exact (sync_state_loop_ends_on_ack fuel (update state true) w w'
             eq_refl H).
  - intros Hdown fuel.
    exact (sync_state_loop_hangs fuel (update state true) w eq_refl Hdown).
Qed.

End SyncStateFacts.

Lemma sync_state_posts_once_witness :
  WebClient.sync_state nat (WebClient.down_until 5) (Some "task-1") "n0"
    1 "finished" true 0%nat
  = Some (Ok tt, 1%nat).
Proof.
  apply (sync_state_posts_once nat (WebClient.down_until 5) (Some "task-1")
           "n0" 0%nat "finished" true 0%nat
           (Raise (PyException "ConnectionError")) 1%nat).
  - now right.
  - reflexivity.
  - intros e H. inversion H. reflexivity.
Defined.

Lemma final_report_waits_for_server_witness :
  exists w0,
    WebClient.down_until 3
      (WebClient.mkTaskUpdate (Some "task-1") "n0" "saved" true) w0
    = (Ok tt, 4%nat).
Proof.
  apply (proj1 (final_report_waits_for_server nat (WebClient.down_until 3)
                  (Some "task-1") "n0" "saved" 0%nat
                  ltac:(discriminate)) 4%nat 4%nat).
  reflexivity.
Defined.

(** The same server, with one post less allowed: the hook has not returned;
    with four, it returns after the fourth. *)
Lemma final_report_is_posted_again :
  WebClient.sync_state nat (WebClient.down_until 3) (Some "task-1") "n0"
    3 "saved" true 0%nat = None
  /\ WebClient.sync_state nat (WebClient.down_until 3) (Some "task-1") "n0"
       4 "saved" true 0%nat = Some (Ok tt, 4%nat).
Proof. split; reflexivity. Qed.

(** * The text collector *)

Section CollectorFacts.
Import OCRText.

Lemma remove_char_removes c d s :
  PyStr.all_chars (fun a => negb (Ascii.eqb a d)) s = true ->
  PyStr.all_chars (fun a => negb (Ascii.eqb a d)) (remove_char c s) = true.
Proof.
  induction s as [| a r IH]; simpl; [ reflexivity | ].
  intros H. apply andb_true_iff in H as [Ha Hr].
  destruct (Ascii.eqb a c); simpl; [ now apply IH | ].
  now rewrite Ha, IH.
Qed.

Lemma remove_char_gone c s :
  PyStr.all_chars (fun a => negb (Ascii.eqb a c)) (remove_char c s) = true.
Proof.
  induction s as [| a r IH]; simpl; [ reflexivity | ].
  destruct (Ascii.eqb a c) eqn:E; simpl; [ exact IH | ].
  now rewrite E, IH.
Qed.

Lemma all_chars_and p q s :
  PyStr.all_chars p s = true -> PyStr.all_chars q s = true ->
  PyStr.all_chars (fun c => p c && q c) s = true.
Proof.
  induction s as [| a r IH]; simpl; [ reflexivity | ].
  intros Hp Hq. apply andb_true_iff in Hp as [-> Hp].
  apply andb_true_iff in Hq as [-> Hq]. simpl. now apply IH.
Qed.

Lemma page_text_no_bracket page queries :
  no_bracket (page_text page queries) = true.
Proof.
  unfold no_bracket, page_text. apply all_chars_and.
  - apply remove_char_removes, remove_char_gone.
  - apply remove_char_gone.
Qed.

(** Every call is counted, whatever it does. *)
Lemma call_is_counted from_lang to_lang queries p :
  _translate_call_count (snd (_translate from_lang to_lang queries p))
  = _translate_call_count p + 1.
Proof.
  unfold _translate. cbv zeta.
  destruct (negb ((_translate_call_count p + 1) mod 2 =? 0));
    [ | reflexivity ].
  now destruct (page_count (db p)) as [[| [rowid page] rows] |].
Qed.



Lemma paired_step from_lang to_lang queries p :
  paired p ->
  paired (snd (_translate from_lang to_lang queries p))
  /\ fst (_translate from_lang to_lang queries p) = Ok [].
Proof.
  intros (Hc & pages & Hdb & Hlen). unfold _translate. cbv zeta.
  destruct ((_translate_call_count p + 1) mod 2 =? 0) eqn:E;
    cbn [negb].
  - apply Z.eqb_eq in E. split; [ | reflexivity ].
    unfold paired. cbn [snd _translate_call_count db].
    split; [ lia | ]. exists pages. rewrite Hdb. split.
    + do 4 f_equal. Z.div_mod_to_equations. lia.
    + rewrite Hlen. Z.div_mod_to_equations. lia.
  - apply Z.eqb_neq in E. rewrite Hdb.
    cbn [page_count manga_page]. split; [ | reflexivity ].
    unfold paired. cbn [snd _translate_call_count db].
    split; [ lia | ].
    exists (pages ++ [page_text (1 + (_translate_call_count p + 1) / 2)
                        queries]).
    split.
    + unfold update_page. cbn [map fst]. rewrite Z.eqb_refl.
      do 4 f_equal. Z.div_mod_to_equations. lia.
    + rewrite length_app, Nat2Z.inj_add, Hlen.
      cbn [List.length Z.of_nat]. Z.div_mod_to_equations. lia.
Qed.

Lemma after_calls_paired batches : forall p,
  paired p ->
  paired (after_calls batches p)
  /\ _translate_call_count (after_calls batches p)
     = _translate_call_count p + Z.of_nat (List.length batches).
Proof.
  induction batches as [| queries rest IH]; intros p Hp.
  - simpl. split; [ exact Hp | lia ].
  - cbn [after_calls].
    destruct (paired_step "" "" queries p Hp) as [Hp' _].
    destruct (IH _ Hp') as [Hq Hn]. split; [ exact Hq | ].
    rewrite Hn.
    rewrite (call_is_counted "" "" queries p).
    rewrite length_cons, Nat2Z.inj_succ. lia.
Qed.

(** On a database without tables the first call creates them and stores
    page 1. *)
Lemma first_call_creates_tables from_lang to_lang queries :
  _translate from_lang to_lang queries fresh
  = _translate from_lang to_lang queries
      (mkProcess 0 (mkDb (Some [(1, 1)]) (Some [])) []).
Proof. reflexivity. Qed.

(** X27.  Started in a new process on a database without tables, the
    collector numbers the pages by pairs of calls: after [n >= 1] calls,
    whatever the queries, none has raised, the page number stored is
    [1 + (n + 1) / 2] and [manga_page] holds [(n + 1) / 2] rows, one for
    each odd-numbered call. *)
Theorem pages_follow_pairs_of_calls batches :
  batches <> [] ->
  let p := after_calls batches fresh in
  let n := Z.of_nat (List.length batches) in
  _translate_call_count p = n
  /\ page_count (db p) = Some [(1, 1 + (n + 1) / 2)]
  /\ exists pages,
       manga_page (db p) = Some pages
       /\ Z.of_nat (List.length pages) = (n + 1) / 2.
Proof.
  destruct batches as [| queries rest]; [ congruence | ]. intros _.
  cbv zeta. cbn [after_calls]. rewrite first_call_creates_tables.
  set (p0 := mkProcess 0 (mkDb (Some [(1, 1)]) (Some [])) []).
  assert (Hp : paired p0).
  { split; [ simpl; lia | ]. exists []. split; reflexivity. }
  destruct (paired_step "" "" queries p0 Hp) as [Hp1 _].
  pose proof (call_is_counted "" "" queries p0) as Hc1.
  change (_translate_call_count p0) with 0 in Hc1.
  set (p1 := snd (_translate "" "" queries p0)) in *.
  destruct (after_calls_paired rest p1 Hp1)
    as [(_ & pages & Hdb & Hlen) Hn].
  assert (Hcount : _translate_call_count (after_calls rest p1)
                   = Z.of_nat (List.length (queries :: rest))).
  { rewrite Hn, Hc1, length_cons, Nat2Z.inj_succ. lia. }
  rewrite Hcount in Hdb, Hlen.
  split; [ exact Hcount | ]. rewrite Hdb. cbn [page_count manga_page].
  split; [ reflexivity | ]. exists pages. split; [ reflexivity | exact Hlen ].
Qed.

End CollectorFacts.


Lemma pages_follow_pairs_of_calls_witness :
  let p := OCRText.after_calls [["a"]; ["a"]; ["b"; "c"]] OCRText.fresh in
  OCRText._translate_call_count p = 3
  /\ OCRText.page_count (OCRText.db p) = Some [(1, 3)]
  /\ exists pages,
       OCRText.manga_page (OCRText.db p) = Some pages
       /\ Z.of_nat (List.length pages) = 2.
Proof.
  apply (pages_follow_pairs_of_calls [["a"]; ["a"]; ["b"; "c"]]).
  discriminate.
Defined.
